(** * vault-operator: TLS secret issuing (pkg/operator/tls.go)

    A shallow embedding of the operator's TLS asset preparation and cleanup
    code, run against a model of the Kubernetes secrets API, together with
    the properties the design document states about it. *)

From Stdlib Require Import String List ZArith Lia.
From stdpp Require Import base option list gmap strings.

Open Scope string_scope.
Open Scope list_scope.

(** ** Go errors and the apimachinery error predicates *)

(** metav1.StatusReason, restricted to the reasons the API model produces. *)
Inductive StatusReason :=
| StatusReasonNotFound
| StatusReasonAlreadyExists
| StatusReasonForbidden
| StatusReasonTimeout
| StatusReasonInternalError.

(** A non-nil Go [error]: either an apierrors.StatusError or a plain
    error built by fmt.Errorf. *)
Inductive error :=
| StatusError (reason : StatusReason) (message : string)
| errorString (message : string).

#[global] Instance StatusReason_eq_dec : EqDecision StatusReason.
Proof. solve_decision. Defined.
#[global] Instance error_eq_dec : EqDecision error.
Proof. solve_decision. Defined.

(** err.Error() *)
Definition Error (err : error) : string :=
  match err with
  | StatusError _ m => m
  | errorString m => m
  end.

(** fmt.Errorf(prefix + "%v", err): the result is a plain error, the
    status of the wrapped error is lost. *)
Definition Errorf (prefix : string) (err : error) : error :=
  errorString (prefix +:+ Error err).

(** apierrors.IsNotFound / apierrors.IsAlreadyExists *)
Definition IsNotFound (err : error) : bool :=
  match err with
  | StatusError StatusReasonNotFound _ => true
  | _ => false
  end.

Definition IsAlreadyExists (err : error) : bool :=
  match err with
  | StatusError StatusReasonAlreadyExists _ => true
  | _ => false
  end.

(** apierrors.NewNotFound / apierrors.NewAlreadyExists for secrets *)
Definition NewNotFound (name : string) : error :=
  StatusError StatusReasonNotFound ("secrets '" +:+ name +:+ "' not found").

Definition NewAlreadyExists (name : string) : error :=
  StatusError StatusReasonAlreadyExists ("secrets '" +:+ name +:+ "' already exists").

(** The error of a Go [(value, error)] result, and the guard
    [err != nil && p(err)]. *)
Definition errOf {A} (r : error + A) : option error :=
  match r with inl err => Some err | inr _ => None end.

Definition failedWith {A} (r : error + A) (p : error → bool) : option error :=
  match r with
  | inl err => if p err then Some err else None
  | inr _ => None
  end.

(** ** Keys and certificates *)

(** Modelled from the spec: package tlsutil (NewPrivateKey,
    NewSelfSignedCACertificate, NewSignedCertificate, NewAltNames,
    EncodePrivateKeyPEM, EncodeCertificatePEM, CertConfig) is not part of the
    sources at hand.  The design document says the issuer "generates a fresh
    private key and a certificate signed by the CA, embedding the given SAN
    list and a fixed organizational identity", that the CA is self-signed and
    that all material is PEM-encoded.  Keys are symbolic: a private key is
    its key material, its public half names that material, and a signature
    records the public half of the key that made it. *)
Record PrivateKey := { keyMaterial : Z }.
Record PublicKey := { publicMaterial : Z }.

(** Modelled from the spec: the public half of a key (key.Public()). *)
Definition Public (key : PrivateKey) : PublicKey :=
  {| publicMaterial := keyMaterial key |}.

(** Modelled from the spec: tlsutil.AltNames and tlsutil.CertConfig, the
    SAN list and the subject a certificate is asked for. *)
Record AltNames := { DNSNames : list string }.

Record CertConfig := {
  CommonName : string;
  Organization : list string;
  CfgAltNames : AltNames
}.

(** An x509.Certificate: subject, SANs, public key, CA flag, issuer and
    the key that signed it. *)
Record Certificate := {
  SubjectCommonName : string;
  SubjectOrganization : list string;
  CertDNSNames : list string;
  CertPublicKey : PublicKey;
  IsCA : bool;
  IssuerCommonName : string;
  SignedWith : PublicKey
}.

#[global] Instance PrivateKey_eq_dec : EqDecision PrivateKey.
Proof. solve_decision. Defined.
#[global] Instance PublicKey_eq_dec : EqDecision PublicKey.
Proof. solve_decision. Defined.
#[global] Instance AltNames_eq_dec : EqDecision AltNames.
Proof. solve_decision. Defined.
#[global] Instance Certificate_eq_dec : EqDecision Certificate.
Proof. solve_decision. Defined.

(** Modelled from the spec: tlsutil.NewAltNames; the SAN list is embedded
    as given. *)
Definition NewAltNames (addrs : list string) : AltNames :=
  {| DNSNames := addrs |}.

(** Modelled from the spec: tlsutil.NewSelfSignedCACertificate; the CA
    certificate is signed with its own key. *)
Definition NewSelfSignedCACertificate (cfg : CertConfig) (key : PrivateKey)
  : error + Certificate :=
  inr {| SubjectCommonName := CommonName cfg;
         SubjectOrganization := Organization cfg;
         CertDNSNames := [];
         CertPublicKey := Public key;
         IsCA := true;
         IssuerCommonName := CommonName cfg;
         SignedWith := Public key |}.

(** Modelled from the spec: tlsutil.NewSignedCertificate; "a certificate
    signed by the CA, embedding the given SAN list and a fixed
    organizational identity". *)
Definition NewSignedCertificate (cfg : CertConfig) (key : PrivateKey)
    (caCert : Certificate) (caKey : PrivateKey) : error + Certificate :=
  inr {| SubjectCommonName := CommonName cfg;
         SubjectOrganization := Organization cfg;
         CertDNSNames := DNSNames (CfgAltNames cfg);
         CertPublicKey := Public key;
         IsCA := false;
         IssuerCommonName := SubjectCommonName caCert;
         SignedWith := Public caKey |}.

(** x509 verification of [cert] against the single root [parent]: the
    parent must be a CA, be named as issuer, and its public key must check
    the signature. *)
Definition CheckSignatureFrom (cert parent : Certificate) : bool :=
  IsCA parent
  && bool_decide (IssuerCommonName cert = SubjectCommonName parent)
  && bool_decide (SignedWith cert = CertPublicKey parent).

(** PEM blocks (encoding/pem): a type label and the encoded object. *)
Inductive DER :=
| DERCertificate (crt : Certificate)
| DERPrivateKey (key : PrivateKey).

Record Block := { BlockType : string; BlockBytes : DER }.

(** The [[]byte] values held in a secret: PEM text, or anything else. *)
Inductive bytes :=
| PEMBytes (b : Block)
| RawBytes (s : string).

#[global] Instance DER_eq_dec : EqDecision DER.
Proof. solve_decision. Defined.
#[global] Instance Block_eq_dec : EqDecision Block.
Proof. solve_decision. Defined.
#[global] Instance bytes_eq_dec : EqDecision bytes.
Proof. solve_decision. Defined.

(** Modelled from the spec: tlsutil.EncodePrivateKeyPEM and
    tlsutil.EncodeCertificatePEM; "all certificate/key material is
    PEM-encoded". *)
Definition EncodePrivateKeyPEM (key : PrivateKey) : bytes :=
  PEMBytes {| BlockType := "RSA PRIVATE KEY"; BlockBytes := DERPrivateKey key |}.

(** Modelled from the spec: see EncodePrivateKeyPEM. *)
Definition EncodeCertificatePEM (crt : Certificate) : bytes :=
  PEMBytes {| BlockType := "CERTIFICATE"; BlockBytes := DERCertificate crt |}.

(** pem.Decode followed by x509.ParseCertificate / ParsePKCS1PrivateKey. *)
Definition ParseCertificatePEM (data : bytes) : option Certificate :=
  match data with
  | PEMBytes {| BlockType := t; BlockBytes := DERCertificate crt |} =>
      if bool_decide (t = "CERTIFICATE") then Some crt else None
  | _ => None
  end.

Definition ParsePrivateKeyPEM (data : bytes) : option PrivateKey :=
  match data with
  | PEMBytes {| BlockType := t; BlockBytes := DERPrivateKey key |} =>
      if bool_decide (t = "RSA PRIVATE KEY") then Some key else None
  | _ => None
  end.

Definition isPEM (data : bytes) : bool :=
  match data with PEMBytes _ => true | RawBytes _ => false end.

(** ** Kubernetes objects *)

(** metav1.OwnerReference *)
Record OwnerReference := {
  OwnerAPIVersion : string;
  OwnerKind : string;
  OwnerName : string;
  OwnerUID : string;
  OwnerController : bool
}.

(** metav1.ObjectMeta, the fields the operator reads or writes. *)
Record ObjectMeta := {
  Name : string;
  Namespace : string;
  UID : string;
  Labels : gmap string string;
  OwnerReferences : list OwnerReference
}.

(** v1.Secret *)
Record Secret := {
  SecretMeta : ObjectMeta;
  Data : gmap string bytes
}.

#[global] Instance OwnerReference_eq_dec : EqDecision OwnerReference.
Proof. solve_decision. Defined.
#[global] Instance ObjectMeta_eq_dec : EqDecision ObjectMeta.
Proof. solve_decision. Defined.
#[global] Instance Secret_eq_dec : EqDecision Secret.
Proof. solve_decision. Defined.

(** api.VaultService: the custom resource, with the part of its spec that
    tls.go reads ([vr.Spec.TLS.Static.ServerSecret]); the pointers
    [TLS] and [Static] may be nil. *)
Record StaticTLS := { ServerSecret : string }.
Record TLSPolicy := { Static : option StaticTLS }.
Record VaultServiceSpec := { TLS : option TLSPolicy }.
Record VaultService := {
  VaultMeta : ObjectMeta;
  Spec : VaultServiceSpec
}.

Abbreviation vrName vr := (Name (VaultMeta vr)).
Abbreviation vrNamespace vr := (Namespace (VaultMeta vr)).

(** The helpers of packages api, k8sutil and vaultutil that tls.go calls
    and whose bodies are not among the sources: they are parameters of the
    development. *)
Class Helpers := {
  IsTLSConfigured : option TLSPolicy → bool;
  DefaultVaultServerTLSSecretName : string → string;
  DefaultVaultClientTLSSecretName : string → string;
  EtcdNameForVault : string → string;
  EtcdClientTLSSecretName : string → string;
  EtcdServerTLSSecretName : string → string;
  EtcdPeerTLSSecretName : string → string;
  LabelsForVault : string → gmap string string;
  AsOwner : VaultService → OwnerReference
}.

(** Modelled from the spec: the data key names vaultutil.ServerTLSKeyName,
    vaultutil.ServerTLSCertName and api.CATLSCertName are constants declared
    outside the sources at hand; the secret layout of the design document
    gives the secret-service server bundle as {server.key, server.crt,
    server-ca.crt} and the client bundle as {ca.crt}. *)
Definition ServerTLSKeyName : string := "server.key".

(** Modelled from the spec: see ServerTLSKeyName. *)
Definition ServerTLSCertName : string := "server.crt".

(** Modelled from the spec: see ServerTLSKeyName. *)
Definition CATLSCertName : string := "ca.crt".

(** Modelled from the spec: k8sutil.AddOwnerRefToObject is not among the
    sources; it records the owner on the object so that the object is
    "deleted when the cluster resource is deleted". *)
Definition AddOwnerRefToObject (se : Secret) (r : OwnerReference) : Secret :=
  {| SecretMeta :=
       {| Name := Name (SecretMeta se);
          Namespace := Namespace (SecretMeta se);
          UID := UID (SecretMeta se);
          Labels := Labels (SecretMeta se);
          OwnerReferences := OwnerReferences (SecretMeta se) ++ [r] |};
     Data := Data se |}.

(** ** The cluster as the operator sees it *)

(** A transient failure of the API server, injected by the environment. *)
Inductive Fault := FaultForbidden | FaultTimeout | FaultInternalError.

Definition faultError (f : Fault) : error :=
  match f with
  | FaultForbidden => StatusError StatusReasonForbidden "forbidden"
  | FaultTimeout => StatusError StatusReasonTimeout "request timed out"
  | FaultInternalError => StatusError StatusReasonInternalError "internal error"
  end.

Inductive Verb := VerbGet | VerbCreate | VerbUpdate | VerbDelete.

(** What the environment observes of a run. *)
Inductive Event :=
| APICall (verb : Verb) (namespace name : string) (err : option error)
| KeyGenerated (key : option PrivateKey).

#[global] Instance Fault_eq_dec : EqDecision Fault.
Proof. solve_decision. Defined.
#[global] Instance Verb_eq_dec : EqDecision Verb.
Proof. solve_decision. Defined.
#[global] Instance Event_eq_dec : EqDecision Event.
Proof. solve_decision. Defined.

(** The state threaded through the operator: the secrets of the API
    server, keyed by namespace and name; the faults the next API calls will
    meet (none once the script is exhausted); the outcomes of the next reads
    of crypto/rand (a key, or a failure; failure once exhausted); and the
    calls made so far. *)
Record World := mkWorld {
  secrets : gmap (string * string) Secret;
  faults : list (option Fault);
  entropy : list (option PrivateKey);
  trace : list Event
}.

(** ** A state monad for operator code *)

Definition M (A : Type) : Type := World → A * World.

#[global] Instance M_ret : MRet M := λ A a w, (a, w).
#[global] Instance M_bind : MBind M := λ A B f m w, let (a, w1) := m w in f a w1.

Definition emit (e : Event) : M unit := λ w,
  (tt, mkWorld (secrets w) (faults w) (entropy w) (trace w ++ [e])).

Definition nextFault : M (option Fault) := λ w,
  match faults w with
  | [] => (None, w)
  | f :: fs => (f, mkWorld (secrets w) fs (entropy w) (trace w))
  end.

Definition nextKey : M (option PrivateKey) := λ w,
  match entropy w with
  | [] => (None, w)
  | k :: ks => (k, mkWorld (secrets w) (faults w) ks (trace w))
  end.

Definition lookupSecret (namespace name : string) : M (option Secret) := λ w,
  (secrets w !! (namespace, name), w).

Definition storeSecret (namespace name : string) (se : option Secret) : M unit := λ w,
  (tt, mkWorld (match se with
                | Some se => <[(namespace, name) := se]> (secrets w)
                | None => delete (namespace, name) (secrets w)
                end) (faults w) (entropy w) (trace w)).

(** An API call: a fault, if one is due, fails it with no effect. *)
Definition apiCall {A} (verb : Verb) (namespace name : string)
    (body : M (error + A)) : M (error + A) :=
  f ← nextFault;
  r ← match f with
      | Some f => mret (inl (faultError f))
      | None => body
      end;
  _ ← emit (APICall verb namespace name (errOf r));
  mret r.

(** kubecli.CoreV1().Secrets(namespace): Get, Create, Update, Delete. *)
Definition Get (namespace name : string) : M (error + Secret) :=
  apiCall VerbGet namespace name (
    o ← lookupSecret namespace name;
    match o with
    | Some se => mret (inr se)
    | None => mret (inl (NewNotFound name))
    end).

Definition inNamespace (namespace : string) (se : Secret) : Secret :=
  {| SecretMeta :=
       {| Name := Name (SecretMeta se);
          Namespace := namespace;
          UID := UID (SecretMeta se);
          Labels := Labels (SecretMeta se);
          OwnerReferences := OwnerReferences (SecretMeta se) |};
     Data := Data se |}.

Definition Create (namespace : string) (se : Secret) : M (error + Secret) :=
  let name := Name (SecretMeta se) in
  apiCall VerbCreate namespace name (
    o ← lookupSecret namespace name;
    match o with
    | Some _ => mret (inl (NewAlreadyExists name))
    | None =>
        let se := inNamespace namespace se in
        _ ← storeSecret namespace name (Some se);
        mret (inr se)
    end).

Definition Update (namespace : string) (se : Secret) : M (error + Secret) :=
  let name := Name (SecretMeta se) in
  apiCall VerbUpdate namespace name (
    o ← lookupSecret namespace name;
    match o with
    | None => mret (inl (NewNotFound name))
    | Some _ =>
        let se := inNamespace namespace se in
        _ ← storeSecret namespace name (Some se);
        mret (inr se)
    end).

Definition Delete (namespace name : string) : M (error + unit) :=
  apiCall VerbDelete namespace name (
    o ← lookupSecret namespace name;
    match o with
    | None => mret (inl (NewNotFound name))
    | Some _ =>
        _ ← storeSecret namespace name None;
        mret (inr tt)
    end).

(** tlsutil.NewPrivateKey: reads crypto/rand. *)
Definition NewPrivateKey : M (error + PrivateKey) :=
  k ← nextKey;
  _ ← emit (KeyGenerated k);
  match k with
  | Some key => mret (inr key)
  | None => mret (inl (errorString "crypto/rand: read failed"))
  end.

(** ** pkg/operator/tls.go *)

(** What a Go function with a named [err] result hands back, or the
    run-time panic of a nil pointer dereference. *)
Inductive outcome :=
| Returned (err : option error)
| Panicked (msg : string).

#[global] Instance outcome_eq_dec : EqDecision outcome.
Proof. solve_decision. Defined.

(** The deferred [if err != nil { err = fmt.Errorf(prefix, err) }]. *)
Definition deferWrap (prefix : string) (err : option error) : option error :=
  match err with
  | Some err => Some (Errorf prefix err)
  | None => None
  end.

(** [x, err := m; if err != nil { return err }] *)
Definition orReturn {A} (m : M (error + A)) (k : A → M (option error))
  : M (option error) :=
  r ← m;
  match r with
  | inl err => mret (Some err)
  | inr x => k x
  end.

Notation "x ←? m ; k" := (orReturn m (λ x, k))
  (at level 20, m at level 100, k at level 200, only parsing).
Notation "' x ←? m ; k" := (orReturn m (λ x, k))
  (at level 20, x pattern, m at level 100, k at level 200, only parsing).

Definition orgForTLSCert : list string := ["coreos.com"].
Definition defaultClusterDomain : string := "cluster.local".

Definition newCACert : M (error + (PrivateKey * Certificate)) :=
  r ← NewPrivateKey;
  match r with
  | inl err => mret (inl err)
  | inr key =>
      let config := {| CommonName := "vault operator CA";
                       Organization := orgForTLSCert;
                       CfgAltNames := {| DNSNames := [] |} |} in
      match NewSelfSignedCACertificate config key with
      | inl err => mret (inl err)
      | inr cert => mret (inr (key, cert))
      end
  end.

Definition newKeyAndCert (caCert : Certificate) (caPrivKey : PrivateKey)
    (config : CertConfig) : M (error + (PrivateKey * Certificate)) :=
  r ← NewPrivateKey;
  match r with
  | inl err => mret (inl err)
  | inr key =>
      match NewSignedCertificate config key caCert caPrivKey with
      | inl err => mret (inl err)
      | inr cert => mret (inr (key, cert))
      end
  end.

(** [fieldMap[k]]: a missing key reads as the empty string. *)
Definition field (fieldMap : gmap string string) (k : string) : string :=
  default "" (fieldMap !! k).

Section Operator.
Context `{Helpers}.

(** newTLSSecret is a common utility for creating a secret containing TLS
    assets.  The map literal is filled in source order. *)
Definition newTLSSecret (vr : VaultService) (caKey : PrivateKey)
    (caCrt : Certificate) (commonName secretName : string)
    (addrs : list string) (fieldMap : gmap string string) : M (error + Secret) :=
  let tc := {| CommonName := commonName;
               Organization := orgForTLSCert;
               CfgAltNames := NewAltNames addrs |} in
  r ← newKeyAndCert caCrt caKey tc;
  match r with
  | inl err => mret (inl (Errorf "new TLS secret failed: " err))
  | inr (key, crt) =>
      mret (inr
        {| SecretMeta :=
             {| Name := secretName;
                Namespace := "";
                UID := "";
                Labels := LabelsForVault (vrName vr);
                OwnerReferences := [] |};
           Data :=
             <[field fieldMap "ca" := EncodeCertificatePEM caCrt]>
               (<[field fieldMap "cert" := EncodeCertificatePEM crt]>
                  (<[field fieldMap "key" := EncodePrivateKeyPEM key]> ∅)) |})
  end.

Definition fieldNames (key cert ca : string) : gmap string string :=
  <["ca" := ca]> (<["cert" := cert]> (<["key" := key]> ∅)).

Definition newEtcdClientTLSSecret (vr : VaultService) (caKey : PrivateKey)
    (caCrt : Certificate) : M (error + Secret) :=
  newTLSSecret vr caKey caCrt "etcd client"
    (EtcdClientTLSSecretName (vrName vr)) []
    (fieldNames "etcd-client.key" "etcd-client.crt" "etcd-client-ca.crt").

Definition etcdServerAddrs (vr : VaultService) : list string :=
  let etcd := EtcdNameForVault (vrName vr) in
  let ns := vrNamespace vr in
  [ "localhost";
    "*." +:+ etcd +:+ "." +:+ ns +:+ ".svc";
    etcd +:+ "-client";
    etcd +:+ "-client." +:+ ns;
    etcd +:+ "-client." +:+ ns +:+ ".svc";
    "*." +:+ etcd +:+ "." +:+ ns +:+ ".svc." +:+ defaultClusterDomain;
    etcd +:+ "-client." +:+ ns +:+ ".svc." +:+ defaultClusterDomain ].

Definition newEtcdServerTLSSecret (vr : VaultService) (caKey : PrivateKey)
    (caCrt : Certificate) : M (error + Secret) :=
  newTLSSecret vr caKey caCrt "etcd server"
    (EtcdServerTLSSecretName (vrName vr))
    (etcdServerAddrs vr)
    (fieldNames "server.key" "server.crt" "server-ca.crt").

Definition etcdPeerAddrs (vr : VaultService) : list string :=
  let etcd := EtcdNameForVault (vrName vr) in
  let ns := vrNamespace vr in
  [ "*." +:+ etcd +:+ "." +:+ ns +:+ ".svc";
    "*." +:+ etcd +:+ "." +:+ ns +:+ ".svc." +:+ defaultClusterDomain ].

Definition newEtcdPeerTLSSecret (vr : VaultService) (caKey : PrivateKey)
    (caCrt : Certificate) : M (error + Secret) :=
  newTLSSecret vr caKey caCrt "etcd peer"
    (EtcdPeerTLSSecretName (vrName vr))
    (etcdPeerAddrs vr)
    (fieldNames "peer.key" "peer.crt" "peer-ca.crt").

Definition vaultServerAddrs (vr : VaultService) : list string :=
  [ "localhost";
    "*." +:+ vrNamespace vr +:+ ".pod";
    vrName vr +:+ "." +:+ vrNamespace vr +:+ ".svc" ].

Definition newVaultServerTLSSecret (vr : VaultService) (caKey : PrivateKey)
    (caCrt : Certificate) : M (error + Secret) :=
  newTLSSecret vr caKey caCrt "vault server"
    (DefaultVaultServerTLSSecretName (vrName vr))
    (vaultServerAddrs vr)
    (fieldNames ServerTLSKeyName ServerTLSCertName "server-ca.crt").

(** The client key and certificate are not generated since clients are not
    authenticated at the server. *)
Definition newVaultClientTLSSecret (vr : VaultService) (caCrt : Certificate)
  : Secret :=
  {| SecretMeta :=
       {| Name := DefaultVaultClientTLSSecretName (vrName vr);
          Namespace := "";
          UID := "";
          Labels := LabelsForVault (vrName vr);
          OwnerReferences := [] |};
     Data := <[CATLSCertName := EncodeCertificatePEM caCrt]> ∅ |}.

(** [_, err = Create(se); if err != nil && !IsAlreadyExists(err) { return err }] *)
Definition createOrReturn (namespace : string) (se : Secret)
    (k : M (option error)) : M (option error) :=
  r ← Create namespace se;
  match failedWith r (λ err, negb (IsAlreadyExists err)) with
  | Some err => mret (Some err)
  | None => k
  end.

(** [vr.Spec.TLS.Static.ServerSecret] *)
Definition specServerSecret (vr : VaultService) : option string :=
  tp ← TLS (Spec vr);
  st ← Static tp;
  Some (ServerSecret st).

(** prepareDefaultVaultTLSSecrets, from [se, err := newVaultServerTLSSecret(...)]
    to the final [return nil]: the two secrets are built, owned and
    created under the CA at hand. *)
Definition createDefaultVaultTLSSecrets (vr : VaultService)
    (caKey : PrivateKey) (caCrt : Certificate) : M (option error) :=
  se ←? newVaultServerTLSSecret vr caKey caCrt;
  let se := AddOwnerRefToObject se (AsOwner vr) in
  createOrReturn (vrNamespace vr) se (
  let se := newVaultClientTLSSecret vr caCrt in
  let se := AddOwnerRefToObject se (AsOwner vr) in
  createOrReturn (vrNamespace vr) se (
  mret None)).

(** prepareDefaultVaultTLSSecrets below its existence check, which both
    ways past the check run: [caKey, caCrt, err := newCACert()] and the
    creation of the secrets. *)
Definition issueDefaultVaultTLSSecrets (vr : VaultService) : M (option error) :=
  '(caKey, caCrt) ←? newCACert;
  createDefaultVaultTLSSecrets vr caKey caCrt.

(** prepareDefaultVaultTLSSecrets creates the default secrets for the vault
    server's TLS assets. *)
Definition prepareDefaultVaultTLSSecrets (vr : VaultService) : M outcome :=
  let wrap err := Returned (deferWrap "prepare default vault TLS secrets failed: " err) in
  if IsTLSConfigured (TLS (Spec vr)) then
    match specServerSecret vr with
    | None => mret (Panicked "invalid memory address or nil pointer dereference")
    | Some serverSecret =>
        r ← Get (vrNamespace vr) serverSecret;
        match r with
        | inr _ => mret (wrap None)
        | inl err =>
            if negb (IsNotFound err) then mret (wrap (Some err))
            else err ← issueDefaultVaultTLSSecrets vr; mret (wrap err)
        end
    end
  else err ← issueDefaultVaultTLSSecrets vr; mret (wrap err).

(** prepareEtcdTLSSecrets, from [se, err := newEtcdClientTLSSecret(...)] to
    the final [return nil]: the three secrets are built, owned and created
    under the CA at hand. *)
Definition createEtcdTLSSecrets (vr : VaultService)
    (caKey : PrivateKey) (caCrt : Certificate) : M (option error) :=
  se ←? newEtcdClientTLSSecret vr caKey caCrt;
  let se := AddOwnerRefToObject se (AsOwner vr) in
  createOrReturn (vrNamespace vr) se (
  se ←? newEtcdServerTLSSecret vr caKey caCrt;
  let se := AddOwnerRefToObject se (AsOwner vr) in
  createOrReturn (vrNamespace vr) se (
  se ←? newEtcdPeerTLSSecret vr caKey caCrt;
  let se := AddOwnerRefToObject se (AsOwner vr) in
  createOrReturn (vrNamespace vr) se (
  mret None))).

(** prepareEtcdTLSSecrets creates three etcd TLS secrets (client, server,
    peer) containing TLS assets. *)
Definition prepareEtcdTLSSecrets (vr : VaultService) : M (option error) :=
  err ← (
    r ← Get (vrNamespace vr) (EtcdClientTLSSecretName (vrName vr));
    match r with
    | inr _ => mret None
    | inl err =>
        if negb (IsNotFound err) then mret (Some err)
        else
          '(caKey, caCrt) ←? newCACert;
          createEtcdTLSSecrets vr caKey caCrt
    end);
  mret (deferWrap "prepare TLS secrets failed: " err).

(** [err = Delete(name, nil); if err != nil && !IsNotFound(err)
     { return fmt.Errorf("delete secret (%s) failed: %v", name, err) }] *)
Definition deleteOrReturn (namespace name : string) (k : M (option error))
  : M (option error) :=
  r ← Delete namespace name;
  match failedWith r (λ err, negb (IsNotFound err)) with
  | Some err =>
      mret (Some (Errorf ("delete secret (" +:+ name +:+ ") failed: ") err))
  | None => k
  end.

(** cleanupEtcdTLSSecrets cleans up etcd TLS secrets generated by operator
    for the given vault. *)
Definition cleanupEtcdTLSSecrets (vr : VaultService) : M (option error) :=
  err ← (
    deleteOrReturn (vrNamespace vr) (EtcdClientTLSSecretName (vrName vr)) (
    deleteOrReturn (vrNamespace vr) (EtcdServerTLSSecretName (vrName vr)) (
    deleteOrReturn (vrNamespace vr) (EtcdPeerTLSSecretName (vrName vr)) (
    mret None))));
  mret (deferWrap "cleanup TLS secrets failed: " err).

(** cleanupDefaultVaultTLSSecrets cleans up any auto generated vault TLS
    secrets for the given vault cluster. *)
Definition cleanupDefaultVaultTLSSecrets (vr : VaultService) : M (option error) :=
  err ← (
    deleteOrReturn (vrNamespace vr) (DefaultVaultServerTLSSecretName (vrName vr)) (
    deleteOrReturn (vrNamespace vr) (DefaultVaultClientTLSSecretName (vrName vr)) (
    mret None)));
  mret (deferWrap "cleanup vault TLS secrets failed: " err).
End Operator.

(** ** The vocabulary of the statements *)

(** The fault the next API call meets. *)
Definition dueFault (w : World) : option Fault :=
  match faults w with
  | Some f :: _ => Some f
  | _ => None
  end.

(** The world after an API call that leaves the secrets as [st]. *)
Definition advance (w : World) (st : gmap (string * string) Secret) (ev : Event)
  : World :=
  mkWorld st (tail (faults w)) (entropy w) (trace w ++ [ev]).

(** What Get, Create and Delete return from [w]. *)
Definition getResult (namespace name : string) (w : World) : error + Secret :=
  match dueFault w with
  | Some f => inl (faultError f)
  | None =>
      match secrets w !! (namespace, name) with
      | Some se => inr se
      | None => inl (NewNotFound name)
      end
  end.

Definition createResult (namespace : string) (se : Secret) (w : World)
  : error + Secret :=
  match dueFault w with
  | Some f => inl (faultError f)
  | None =>
      match secrets w !! (namespace, Name (SecretMeta se)) with
      | Some _ => inl (NewAlreadyExists (Name (SecretMeta se)))
      | None => inr (inNamespace namespace se)
      end
  end.

Definition deleteResult (namespace name : string) (w : World) : error + unit :=
  match dueFault w with
  | Some f => inl (faultError f)
  | None =>
      match secrets w !! (namespace, name) with
      | Some _ => inr tt
      | None => inl (NewNotFound name)
      end
  end.

(** The world after a read of crypto/rand. *)
Definition drawn (w : World) : World :=
  mkWorld (secrets w) (faults w) (tail (entropy w))
    (trace w ++ [KeyGenerated (mjoin (head (entropy w)))]).

(** The key the next read of crypto/rand yields, and the error when it
    yields none. *)
Definition nextKeyOf (w : World) : option PrivateKey := mjoin (head (entropy w)).

Definition randError : error := errorString "crypto/rand: read failed".

(** [wp m w Q]: running [m] from [w] ends in a result and a world that
    satisfy [Q]. *)
Definition wp {A} (m : M A) (w : World) (Q : A → World → Prop) : Prop :=
  Q (m w).1 (m w).2.

(** The certificate newCACert makes for a key. *)
Definition caCertFor (key : PrivateKey) : Certificate :=
  {| SubjectCommonName := "vault operator CA";
     SubjectOrganization := orgForTLSCert;
     CertDNSNames := [];
     CertPublicKey := Public key;
     IsCA := true;
     IssuerCommonName := "vault operator CA";
     SignedWith := Public key |}.

(** The store after a create that met no fault. *)
Definition createIfAbsent (k : string * string) (se : Secret)
    (st : gmap (string * string) Secret) : gmap (string * string) Secret :=
  match st !! k with
  | Some _ => st
  | None => <[k := se]> st
  end.

(** The leaf certificate newTLSSecret signs. *)
Definition leafFor (caKey : PrivateKey) (caCrt : Certificate)
    (commonName : string) (addrs : list string) (key : PrivateKey) : Certificate :=
  {| SubjectCommonName := commonName;
     SubjectOrganization := orgForTLSCert;
     CertDNSNames := addrs;
     CertPublicKey := Public key;
     IsCA := false;
     IssuerCommonName := SubjectCommonName caCrt;
     SignedWith := Public caKey |}.

Section Vocabulary.
Context `{Helpers}.

(** The secret newTLSSecret assembles once the leaf key is drawn. *)
Definition tlsSecretFor (vr : VaultService) (caKey : PrivateKey)
    (caCrt : Certificate) (commonName secretName : string)
    (addrs : list string) (fieldMap : gmap string string) (key : PrivateKey)
  : Secret :=
  {| SecretMeta :=
       {| Name := secretName;
          Namespace := "";
          UID := "";
          Labels := LabelsForVault (vrName vr);
          OwnerReferences := [] |};
     Data :=
       <[field fieldMap "ca" := EncodeCertificatePEM caCrt]>
         (<[field fieldMap "cert" :=
              EncodeCertificatePEM
                {| SubjectCommonName := commonName;
                   SubjectOrganization := orgForTLSCert;
                   CertDNSNames := addrs;
                   CertPublicKey := Public key;
                   IsCA := false;
                   IssuerCommonName := SubjectCommonName caCrt;
                   SignedWith := Public caKey |}]>
            (<[field fieldMap "key" := EncodePrivateKeyPEM key]> ∅)) |}.

(** The secrets tls.go builds for a cluster under a given CA. *)
Inductive EtcdBundle (vr : VaultService) (caKey : PrivateKey)
    (caCrt : Certificate) : Secret → Prop :=
| EtcdClientBundle w w1 se :
    newEtcdClientTLSSecret vr caKey caCrt w = (inr se, w1) →
    EtcdBundle vr caKey caCrt se
| EtcdServerBundle w w1 se :
    newEtcdServerTLSSecret vr caKey caCrt w = (inr se, w1) →
    EtcdBundle vr caKey caCrt se
| EtcdPeerBundle w w1 se :
    newEtcdPeerTLSSecret vr caKey caCrt w = (inr se, w1) →
    EtcdBundle vr caKey caCrt se.

Inductive VaultBundle (vr : VaultService) (caKey : PrivateKey)
    (caCrt : Certificate) : Secret → Prop :=
| VaultServerBundle w w1 se :
    newVaultServerTLSSecret vr caKey caCrt w = (inr se, w1) →
    VaultBundle vr caKey caCrt se
| VaultClientBundle :
    VaultBundle vr caKey caCrt (newVaultClientTLSSecret vr caCrt).

(** A bundle as the API server stores it for the cluster [vr]. *)
Definition stored (vr : VaultService) (se : Secret) : Secret :=
  inNamespace (vrNamespace vr) (AddOwnerRefToObject se (AsOwner vr)).

(** A stored secret of the cluster [vr] built from one of [Fam]. *)
Definition issued (vr : VaultService) (Fam : Secret → Prop)
    (k : string * string) (s : Secret) : Prop :=
  ∃ se, Fam se ∧ k = (vrNamespace vr, Name (SecretMeta se)) ∧ s = stored vr se.

(** The etcd secrets are settled once the client secret exists; the vault
    secrets, once the configured server secret exists or both default
    secrets do. *)
Definition etcdSettled (vr : VaultService) (w : World) : Prop :=
  is_Some (secrets w !! (vrNamespace vr, EtcdClientTLSSecretName (vrName vr))).

Definition vaultDefaultsExist (vr : VaultService) (w : World) : Prop :=
  is_Some (secrets w !! (vrNamespace vr, DefaultVaultServerTLSSecretName (vrName vr))) ∧
  is_Some (secrets w !! (vrNamespace vr, DefaultVaultClientTLSSecretName (vrName vr))).

Definition vaultConfiguredExists (vr : VaultService) (w : World) : Prop :=
  IsTLSConfigured (TLS (Spec vr)) = true ∧
  ∃ serverSecret, specServerSecret vr = Some serverSecret ∧
                  is_Some (secrets w !! (vrNamespace vr, serverSecret)).

Definition vaultSettled (vr : VaultService) (w : World) : Prop :=
  vaultConfiguredExists vr w ∨ vaultDefaultsExist vr w.
End Vocabulary.

(** An observed call that neither updates nor deletes. *)
Definition quiet (ev : Event) : Prop :=
  match ev with
  | APICall VerbUpdate _ _ _ | APICall VerbDelete _ _ _ => False
  | _ => True
  end.

(** [grows P w0 w]: from [w0] to [w] every stored secret is kept as it
    was, every secret that appeared satisfies [P], and the calls made in
    between are quiet. *)
Definition grows (P : string * string → Secret → Prop) (w0 w : World) : Prop :=
  (∀ k s, secrets w0 !! k = Some s → secrets w !! k = Some s) ∧
  (∀ k s, secrets w0 !! k = None → secrets w !! k = Some s → P k s) ∧
  (∃ evs, trace w = trace w0 ++ evs ∧ Forall quiet evs).

(** The certificates a secret holds, by data key. *)
Definition certificates (s : Secret) : gmap string Certificate :=
  omap ParseCertificatePEM (Data s).

(** The private keys a secret holds, by data key. *)
Definition privateKeys (s : Secret) : gmap string PrivateKey :=
  omap ParsePrivateKeyPEM (Data s).

(** TLS round trip: the bundle holds a self-signed CA certificate against
    which every certificate of the bundle verifies. *)
Definition validates (s : Secret) : Prop :=
  map_Exists (λ _ ca,
      IsCA ca = true ∧ CheckSignatureFrom ca ca = true ∧
      map_Forall (λ _ crt, CheckSignatureFrom crt ca = true) (certificates s))
    (certificates s).

#[global] Instance validates_dec s : Decision (validates s).
Proof. unfold validates. apply _. Defined.

(** Every certificate of the secret verifies against [ca]. *)
Definition verifiesAgainst (ca : Certificate) (s : Secret) : Prop :=
  map_Forall (λ _ crt, CheckSignatureFrom crt ca = true) (certificates s).

(** No fault is due for the next [n] API calls. *)
Definition noFaults (n : nat) (w : World) : Prop :=
  Forall (λ f, f = None) (take n (faults w)).

#[global] Instance noFaults_dec n w : Decision (noFaults n w).
Proof. unfold noFaults. apply _. Defined.

(** What a cleanup over the secrets [names] hands back: nothing once all
    of them are gone, or the wrapped fault of the deletion that failed. *)
Definition cleaned (prefix : string) (namespace : string) (names : list string)
    (w : World) (r : option error) (w1 : World) : Prop :=
  match r with
  | None =>
      secrets w1 = foldl (λ st name, delete (namespace, name) st) (secrets w) names
  | Some err =>
      ∃ name f,
        name ∈ names ∧ Some f ∈ take (length names) (faults w) ∧
        IsNotFound (faultError f) = false ∧
        err = Errorf prefix
                (Errorf ("delete secret (" +:+ name +:+ ") failed: ") (faultError f))
  end.

(** An observed call that is not an update. *)
Definition notUpdate (ev : Event) : Prop :=
  match ev with
  | APICall VerbUpdate _ _ _ => False
  | _ => True
  end.

(** [shrinks w0 w]: from [w0] to [w] no secret appeared or changed, and no
    update call was made. *)
Definition shrinks (w0 w : World) : Prop :=
  (∀ k s, secrets w !! k = Some s → secrets w0 !! k = Some s) ∧
  (∃ evs, trace w = trace w0 ++ evs ∧ Forall notUpdate evs).

(** An observed call that stored nothing new. *)
Definition notCreated (ev : Event) : Prop :=
  match ev with
  | APICall VerbCreate _ _ None => False
  | _ => True
  end.

(** [idle w0 w]: from [w0] to [w] the store is the same and no create
    call succeeded. *)
Definition idle (w0 w : World) : Prop :=
  secrets w = secrets w0 ∧
  (∃ evs, trace w = trace w0 ++ evs ∧ Forall notCreated evs ∧ Forall quiet evs).

(** An observed call that is not a get. *)
Definition notGet (ev : Event) : Prop :=
  match ev with
  | APICall VerbGet _ _ _ => False
  | _ => True
  end.

(** [begins ev0 P w0 w]: since [w0] the first thing observed was [ev0],
    and all that followed satisfies [P]. *)
Definition begins (ev0 : Event) (P : Event → Prop) (w0 w : World) : Prop :=
  ∃ evs, trace w = trace w0 ++ ev0 :: evs ∧ Forall P evs.

(** Since [w0] a key was drawn first and no get call was made. *)
Definition generates (w0 w : World) : Prop :=
  begins (KeyGenerated (nextKeyOf w0)) notGet w0 w.

(** Since [w0] the first call was a get of the secret [name]. *)
Definition probes (namespace name : string) (w0 w : World) : Prop :=
  begins (APICall VerbGet namespace name (errOf (getResult namespace name w0)))
    (λ _, True) w0 w.

(** The successful creations of a secret among observed calls. *)
Definition creationsOf (namespace name : string) (evs : list Event) : list Event :=
  filter (λ ev, ev = APICall VerbCreate namespace name None) evs.

(** [createdOnce w0 w]: since [w0] every secret was created at most once,
    and a secret that was created is in the store. *)
Definition createdOnce (w0 w : World) : Prop :=
  ∃ evs, trace w = trace w0 ++ evs ∧
    ∀ namespace name,
      (length (creationsOf namespace name evs) ≤ 1)%nat ∧
      (creationsOf namespace name evs ≠ [] →
       is_Some (secrets w !! (namespace, name))).

(** One CA per cluster: all leaf certificates stored for the
    cluster in its namespace verify against one and the same CA
    certificate. *)
Definition signedByOneCA (namespace : string) (w : World) : Prop :=
  ∃ ca, ∀ name s n crt,
    secrets w !! (namespace, name) = Some s →
    certificates s !! n = Some crt →
    IsCA crt = false →
    CheckSignatureFrom crt ca = true.

(** ** A concrete cluster to run the code on *)

(** Modelled from the spec: "Secret names are deterministic functions of the
    cluster identifier and role (e.g. <cluster>-etcd-client-tls)"; the TLS
    policy is "optional", and configured when it refers to supplied secret
    names.  This instance is used to run the code on concrete inputs; the
    theorems hold for every instance. *)
Definition specHelpers : Helpers := {|
  IsTLSConfigured tp :=
    match tp with
    | Some {| Static := Some _ |} => true
    | _ => false
    end;
  DefaultVaultServerTLSSecretName name := name +:+ "-default-vault-server-tls";
  DefaultVaultClientTLSSecretName name := name +:+ "-default-vault-client-tls";
  EtcdNameForVault name := name +:+ "-etcd";
  EtcdClientTLSSecretName name := name +:+ "-etcd-client-tls";
  EtcdServerTLSSecretName name := name +:+ "-etcd-server-tls";
  EtcdPeerTLSSecretName name := name +:+ "-etcd-peer-tls";
  LabelsForVault name := {[ "app" := "vault"; "vault_cluster" := name ]};
  AsOwner vr :=
    {| OwnerAPIVersion := "vault.security.coreos.com/v1alpha1";
       OwnerKind := "VaultService";
       OwnerName := vrName vr;
       OwnerUID := UID (VaultMeta vr);
       OwnerController := true |}
|}.

Definition exampleVault (tls : option TLSPolicy) : VaultService :=
  {| VaultMeta := {| Name := "example"; Namespace := "default"; UID := "uid-1";
                     Labels := ∅; OwnerReferences := [] |};
     Spec := {| TLS := tls |} |}.

Definition key (n : Z) : option PrivateKey := Some {| keyMaterial := n |}.

Definition emptyWorld (keys : list (option PrivateKey)) : World :=
  mkWorld ∅ [] keys [].

Definition exampleKeys : list (option PrivateKey) :=
  [key 11; key 12; key 13; key 14; key 21; key 22].

(** A cluster [example] in namespace [default] without a TLS policy, first
    in an empty namespace, then after the etcd secrets were prepared, then
    after the vault secrets were prepared too. *)
Definition vr0 : VaultService := exampleVault None.

Definition w0 : World := emptyWorld exampleKeys.

Definition wEtcd : World := (@prepareEtcdTLSSecrets specHelpers vr0 w0).2.

Definition wBoth : World := (@prepareDefaultVaultTLSSecrets specHelpers vr0 wEtcd).2.

(** The same cluster with a TLS policy that names a server secret. *)
Definition vrStatic : VaultService :=
  exampleVault (Some {| Static := Some {| ServerSecret := "my-server-tls" |} |}).

(** The etcd client secret exists, the server and peer secrets do not:
    the world after a run that met a fault at its second create. *)
Definition wPartial : World :=
  (@prepareEtcdTLSSecrets specHelpers vr0
     (mkWorld ∅ [None; None; Some FaultTimeout] exampleKeys [])).2.

Definition nsName (name : string) : string * string := ("default", name).

(** The vault secrets prepared first, in an empty namespace. *)
Definition wVault : World := (@prepareDefaultVaultTLSSecrets specHelpers vr0 w0).2.

(** A namespace in which the server secret named by [vrStatic] exists. *)
Definition wStatic : World :=
  mkWorld {[ nsName "my-server-tls" :=
               {| SecretMeta := {| Name := "my-server-tls"; Namespace := "default";
                                   UID := ""; Labels := ∅; OwnerReferences := [] |};
                  Data := ∅ |} ]}
    [] exampleKeys [].

(** The store of [wBoth] when the second deletion is due to be refused. *)
Definition wForbidden : World :=
  mkWorld (secrets wBoth) [None; Some FaultForbidden] [] [].

Definition caKey0 : PrivateKey := {| keyMaterial := 11 |}.

Definition secretOf (r : (error + Secret) * World) : Secret :=
  match r.1 with
  | inr se => se
  | inl _ => {| SecretMeta := {| Name := ""; Namespace := ""; UID := "";
                                 Labels := ∅; OwnerReferences := [] |};
                Data := ∅ |}
  end.

Definition exVaultServer : (error + Secret) * World :=
  @newVaultServerTLSSecret specHelpers vr0 caKey0 (caCertFor caKey0) w0.

Definition exEtcdClient : (error + Secret) * World :=
  @newEtcdClientTLSSecret specHelpers vr0 caKey0 (caCertFor caKey0) w0.

Definition exEtcdServer : (error + Secret) * World :=
  @newEtcdServerTLSSecret specHelpers vr0 caKey0 (caCertFor caKey0) w0.

Definition exEtcdPeer : (error + Secret) * World :=
  @newEtcdPeerTLSSecret specHelpers vr0 caKey0 (caCertFor caKey0) w0.

(** ** The vocabulary of further properties of tls.go *)

(** The next [n] reads of crypto/rand yield a key each. *)
Definition keysAvailable (n : nat) (w : World) : Prop :=
  (n ≤ length (entropy w))%nat ∧ Forall is_Some (take n (entropy w)).

#[global] Instance keysAvailable_dec n w : Decision (keysAvailable n w).
Proof. unfold keysAvailable. apply _. Defined.

(** Nothing stands in the way of [calls] API calls and [keys] key
    generations. *)
Definition ready (calls keys : nat) (w : World) : Prop :=
  noFaults calls w ∧ keysAvailable keys w.

(** What can make a prepare operation fail: a fault met by one of its
    first [calls] API calls, or a failed read of crypto/rand, for the CA
    key or for the key of a secret. *)
Definition cause (calls : nat) (w : World) (err : error) : Prop :=
  (∃ f, Some f ∈ take calls (faults w) ∧ err = faultError f) ∨
  err = randError ∨
  err = Errorf "new TLS secret failed: " randError.

(** A run that makes [calls] API calls and draws [keys] keys when nothing
    fails: it returns nil exactly when nothing stands in its way, and an
    error it returns is one of the causes. *)
Definition verdict (calls keys : nat) (w : World) (r : option error) : Prop :=
  (r = None ↔ ready calls keys w) ∧ (∀ err, r = Some err → cause calls w err).

(** The same, seen through the deferred wrapping of the error. *)
Definition succeedsWith (prefix : string) (calls keys : nat) (w : World)
    (r : option error) : Prop :=
  (r = None ↔ noFaults calls w ∧ keysAvailable keys w) ∧
  (∀ err, r = Some err →
     ∃ inner, err = errorString (prefix +:+ Error inner) ∧ cause calls w inner).

Section Groups.
Context `{Helpers}.

(** The names of the secrets of the two groups, in the order in which the
    operations create and delete them. *)
Definition etcdTLSSecretNames (vr : VaultService) : list string :=
  [EtcdClientTLSSecretName (vrName vr);
   EtcdServerTLSSecretName (vrName vr);
   EtcdPeerTLSSecretName (vrName vr)].

Definition defaultVaultTLSSecretNames (vr : VaultService) : list string :=
  [DefaultVaultServerTLSSecretName (vrName vr);
   DefaultVaultClientTLSSecretName (vrName vr)].

(** The keys of the store that the secrets [names] of the cluster occupy. *)
Definition keysOf (vr : VaultService) (names : list string)
    (k : string * string) : Prop :=
  ∃ name, name ∈ names ∧ k = (vrNamespace vr, name).
End Groups.

(** The store without the secrets [names] of a namespace. *)
Definition without (namespace : string) (names : list string)
    (st : gmap (string * string) Secret) : gmap (string * string) Secret :=
  foldl (λ st name, delete (namespace, name) st) st names.

(** The deletions of a cleanup operation, one name after the other, up to
    the first that fails. *)
Fixpoint deleteAll (namespace : string) (names : list string) : M (option error) :=
  match names with
  | [] => mret None
  | name :: names => deleteOrReturn namespace name (deleteAll namespace names)
  end.

(** A cleanup that failed at its [i]-th deletion: the deletions before it
    met no fault and are done, the [i]-th met the fault [f], and no further
    call was made. *)
Definition stoppedAt (prefix namespace : string) (names : list string)
    (w : World) (err : error) (w1 : World) : Prop :=
  ∃ (i : nat) (name : string) (f : Fault),
    names !! i = Some name ∧
    noFaults i w ∧ faults w !! i = Some (Some f) ∧
    err = errorString (prefix +:+ "delete secret (" +:+ name +:+ ") failed: "
                         +:+ Error (faultError f)) ∧
    secrets w1 = without namespace (take i names) (secrets w) ∧
    ∃ evs, trace w1 = trace w ++ evs ∧ length evs = S i.

(** [issuedUnder caKey E w0 w]: every secret that appeared since [w0] holds
    certificates signed with [caKey] only, and private keys among the reads
    [E] of crypto/rand only. *)
Definition issuedUnder (caKey : PrivateKey) (E : list (option PrivateKey))
    (w0 w : World) : Prop :=
  ∀ k s, secrets w0 !! k = None → secrets w !! k = Some s →
    (∀ n key, privateKeys s !! n = Some key → Some key ∈ E) ∧
    (∀ n crt, certificates s !! n = Some crt → SignedWith crt = Public caKey).

(** The same while the run goes on: what is still to be read of
    crypto/rand is among [E] too. *)
Definition signedUnder (caKey : PrivateKey) (E : list (option PrivateKey))
    (w0 w : World) : Prop :=
  (∀ x, x ∈ entropy w → x ∈ E) ∧ issuedUnder caKey E w0 w.

(** The empty namespace when the third API call is due to time out. *)
Definition wTimeout : World :=
  mkWorld ∅ [None; None; Some FaultTimeout] exampleKeys [].

(** The store of [wVault] without the client secret, and two other keys
    to draw: the default server secret is there, signed under another CA
    than the next run will generate. *)
Definition wServerOnly : World :=
  mkWorld (delete (nsName "example-default-vault-client-tls") (secrets wVault))
    [] [key 21; key 22] [].

(** * Rolling upgrade *)

Module Upgrade.
Local Open Scope nat_scope.

(** Modelled from the spec: the rolling upgrade orchestrator, the observer
    and the cluster status are not among the sources (only the end-to-end
    test of an upgrade is).  The design document gives the orchestrator as
    a state machine over the observed nodes: nodes running an old version
    are replaced "one at a time" by "delete + recreate with new version";
    the orchestrator "waits for the replaced node to reappear sealed,
    running the new version", then "for an external actor to unseal the new
    node", and only then tears down the next one.  A node is observed as
    sealed, active or standby; the state of the machine "is derivable, not
    independently stored". *)
Inductive Role := Sealed | Active | Standby.

(** Modelled from the spec: a node as observed, with the ordinal the
    scheduler keys it by, its version and its role. *)
Record Node := mkNode {
  nodeOrdinal : nat;
  nodeVersion : string;
  nodeRole : Role
}.

(** Modelled from the spec: the desired state, ClusterSpec { version,
    nodes }. *)
Record ClusterSpec := mkSpec {
  version : string;
  nodes : nat
}.

(** Modelled from the spec: the members that exist and the ordinal the
    scheduler gives the next node. *)
Record Cluster := mkCluster {
  members : list Node;
  nextOrdinal : nat
}.

#[global] Instance Role_eq_dec : EqDecision Role.
Proof. solve_decision. Defined.
#[global] Instance Node_eq_dec : EqDecision Node.
Proof. solve_decision. Defined.

Definition isSealed (n : Node) : bool := bool_decide (nodeRole n = Sealed).
Definition isActive (n : Node) : bool := bool_decide (nodeRole n = Active).
Definition isStandby (n : Node) : bool := bool_decide (nodeRole n = Standby).
Definition isUnsealed (n : Node) : bool := negb (isSealed n).
Definition isNew (desired : ClusterSpec) (n : Node) : bool :=
  bool_decide (nodeVersion n = version desired).
Definition isOld (desired : ClusterSpec) (n : Node) : bool :=
  negb (isNew desired n).

Definition setRole (r : Role) (n : Node) : Node :=
  mkNode (nodeOrdinal n) (nodeVersion n) r.

Fixpoint count (p : Node → bool) (l : list Node) : nat :=
  match l with
  | [] => 0
  | n :: l => (if p n then 1 else 0) + count p l
  end.

(** Modelled from the spec: the cluster status (sealedNodes, activeNode,
    standbyNodes). *)
Record ClusterStatus := {
  sealedNodes : list nat;
  activeNode : option nat;
  standbyNodes : list nat
}.

Definition ordinalsOf (p : Node → bool) (l : list Node) : list nat :=
  nodeOrdinal <$> List.filter p l.

(** Modelled from the spec: the observer classifies each member by its
    role. *)
Definition observe (c : Cluster) : ClusterStatus :=
  {| sealedNodes := ordinalsOf isSealed (members c);
     activeNode := head (ordinalsOf isActive (members c));
     standbyNodes := ordinalsOf isStandby (members c) |}.

Definition allNodes (c : Cluster) : list nat := nodeOrdinal <$> members c.

(** Modelled from the spec: one step of the cluster under upgrade to
    [desired].  The orchestrator tears down a node that runs an old version
    once the nodes in service are as many as desired, that is, once the
    node torn down before is back and unsealed.  The scheduler brings up a
    node on the new version, sealed, as long as there are fewer of them
    than desired; the membership may so exceed the desired count
    "transiently during scale-up/upgrade", and the end-to-end test of an
    upgrade does wait for two sealed new nodes at once.  The external
    actor unseals a sealed node, which joins the standbys; the service
    promotes a standby when there is no active node. *)
Inductive step (desired : ClusterSpec) : Cluster → Cluster → Prop :=
| step_teardown c l1 n l2 :
    members c = l1 ++ n :: l2 →
    isOld desired n = true →
    nodes desired ≤ count isUnsealed (members c) →
    step desired c (mkCluster (l1 ++ l2) (nextOrdinal c))
| step_create c :
    count (isNew desired) (members c) < nodes desired →
    step desired c
      (mkCluster (members c ++ [mkNode (nextOrdinal c) (version desired) Sealed])
         (S (nextOrdinal c)))
| step_unseal c l1 n l2 :
    members c = l1 ++ n :: l2 →
    isSealed n = true →
    step desired c (mkCluster (l1 ++ setRole Standby n :: l2) (nextOrdinal c))
| step_promote c l1 n l2 :
    count isActive (members c) = 0 →
    members c = l1 ++ n :: l2 →
    isStandby n = true →
    step desired c (mkCluster (l1 ++ setRole Active n :: l2) (nextOrdinal c)).

(** Modelled from the spec: the states of the orchestrator.  The state is
    derived from what is observed: a torn-down node that has not
    reappeared, a sealed node, no active node; when nothing is awaited the
    machine is [Stable] while some node still runs an old version (the
    trigger of a replacement) and [Complete] once every member matches the
    desired version. *)
Inductive UpgradeState :=
| Stable
| AwaitingSealedReplacement
| AwaitingUnseal
| AwaitingPromotion
| Complete.

#[global] Instance UpgradeState_eq_dec : EqDecision UpgradeState.
Proof. solve_decision. Defined.

(** Modelled from the spec: the state, derived from the observed nodes. *)
Definition upgradeState (desired : ClusterSpec) (c : Cluster) : UpgradeState :=
  if bool_decide (length (members c) < nodes desired) then AwaitingSealedReplacement
  else if bool_decide (count isSealed (members c) ≠ 0) then AwaitingUnseal
  else if bool_decide (count isActive (members c) = 0) then AwaitingPromotion
  else if bool_decide (count (isOld desired) (members c) = 0) then Complete
  else Stable.

(** The first member that satisfies [p], with the members around it. *)
Fixpoint pick (p : Node → bool) (l : list Node)
  : option (list Node * Node * list Node) :=
  match l with
  | [] => None
  | n :: l =>
      if p n then Some ([], n, l)
      else match pick p l with
           | Some (l1, m, l2) => Some (n :: l1, m, l2)
           | None => None
           end
  end.

(** Modelled from the spec: the one-at-a-time schedule; in each state of
    the orchestrator the step awaited there is the one taken. *)
Definition next (desired : ClusterSpec) (c : Cluster) : option Cluster :=
  match upgradeState desired c with
  | AwaitingSealedReplacement =>
      Some (mkCluster
              (members c ++ [mkNode (nextOrdinal c) (version desired) Sealed])
              (S (nextOrdinal c)))
  | AwaitingUnseal =>
      match pick isSealed (members c) with
      | Some (l1, n, l2) =>
          Some (mkCluster (l1 ++ setRole Standby n :: l2) (nextOrdinal c))
      | None => None
      end
  | AwaitingPromotion =>
      match pick isStandby (members c) with
      | Some (l1, n, l2) =>
          Some (mkCluster (l1 ++ setRole Active n :: l2) (nextOrdinal c))
      | None => None
      end
  | Stable =>
      match pick (isOld desired) (members c) with
      | Some (l1, n, l2) => Some (mkCluster (l1 ++ l2) (nextOrdinal c))
      | None => None
      end
  | Complete => None
  end.

Fixpoint run (desired : ClusterSpec) (fuel : nat) (c : Cluster) : Cluster :=
  match fuel with
  | 0 => c
  | S fuel =>
      match next desired c with
      | Some c1 => run desired fuel c1
      | None => c
      end
  end.

(** The cluster an upgrade starts from: as many nodes as desired, all
    unsealed, at most one of them active. *)
Definition initial (desired : ClusterSpec) (c : Cluster) : Prop :=
  length (members c) = nodes desired ∧
  count isSealed (members c) = 0 ∧ count isActive (members c) ≤ 1.

(** The upgrade is over: as many nodes as desired are there, all unsealed
    and on the new version, one of them active. *)
Definition upgraded (desired : ClusterSpec) (c : Cluster) : Prop :=
  length (members c) = nodes desired ∧
  count isSealed (members c) = 0 ∧ count (isOld desired) (members c) = 0 ∧
  count isActive (members c) = 1.

(** The nodes torn down whose place in service is not filled yet. *)
Definition outOfService (desired : ClusterSpec) (c : Cluster) : nat :=
  nodes desired - count isUnsealed (members c).

(** What is left to do. *)
Definition measure (desired : ClusterSpec) (c : Cluster) : nat :=
  2 * (nodes desired - count (isNew desired) (members c))
  + count isSealed (members c)
  + 2 * count (isOld desired) (members c)
  + (if bool_decide (count isActive (members c) = 0) then 1 else 0).

Definition invariant (desired : ClusterSpec) (c : Cluster) : Prop :=
  nodes desired ≤ count isUnsealed (members c) + 1 ∧
  count isActive (members c) ≤ 1 ∧
  count (isNew desired) (members c) ≤ nodes desired.

(** The scenario of the end-to-end test: two nodes on 0.9.1-0, one active
    and one standby, upgraded to 0.9.1-1. *)
Definition newVersion : ClusterSpec := mkSpec "0.9.1-1" 2.

Definition twoNodes : Cluster :=
  mkCluster [mkNode 0 "0.9.1-0" Active; mkNode 1 "0.9.1-0" Standby] 2.

(** The standby torn down and two new nodes up, both sealed, beside the
    old active node: what the test waits for before it unseals them. *)
Definition twoSealed : Cluster :=
  mkCluster [mkNode 0 "0.9.1-0" Active;
             mkNode 2 "0.9.1-1" Sealed; mkNode 3 "0.9.1-1" Sealed] 4.
End Upgrade.

(** * The cluster utilities of the end-to-end tests
      (test/e2e/e2eutil/cluster_util.go) *)

Module E2EUtil.

(** api.VaultService as the utilities use it: beside the TLS policy, the
    fields of the spec they write, [Nodes] (an int32) and [Version]. *)
Record VaultServiceSpec := {
  Nodes : Z;
  Version : string;
  TLS : option TLSPolicy
}.

Record VaultService := {
  VaultMeta : ObjectMeta;
  Spec : VaultServiceSpec
}.

#[global] Instance StaticTLS_eq_dec : EqDecision StaticTLS.
Proof. solve_decision. Defined.
#[global] Instance TLSPolicy_eq_dec : EqDecision TLSPolicy.
Proof. solve_decision. Defined.
#[global] Instance VaultServiceSpec_eq_dec : EqDecision VaultServiceSpec.
Proof. solve_decision. Defined.
#[global] Instance VaultService_eq_dec : EqDecision VaultService.
Proof. solve_decision. Defined.

(** Go's conversion [int32(size)] of an [int]: the low 32 bits, signed. *)
Definition int32 (n : Z) : Z := ((n + 2 ^ 31) mod 2 ^ 32 - 2 ^ 31)%Z.

(** [vault.Spec.Nodes = nodes] and [vault.Spec.Version = version] *)
Definition setNodes (vault : VaultService) (nodes : Z) : VaultService :=
  {| VaultMeta := VaultMeta vault;
     Spec := {| Nodes := nodes;
                Version := Version (Spec vault);
                TLS := TLS (Spec vault) |} |}.

Definition setVersion (vault : VaultService) (version : string) : VaultService :=
  {| VaultMeta := VaultMeta vault;
     Spec := {| Nodes := Nodes (Spec vault);
                Version := version;
                TLS := TLS (Spec vault) |} |}.

(** An argument of a log line. *)
Inductive Arg := ArgString (s : string) | ArgInt (n : Z).

(** What a test run shows: the calls of the client for the custom
    resource, and the lines logged (by t.Logf, or with a time stamp by
    LogfWithTimestamp), as format and arguments. *)
Inductive Observation :=
| Called (verb : Verb) (namespace name : string) (err : option error)
| Logged (timestamped : bool) (format : string) (args : list Arg).

#[global] Instance Arg_eq_dec : EqDecision Arg.
Proof. solve_decision. Defined.
#[global] Instance Observation_eq_dec : EqDecision Observation.
Proof. solve_decision. Defined.

(** The API server as the test sees it: the custom resources by
    namespace and name, the faults the next calls will meet, and what was
    observed so far. *)
Record API := mkAPI {
  vaultServices : gmap (string * string) VaultService;
  pending : list (option Fault);
  observed : list Observation
}.

Definition T (A : Type) : Type := API → A * API.

#[global] Instance T_ret : MRet T := λ A a w, (a, w).
#[global] Instance T_bind : MBind T := λ A B f m w, let (a, w1) := m w in f a w1.

Definition observe (o : Observation) : T unit := λ w,
  (tt, mkAPI (vaultServices w) (pending w) (observed w ++ [o])).

Definition nextPending : T (option Fault) := λ w,
  match pending w with
  | [] => (None, w)
  | f :: fs => (f, mkAPI (vaultServices w) fs (observed w))
  end.

Definition lookupCR (namespace name : string) : T (option VaultService) := λ w,
  (vaultServices w !! (namespace, name), w).

Definition storeCR (namespace name : string) (v : option VaultService) : T unit :=
  λ w,
  (tt, mkAPI (match v with
              | Some v => <[(namespace, name) := v]> (vaultServices w)
              | None => delete (namespace, name) (vaultServices w)
              end) (pending w) (observed w)).

(** apierrors.NewNotFound / NewAlreadyExists for the custom resource *)
Definition notFound (name : string) : error :=
  StatusError StatusReasonNotFound ("vaultservices '" +:+ name +:+ "' not found").

Definition alreadyExists (name : string) : error :=
  StatusError StatusReasonAlreadyExists
    ("vaultservices '" +:+ name +:+ "' already exists").

(** A call of the client: a fault, if one is due, fails it with no
    effect. *)
Definition call {A} (verb : Verb) (namespace name : string)
    (body : T (error + A)) : T (error + A) :=
  f ← nextPending;
  r ← match f with
      | Some f => mret (inl (faultError f))
      | None => body
      end;
  _ ← observe (Called verb namespace name (errOf r));
  mret r.

(** crClient.VaultV1alpha1().VaultServices(namespace): Get, Create,
    Update, Delete. *)
Definition Get (namespace name : string) : T (error + VaultService) :=
  call VerbGet namespace name (
    o ← lookupCR namespace name;
    match o with
    | Some v => mret (inr v)
    | None => mret (inl (notFound name))
    end).

Definition Create (namespace : string) (vs : VaultService)
  : T (error + VaultService) :=
  let name := Name (VaultMeta vs) in
  call VerbCreate namespace name (
    o ← lookupCR namespace name;
    match o with
    | Some _ => mret (inl (alreadyExists name))
    | None => _ ← storeCR namespace name (Some vs); mret (inr vs)
    end).

Definition Update (namespace : string) (vs : VaultService)
  : T (error + VaultService) :=
  let name := Name (VaultMeta vs) in
  call VerbUpdate namespace name (
    o ← lookupCR namespace name;
    match o with
    | None => mret (inl (notFound name))
    | Some _ => _ ← storeCR namespace name (Some vs); mret (inr vs)
    end).

Definition Delete (namespace name : string) : T (error + unit) :=
  call VerbDelete namespace name (
    o ← lookupCR namespace name;
    match o with
    | None => mret (inl (notFound name))
    | Some _ => _ ← storeCR namespace name None; mret (inr tt)
    end).

(** t.Logf and LogfWithTimestamp *)
Definition Logf (format : string) (args : list Arg) : T unit :=
  observe (Logged false format args).

Definition LogfWithTimestamp (format : string) (args : list Arg) : T unit :=
  observe (Logged true format args).

(** CreateCluster creates a vault CR with the desired spec *)
Definition CreateCluster (vs : VaultService) : T (error + VaultService) :=
  r ← Create (Namespace (VaultMeta vs)) vs;
  match r with
  | inl err => mret (inl (Errorf "failed to create CR: " err))
  | inr vault =>
      _ ← LogfWithTimestamp "created vault cluster: %s"
            [ArgString (Name (VaultMeta vault))];
      mret (inr vault)
  end.

(** ResizeCluster updates the Nodes field of the vault CR *)
Definition ResizeCluster (vs : VaultService) (size : Z)
  : T (error + VaultService) :=
  r ← Get (Namespace (VaultMeta vs)) (Name (VaultMeta vs));
  match r with
  | inl err => mret (inl (Errorf "failed to get CR: " err))
  | inr vault =>
      let vault := setNodes vault (int32 size) in
      r ← Update (Namespace (VaultMeta vs)) vault;
      match r with
      | inl err => mret (inl (Errorf "failed to update CR: " err))
      | inr vault =>
          _ ← LogfWithTimestamp "updated vault cluster(%v) to size(%v)"
                [ArgString (Name (VaultMeta vault)); ArgInt size];
          mret (inr vault)
      end
  end.

(** UpdateVersion updates the Version field of the vault CR *)
Definition UpdateVersion (vs : VaultService) (version : string)
  : T (error + VaultService) :=
  r ← Get (Namespace (VaultMeta vs)) (Name (VaultMeta vs));
  match r with
  | inl err => mret (inl (Errorf "failed to get CR: " err))
  | inr vault =>
      let vault := setVersion vault version in
      r ← Update (Namespace (VaultMeta vs)) vault;
      match r with
      | inl err => mret (inl (Errorf "failed to update CR: " err))
      | inr vault =>
          _ ← LogfWithTimestamp "updated vault cluster(%v) to version(%v)"
                [ArgString (Name (VaultMeta vault)); ArgString version];
          mret (inr vault)
      end
  end.

(** DeleteCluster deletes the vault CR specified by cluster spec *)
Definition DeleteCluster (vs : VaultService) : T (option error) :=
  _ ← Logf "deleting vault cluster: %v" [ArgString (Name (VaultMeta vs))];
  r ← Delete (Namespace (VaultMeta vs)) (Name (VaultMeta vs));
  match r with
  | inl err => mret (Some (Errorf "failed to delete CR: " err))
  | inr _ => mret None
  end.

(** ** The vocabulary of the statements *)

(** The key a custom resource is stored under. *)
Definition keyOf (vs : VaultService) : string * string :=
  (Namespace (VaultMeta vs), Name (VaultMeta vs)).

(** No fault is due for the next [n] calls. *)
Definition calm (n : nat) (w : API) : Prop :=
  Forall (λ f, f = None) (take n (pending w)).

(** The fault the next call meets, and the API server after a call that
    leaves the custom resources as [st]. *)
Definition due (w : API) : option Fault :=
  match pending w with
  | Some f :: _ => Some f
  | _ => None
  end.

Definition after (w : API) (st : gmap (string * string) VaultService)
    (o : Observation) : API :=
  mkAPI st (tail (pending w)) (observed w ++ [o]).

(** The API server after a line was logged. *)
Definition logged (w : API) (o : Observation) : API :=
  mkAPI (vaultServices w) (pending w) (observed w ++ [o]).

(** What Get and Update return. *)
Definition getOutcome (namespace name : string) (w : API) : error + VaultService :=
  match due w with
  | Some f => inl (faultError f)
  | None =>
      match vaultServices w !! (namespace, name) with
      | Some v => inr v
      | None => inl (notFound name)
      end
  end.

Definition updateOutcome (namespace : string) (vs : VaultService) (w : API)
  : error + VaultService :=
  match due w with
  | Some f => inl (faultError f)
  | None =>
      match vaultServices w !! (namespace, Name (VaultMeta vs)) with
      | Some _ => inr vs
      | None => inl (notFound (Name (VaultMeta vs)))
      end
  end.

(** The calls observed, without the log lines, and the lines logged. *)
Definition isCall (o : Observation) : bool :=
  match o with Called _ _ _ _ => true | Logged _ _ _ => false end.

Definition callsOf (os : list Observation) : list Observation :=
  List.filter isCall os.

Definition linesOf (os : list Observation) : list Observation :=
  List.filter (λ o, negb (isCall o)) os.

(** The two utilities that write a field, as one: [change] is the field
    written, [line] the line logged. *)
Definition writeField (vs : VaultService) (change : VaultService → VaultService)
    (line : VaultService → Observation) : T (error + VaultService) :=
  r ← Get (Namespace (VaultMeta vs)) (Name (VaultMeta vs));
  match r with
  | inl err => mret (inl (Errorf "failed to get CR: " err))
  | inr vault =>
      let vault := change vault in
      r ← Update (Namespace (VaultMeta vs)) vault;
      match r with
      | inl err => mret (inl (Errorf "failed to update CR: " err))
      | inr vault => _ ← observe (line vault); mret (inr vault)
      end
  end.

(** The value of an int32. *)
Definition fitsInt32 (n : Z) : Prop := (- 2 ^ 31 ≤ n < 2 ^ 31)%Z.

(** ** A cluster to run the utilities on *)

Definition testVault (nodes : Z) (version : string) : VaultService :=
  {| VaultMeta := {| Name := "test-vault"; Namespace := "e2e"; UID := "";
                     Labels := ∅; OwnerReferences := [] |};
     Spec := {| Nodes := nodes; Version := version; TLS := None |} |}.

Definition noCluster : API := mkAPI ∅ [] [].

Definition oneCluster : API := (CreateCluster (testVault 1 "0.9.1-0") noCluster).2.
End E2EUtil.

(** * Proofs *)

(** ** Running the primitives *)

Ltac run_prim :=
  unfold apiCall, lookupSecret, storeSecret, nextFault, nextKey, emit,
    mbind, M_bind, mret, M_ret, advance, dueFault; simpl.

Lemma Get_run namespace name w :
  Get namespace name w =
    (getResult namespace name w,
     advance w (secrets w)
       (APICall VerbGet namespace name (errOf (getResult namespace name w)))).
Proof.
  unfold Get, getResult. run_prim.
  destruct w as [st [|[f|] fs] en tr]; simpl;
    try destruct (st !! (namespace, name)); reflexivity.
Qed.

Lemma Create_run namespace se w :
  Create namespace se w =
    (createResult namespace se w,
     advance w
       (match createResult namespace se w with
        | inr se' => <[(namespace, Name (SecretMeta se)) := se']> (secrets w)
        | inl _ => secrets w
        end)
       (APICall VerbCreate namespace (Name (SecretMeta se))
          (errOf (createResult namespace se w)))).
Proof.
  unfold Create, createResult. run_prim.
  destruct w as [st [|[f|] fs] en tr]; simpl;
    try destruct (st !! (namespace, Name (SecretMeta se))); reflexivity.
Qed.

Lemma Delete_run namespace name w :
  Delete namespace name w =
    (deleteResult namespace name w,
     advance w
       (match deleteResult namespace name w with
        | inr _ => delete (namespace, name) (secrets w)
        | inl _ => secrets w
        end)
       (APICall VerbDelete namespace name (errOf (deleteResult namespace name w)))).
Proof.
  unfold Delete, deleteResult. run_prim.
  destruct w as [st [|[f|] fs] en tr]; simpl;
    try destruct (st !! (namespace, name)); reflexivity.
Qed.

Lemma NewPrivateKey_run w :
  NewPrivateKey w =
    (match nextKeyOf w with Some k => inr k | None => inl randError end,
     drawn w).
Proof.
  unfold NewPrivateKey, nextKeyOf, drawn. run_prim.
  destruct w as [st fl [|[k|] ks] tr]; reflexivity.
Qed.

(** ** Reasoning about runs *)

Lemma wp_ret {A} (a : A) w Q : Q a w → wp (mret a) w Q.
Proof. done. Qed.

Lemma wp_bind {A B} (m : M A) (k : A → M B) w Q :
  wp m w (λ a w1, wp (k a) w1 Q) → wp (m ≫= k) w Q.
Proof.
  unfold wp. change ((m ≫= k) w) with (let (a, w1) := m w in k a w1).
  by destruct (m w).
Qed.

Lemma wp_orReturn {A} (m : M (error + A)) k w Q :
  wp m w (λ r w1, match r with
                  | inl err => Q (Some err) w1
                  | inr x => wp (k x) w1 Q
                  end) →
  wp (orReturn m k) w Q.
Proof.
  intros Hm. unfold orReturn. apply wp_bind. unfold wp in *.
  by destruct (m w) as [[err|x] w1].
Qed.

Lemma wp_run {A} (m : M A) w Q r w1 : wp m w Q → m w = (r, w1) → Q r w1.
Proof. unfold wp. intros HQ E. by rewrite E in HQ. Qed.

Lemma wp_NewPrivateKey w Q :
  (∀ w1, w1 = drawn w →
     Q (match nextKeyOf w with Some k => inr k | None => inl randError end) w1) →
  wp NewPrivateKey w Q.
Proof.
  intros HQ. unfold wp. rewrite NewPrivateKey_run. simpl. by apply HQ.
Qed.

Lemma wp_newCACert w Q :
  (∀ w1, w1 = drawn w →
     Q (match nextKeyOf w with
        | Some k => inr (k, caCertFor k)
        | None => inl randError
        end) w1) →
  wp newCACert w Q.
Proof.
  intros HQ. unfold newCACert. apply wp_bind, wp_NewPrivateKey.
  intros w1 ->. specialize (HQ _ eq_refl).
  destruct (nextKeyOf w); by apply wp_ret.
Qed.

Lemma wp_Get namespace name w Q :
  (∀ w1, w1 = advance w (secrets w)
                (APICall VerbGet namespace name (errOf (getResult namespace name w))) →
     Q (getResult namespace name w) w1) →
  wp (Get namespace name) w Q.
Proof. intros HQ. unfold wp. rewrite Get_run. simpl. by apply HQ. Qed.

Lemma faultError_not_AlreadyExists f : IsAlreadyExists (faultError f) = false.
Proof. by destruct f. Qed.

Lemma faultError_not_NotFound f : IsNotFound (faultError f) = false.
Proof. by destruct f. Qed.

Section Runs.
Context `{Helpers}.

Lemma wp_newTLSSecret vr caKey caCrt commonName secretName addrs fieldMap w Q :
  (∀ w1, w1 = drawn w →
     Q (match nextKeyOf w with
        | Some k => inr (tlsSecretFor vr caKey caCrt commonName secretName
                           addrs fieldMap k)
        | None => inl (Errorf "new TLS secret failed: " randError)
        end) w1) →
  wp (newTLSSecret vr caKey caCrt commonName secretName addrs fieldMap) w Q.
Proof.
  intros HQ. unfold newTLSSecret, newKeyAndCert.
  apply wp_bind, wp_bind, wp_NewPrivateKey.
  intros w1 ->. specialize (HQ _ eq_refl).
  destruct (nextKeyOf w); simpl; by do 2 apply wp_ret.
Qed.

Lemma wp_createOrReturn namespace se k w Q :
  (∀ w1 f, dueFault w = Some f →
     w1 = advance w (secrets w)
            (APICall VerbCreate namespace (Name (SecretMeta se)) (Some (faultError f))) →
     Q (Some (faultError f)) w1) →
  (∀ w1, dueFault w = None →
     w1 = advance w
            (createIfAbsent (namespace, Name (SecretMeta se))
               (inNamespace namespace se) (secrets w))
            (APICall VerbCreate namespace (Name (SecretMeta se))
               (errOf (createResult namespace se w))) →
     wp k w1 Q) →
  wp (createOrReturn namespace se k) w Q.
Proof.
  intros Hfault Hok. unfold createOrReturn. apply wp_bind.
  unfold wp at 1. rewrite Create_run. simpl.
  unfold createResult, createIfAbsent in *.
  destruct (dueFault w) as [f|] eqn:Hdue.
  - unfold failedWith. rewrite faultError_not_AlreadyExists. simpl.
    exact (Hfault _ f eq_refl eq_refl).
  - specialize (Hok _ eq_refl eq_refl).
    by destruct (secrets w !! (namespace, Name (SecretMeta se))).
Qed.

Lemma wp_deleteOrReturn namespace name k w Q :
  (∀ w1 f, dueFault w = Some f →
     w1 = advance w (secrets w)
            (APICall VerbDelete namespace name (Some (faultError f))) →
     Q (Some (Errorf ("delete secret (" +:+ name +:+ ") failed: ") (faultError f))) w1) →
  (∀ w1, dueFault w = None →
     w1 = advance w (delete (namespace, name) (secrets w))
            (APICall VerbDelete namespace name
               (errOf (deleteResult namespace name w))) →
     wp k w1 Q) →
  wp (deleteOrReturn namespace name k) w Q.
Proof.
  intros Hfault Hok. unfold deleteOrReturn. apply wp_bind.
  unfold wp at 1. rewrite Delete_run. simpl.
  unfold deleteResult in *.
  destruct (dueFault w) as [f|] eqn:Hdue.
  - unfold failedWith. rewrite faultError_not_NotFound. simpl.
    exact (Hfault _ f eq_refl eq_refl).
  - specialize (Hok _ eq_refl eq_refl).
    destruct (secrets w !! (namespace, name)) eqn:Hlk; simpl; [done|].
    by rewrite delete_id in Hok.
Qed.
End Runs.

(** ** What the prepare operations may store *)

Section Bundles.
Context `{Helpers}.

Lemma wp_any {A} (m : M A) w Q :
  (∀ r w1, m w = (r, w1) → Q r w1) → wp m w Q.
Proof. intros HQ. unfold wp. apply HQ. by destruct (m w). Qed.

Lemma newTLSSecret_drawn vr caKey caCrt commonName secretName addrs fieldMap w r w1 :
  newTLSSecret vr caKey caCrt commonName secretName addrs fieldMap w = (r, w1) →
  w1 = drawn w ∧
  r = match nextKeyOf w with
      | Some k => inr (tlsSecretFor vr caKey caCrt commonName secretName
                         addrs fieldMap k)
      | None => inl (Errorf "new TLS secret failed: " randError)
      end.
Proof.
  intros Hrun.
  refine (wp_run _ _ (λ r w1, w1 = drawn w ∧ r = _) _ _ _ Hrun).
  apply wp_newTLSSecret. by intros ? ->.
Qed.

(** *** Invariants of the creation phases *)

Section Stable.
Variables (vr : VaultService) (caKey : PrivateKey) (caCrt : Certificate).
Variable Allowed : Secret → Prop.
Variable I : World → Prop.

Hypothesis I_drawn : ∀ w, I w → I (drawn w).
Hypothesis I_fault : ∀ w name f,
  I w → dueFault w = Some f →
  I (advance w (secrets w)
       (APICall VerbCreate (vrNamespace vr) name (Some (faultError f)))).
Hypothesis I_create : ∀ w se,
  Allowed se → I w → dueFault w = None →
  I (advance w
       (createIfAbsent (vrNamespace vr, Name (SecretMeta se)) (stored vr se)
          (secrets w))
       (APICall VerbCreate (vrNamespace vr) (Name (SecretMeta se))
          (errOf (createResult (vrNamespace vr)
                    (AddOwnerRefToObject se (AsOwner vr)) w)))).

Lemma wp_create_stable se k w (Q : option error → World → Prop) :
  Allowed se → I w →
  (∀ err w1, I w1 → Q err w1) →
  (∀ w1, I w1 → wp k w1 Q) →
  wp (createOrReturn (vrNamespace vr) (AddOwnerRefToObject se (AsOwner vr)) k) w Q.
Proof.
  intros Hse Hw Hleaf Hk. apply wp_createOrReturn.
  - intros w1 f Hf ->. apply Hleaf. by apply I_fault.
  - intros w1 Hf ->. apply Hk. by apply (I_create w se).
Qed.

Lemma wp_new_stable (m : M (error + Secret)) k w (Q : option error → World → Prop) :
  (∀ w r w1, m w = (r, w1) → w1 = drawn w) →
  (∀ w w1 se, m w = (inr se, w1) → Allowed se) →
  I w →
  (∀ err w1, I w1 → Q err w1) →
  (∀ se w1, Allowed se → I w1 → wp (k se) w1 Q) →
  wp (orReturn m k) w Q.
Proof.
  intros Hdrawn Hallowed Hw Hleaf Hk. apply wp_orReturn, wp_any.
  intros r w1 Hrun. pose proof (Hdrawn _ _ _ Hrun) as ->.
  destruct r as [err|se].
  - by apply Hleaf, I_drawn.
  - apply Hk; [by eapply Hallowed | by apply I_drawn].
Qed.
End Stable.

Lemma new_drawn_etcd_client vr caKey caCrt w r w1 :
  newEtcdClientTLSSecret vr caKey caCrt w = (r, w1) → w1 = drawn w.
Proof. intros Hrun. by apply newTLSSecret_drawn in Hrun as [-> _]. Qed.

Lemma new_drawn_etcd_server vr caKey caCrt w r w1 :
  newEtcdServerTLSSecret vr caKey caCrt w = (r, w1) → w1 = drawn w.
Proof. intros Hrun. by apply newTLSSecret_drawn in Hrun as [-> _]. Qed.

Lemma new_drawn_etcd_peer vr caKey caCrt w r w1 :
  newEtcdPeerTLSSecret vr caKey caCrt w = (r, w1) → w1 = drawn w.
Proof. intros Hrun. by apply newTLSSecret_drawn in Hrun as [-> _]. Qed.

Lemma new_drawn_vault_server vr caKey caCrt w r w1 :
  newVaultServerTLSSecret vr caKey caCrt w = (r, w1) → w1 = drawn w.
Proof. intros Hrun. by apply newTLSSecret_drawn in Hrun as [-> _]. Qed.

(** Whatever is preserved by a read of crypto/rand, by a failed create and
    by a create-if-absent of one of the cluster's bundles is preserved by
    the creation phases. *)
Lemma createEtcdTLSSecrets_stable vr caKey caCrt (I : World → Prop) w :
  (∀ w, I w → I (drawn w)) →
  (∀ w name f, I w → dueFault w = Some f →
     I (advance w (secrets w)
          (APICall VerbCreate (vrNamespace vr) name (Some (faultError f))))) →
  (∀ w se, EtcdBundle vr caKey caCrt se → I w → dueFault w = None →
     I (advance w
          (createIfAbsent (vrNamespace vr, Name (SecretMeta se)) (stored vr se)
             (secrets w))
          (APICall VerbCreate (vrNamespace vr) (Name (SecretMeta se))
             (errOf (createResult (vrNamespace vr)
                       (AddOwnerRefToObject se (AsOwner vr)) w))))) →
  I w →
  wp (createEtcdTLSSecrets vr caKey caCrt) w (λ _ w1, I w1).
Proof.
  intros Hd Hf Hc Hw. unfold createEtcdTLSSecrets.
  eapply (wp_new_stable (EtcdBundle vr caKey caCrt) I Hd);
    [apply new_drawn_etcd_client | intros; by eapply EtcdClientBundle | done | done |].
  intros se1 w1 Hse1 Hw1. simpl.
  apply (wp_create_stable vr (EtcdBundle vr caKey caCrt) I Hf Hc); [done..|].
  intros w2 Hw2.
  eapply (wp_new_stable (EtcdBundle vr caKey caCrt) I Hd);
    [apply new_drawn_etcd_server | intros; by eapply EtcdServerBundle | done | done |].
  intros se2 w3 Hse2 Hw3. simpl.
  apply (wp_create_stable vr (EtcdBundle vr caKey caCrt) I Hf Hc); [done..|].
  intros w4 Hw4.
  eapply (wp_new_stable (EtcdBundle vr caKey caCrt) I Hd);
    [apply new_drawn_etcd_peer | intros; by eapply EtcdPeerBundle | done | done |].
  intros se3 w5 Hse3 Hw5. simpl.
  apply (wp_create_stable vr (EtcdBundle vr caKey caCrt) I Hf Hc); [done..|].
  intros w6 Hw6. by apply wp_ret.
Qed.

Lemma createDefaultVaultTLSSecrets_stable vr caKey caCrt (I : World → Prop) w :
  (∀ w, I w → I (drawn w)) →
  (∀ w name f, I w → dueFault w = Some f →
     I (advance w (secrets w)
          (APICall VerbCreate (vrNamespace vr) name (Some (faultError f))))) →
  (∀ w se, VaultBundle vr caKey caCrt se → I w → dueFault w = None →
     I (advance w
          (createIfAbsent (vrNamespace vr, Name (SecretMeta se)) (stored vr se)
             (secrets w))
          (APICall VerbCreate (vrNamespace vr) (Name (SecretMeta se))
             (errOf (createResult (vrNamespace vr)
                       (AddOwnerRefToObject se (AsOwner vr)) w))))) →
  I w →
  wp (createDefaultVaultTLSSecrets vr caKey caCrt) w (λ _ w1, I w1).
Proof.
  intros Hd Hf Hc Hw. unfold createDefaultVaultTLSSecrets.
  eapply (wp_new_stable (VaultBundle vr caKey caCrt) I Hd);
    [apply new_drawn_vault_server | intros; by eapply VaultServerBundle | done | done |].
  intros se1 w1 Hse1 Hw1. simpl.
  apply (wp_create_stable vr (VaultBundle vr caKey caCrt) I Hf Hc); [done..|].
  intros w2 Hw2.
  apply (wp_create_stable vr (VaultBundle vr caKey caCrt) I Hf Hc);
    [apply VaultClientBundle | done..|].
  intros w3 Hw3. by apply wp_ret.
Qed.
End Bundles.

(** ** Growth of the store *)

Lemma grows_refl P w : grows P w w.
Proof.
  split_and!; [done | congruence |].
  exists []. by rewrite app_nil_r.
Qed.

Lemma grows_drawn P w0 w : grows P w0 w → grows P w0 (drawn w).
Proof.
  intros (Hkeep & Hnew & evs & Htr & Hq). split_and!; [done..|].
  exists (evs ++ [KeyGenerated (mjoin (head (entropy w)))]). simpl.
  rewrite Htr, app_assoc. split; [done|].
  apply Forall_app. split; [done|]. by constructor.
Qed.

Lemma grows_call P w0 w ev :
  quiet ev → grows P w0 w → grows P w0 (advance w (secrets w) ev).
Proof.
  intros Hev (Hkeep & Hnew & evs & Htr & Hq). split_and!; [done..|].
  exists (evs ++ [ev]). simpl. rewrite Htr, app_assoc. split; [done|].
  apply Forall_app. split; [done|]. by constructor.
Qed.

Lemma grows_create P w0 w k se ev :
  quiet ev → P k se → grows P w0 w →
  grows P w0 (advance w (createIfAbsent k se (secrets w)) ev).
Proof.
  intros Hev HP (Hkeep & Hnew & evs & Htr & Hq).
  unfold createIfAbsent. split_and!; simpl.
  - intros k' s Hk'. apply Hkeep in Hk'.
    destruct (secrets w !! k) eqn:Hk; [done|].
    destruct (decide (k = k')) as [->|Hne]; [congruence|].
    by rewrite lookup_insert_ne.
  - intros k' s Hk0 Hk'.
    destruct (secrets w !! k) eqn:Hk; [by eapply Hnew|].
    destruct (decide (k = k')) as [->|Hne].
    + rewrite lookup_insert_eq in Hk'. by simplify_eq.
    + rewrite lookup_insert_ne in Hk' by done. by eapply Hnew.
  - exists (evs ++ [ev]). rewrite Htr, app_assoc. split; [done|].
    apply Forall_app. split; [done|]. by constructor.
Qed.

Lemma grows_weaken (P P' : string * string → Secret → Prop) w0 w :
  (∀ k s, P k s → P' k s) → grows P w0 w → grows P' w0 w.
Proof. intros HP (Hkeep & Hnew & Hev). split_and!; eauto. Qed.

Section Issued.
Context `{Helpers}.

Lemma createEtcdTLSSecrets_grows vr caKey caCrt w0 w :
  grows (issued vr (EtcdBundle vr caKey caCrt)) w0 w →
  wp (createEtcdTLSSecrets vr caKey caCrt) w
     (λ _ w1, grows (issued vr (EtcdBundle vr caKey caCrt)) w0 w1).
Proof.
  apply (createEtcdTLSSecrets_stable vr caKey caCrt
           (grows (issued vr (EtcdBundle vr caKey caCrt)) w0)).
  - apply grows_drawn.
  - intros w1 name f Hg _. by apply grows_call.
  - intros w1 se Hse Hg _. apply grows_create; [done| |done]. by exists se.
Qed.

Lemma createDefaultVaultTLSSecrets_grows vr caKey caCrt w0 w :
  grows (issued vr (VaultBundle vr caKey caCrt)) w0 w →
  wp (createDefaultVaultTLSSecrets vr caKey caCrt) w
     (λ _ w1, grows (issued vr (VaultBundle vr caKey caCrt)) w0 w1).
Proof.
  apply (createDefaultVaultTLSSecrets_stable vr caKey caCrt
           (grows (issued vr (VaultBundle vr caKey caCrt)) w0)).
  - apply grows_drawn.
  - intros w1 name f Hg _. by apply grows_call.
  - intros w1 se Hse Hg _. apply grows_create; [done| |done]. by exists se.
Qed.

(** Each prepare operation draws at most one CA, and all it stores is
    built under that CA. *)
Lemma prepareEtcdTLSSecrets_grows vr w :
  wp (prepareEtcdTLSSecrets vr) w
     (λ _ w1, ∃ caKey,
        grows (issued vr (EtcdBundle vr caKey (caCertFor caKey))) w w1).
Proof.
  unfold prepareEtcdTLSSecrets. apply wp_bind, wp_bind, wp_Get.
  intros w1 Hw1.
  assert (∀ caKey, grows (issued vr (EtcdBundle vr caKey (caCertFor caKey))) w w1)
    as Hg1 by (intros; subst w1; apply grows_call, grows_refl; done).
  clear Hw1. set (dummy := {| keyMaterial := 0 |}).
  destruct (getResult _ _ w) as [err|se].
  2:{ do 2 apply wp_ret. by exists dummy. }
  destruct (negb (IsNotFound err)).
  { do 2 apply wp_ret. by exists dummy. }
  apply wp_orReturn, wp_newCACert. intros w2 ->.
  destruct (nextKeyOf w1) as [caKey|].
  2:{ apply wp_ret. exists dummy. apply grows_drawn, Hg1. }
  apply wp_any. intros r w3 Hrun.
  apply wp_ret. exists caKey.
  refine (wp_run _ _ _ _ _ (createEtcdTLSSecrets_grows vr caKey _ w _ _) Hrun).
  apply grows_drawn, Hg1.
Qed.

Lemma issueDefaultVaultTLSSecrets_grows vr w0 w :
  (∀ caKey, grows (issued vr (VaultBundle vr caKey (caCertFor caKey))) w0 w) →
  wp (issueDefaultVaultTLSSecrets vr) w
     (λ _ w1, ∃ caKey,
        grows (issued vr (VaultBundle vr caKey (caCertFor caKey))) w0 w1).
Proof.
  intros Hg. unfold issueDefaultVaultTLSSecrets.
  apply wp_orReturn, wp_newCACert. intros w2 ->.
  destruct (nextKeyOf w) as [caKey|].
  2:{ exists {| keyMaterial := 0 |}. apply grows_drawn, Hg. }
  apply wp_any. intros r w3 Hrun. exists caKey.
  refine (wp_run _ _ _ _ _ (createDefaultVaultTLSSecrets_grows vr caKey _ w0 _ _) Hrun).
  apply grows_drawn, Hg.
Qed.

Lemma prepareDefaultVaultTLSSecrets_grows vr w :
  wp (prepareDefaultVaultTLSSecrets vr) w
     (λ _ w1, ∃ caKey,
        grows (issued vr (VaultBundle vr caKey (caCertFor caKey))) w w1).
Proof.
  unfold prepareDefaultVaultTLSSecrets.
  set (dummy := {| keyMaterial := 0 |}).
  destruct (IsTLSConfigured _).
  - destruct (specServerSecret vr) as [serverSecret|].
    2:{ apply wp_ret. exists dummy. apply grows_refl. }
    apply wp_bind, wp_Get. intros w1 Hw1.
    assert (∀ caKey, grows (issued vr (VaultBundle vr caKey (caCertFor caKey))) w w1)
      as Hg1 by (intros; subst w1; apply grows_call, grows_refl; done).
    clear Hw1.
    destruct (getResult _ _ w) as [err|se].
    2:{ apply wp_ret. by exists dummy. }
    destruct (negb (IsNotFound err)).
    { apply wp_ret. by exists dummy. }
    apply wp_bind. eapply wp_any. intros r w2 Hrun. apply wp_ret.
    exact (wp_run _ _ _ _ _ (issueDefaultVaultTLSSecrets_grows vr w w1 Hg1) Hrun).
  - apply wp_bind. eapply wp_any. intros r w2 Hrun. apply wp_ret.
    refine (wp_run _ _ _ _ _ (issueDefaultVaultTLSSecrets_grows vr w w _) Hrun).
    intros. apply grows_refl.
Qed.
End Issued.

(** ** Reading a bundle back *)

Lemma ParseCertificate_Encode crt :
  ParseCertificatePEM (EncodeCertificatePEM crt) = Some crt.
Proof. reflexivity. Qed.

Lemma ParseCertificate_EncodeKey key :
  ParseCertificatePEM (EncodePrivateKeyPEM key) = None.
Proof. reflexivity. Qed.

Lemma ParsePrivateKey_Encode key :
  ParsePrivateKeyPEM (EncodePrivateKeyPEM key) = Some key.
Proof. reflexivity. Qed.

Lemma CheckSignatureFrom_caCertFor_self caKey :
  CheckSignatureFrom (caCertFor caKey) (caCertFor caKey) = true.
Proof.
  unfold CheckSignatureFrom. simpl. by rewrite !bool_decide_eq_true_2.
Qed.

Section BundleFacts.
Context `{Helpers}.

Lemma field_fieldNames_key k c a : field (fieldNames k c a) "key" = k.
Proof. reflexivity. Qed.
Lemma field_fieldNames_cert k c a : field (fieldNames k c a) "cert" = c.
Proof. reflexivity. Qed.
Lemma field_fieldNames_ca k c a : field (fieldNames k c a) "ca" = a.
Proof. reflexivity. Qed.

Lemma Data_tlsSecretFor vr caKey caCrt cn name addrs k c a key :
  Data (tlsSecretFor vr caKey caCrt cn name addrs (fieldNames k c a) key) =
    <[a := EncodeCertificatePEM caCrt]>
      (<[c := EncodeCertificatePEM (leafFor caKey caCrt cn addrs key)]>
         (<[k := EncodePrivateKeyPEM key]> ∅)).
Proof. reflexivity. Qed.

Lemma CheckSignatureFrom_leafFor caKey cn addrs key :
  CheckSignatureFrom (leafFor caKey (caCertFor caKey) cn addrs key)
    (caCertFor caKey) = true.
Proof.
  unfold CheckSignatureFrom. simpl. by rewrite !bool_decide_eq_true_2.
Qed.

Lemma certificates_tlsSecretFor vr caKey caCrt cn name addrs k c a key n crt :
  certificates (tlsSecretFor vr caKey caCrt cn name addrs (fieldNames k c a) key)
    !! n = Some crt →
  crt = caCrt ∨ crt = leafFor caKey caCrt cn addrs key.
Proof.
  unfold certificates. rewrite lookup_omap, Data_tlsSecretFor.
  destruct (decide (n = a)) as [->|?].
  { rewrite lookup_insert_eq. simpl. intros [= <-]. by left. }
  rewrite lookup_insert_ne by done.
  destruct (decide (n = c)) as [->|?].
  { rewrite lookup_insert_eq. simpl. intros [= <-]. by right. }
  rewrite lookup_insert_ne by done.
  destruct (decide (n = k)) as [->|?].
  { by rewrite lookup_insert_eq. }
  by rewrite lookup_insert_ne, lookup_empty.
Qed.

Lemma certificates_tlsSecretFor_ca vr caKey caCrt cn name addrs k c a key :
  certificates (tlsSecretFor vr caKey caCrt cn name addrs (fieldNames k c a) key)
    !! a = Some caCrt.
Proof.
  unfold certificates. rewrite lookup_omap, Data_tlsSecretFor.
  by rewrite lookup_insert_eq.
Qed.

Lemma certificates_stored vr se : certificates (stored vr se) = certificates se.
Proof. reflexivity. Qed.

Lemma validates_tlsSecretFor vr caKey cn name addrs k c a key :
  validates (stored vr (tlsSecretFor vr caKey (caCertFor caKey) cn name addrs
                          (fieldNames k c a) key)).
Proof.
  unfold validates. rewrite certificates_stored. apply map_Exists_lookup.
  exists a, (caCertFor caKey). split_and!.
  - apply certificates_tlsSecretFor_ca.
  - done.
  - apply CheckSignatureFrom_caCertFor_self.
  - apply map_Forall_lookup. intros n crt Hn.
    apply certificates_tlsSecretFor in Hn as [->| ->].
    + apply CheckSignatureFrom_caCertFor_self.
    + apply CheckSignatureFrom_leafFor.
Qed.

Lemma certificates_vault_client vr caCrt :
  certificates (stored vr (newVaultClientTLSSecret vr caCrt))
  = {[ CATLSCertName := caCrt ]}.
Proof.
  unfold certificates. simpl. by rewrite omap_insert, omap_empty.
Qed.

Lemma validates_vault_client vr caKey :
  validates (stored vr (newVaultClientTLSSecret vr (caCertFor caKey))).
Proof.
  unfold validates. rewrite certificates_vault_client.
  apply map_Exists_lookup. exists CATLSCertName, (caCertFor caKey).
  split_and!; [apply lookup_singleton_eq | done
              | apply CheckSignatureFrom_caCertFor_self |].
  apply map_Forall_singleton, CheckSignatureFrom_caCertFor_self.
Qed.

(** What the five constructors return. *)
Lemma newEtcdClientTLSSecret_inr vr caKey caCrt w se w1 :
  newEtcdClientTLSSecret vr caKey caCrt w = (inr se, w1) →
  ∃ key, se = tlsSecretFor vr caKey caCrt "etcd client"
                (EtcdClientTLSSecretName (vrName vr)) []
                (fieldNames "etcd-client.key" "etcd-client.crt" "etcd-client-ca.crt")
                key.
Proof.
  intros Hrun. apply newTLSSecret_drawn in Hrun as [_ Hr].
  destruct (nextKeyOf w) as [key|]; [|done]. exists key. by simplify_eq.
Qed.

Lemma newEtcdServerTLSSecret_inr vr caKey caCrt w se w1 :
  newEtcdServerTLSSecret vr caKey caCrt w = (inr se, w1) →
  ∃ key, se = tlsSecretFor vr caKey caCrt "etcd server"
                (EtcdServerTLSSecretName (vrName vr)) (etcdServerAddrs vr)
                (fieldNames "server.key" "server.crt" "server-ca.crt") key.
Proof.
  intros Hrun. apply newTLSSecret_drawn in Hrun as [_ Hr].
  destruct (nextKeyOf w) as [key|]; [|done]. exists key. by simplify_eq.
Qed.

Lemma newEtcdPeerTLSSecret_inr vr caKey caCrt w se w1 :
  newEtcdPeerTLSSecret vr caKey caCrt w = (inr se, w1) →
  ∃ key, se = tlsSecretFor vr caKey caCrt "etcd peer"
                (EtcdPeerTLSSecretName (vrName vr)) (etcdPeerAddrs vr)
                (fieldNames "peer.key" "peer.crt" "peer-ca.crt") key.
Proof.
  intros Hrun. apply newTLSSecret_drawn in Hrun as [_ Hr].
  destruct (nextKeyOf w) as [key|]; [|done]. exists key. by simplify_eq.
Qed.

Lemma newVaultServerTLSSecret_inr vr caKey caCrt w se w1 :
  newVaultServerTLSSecret vr caKey caCrt w = (inr se, w1) →
  ∃ key, se = tlsSecretFor vr caKey caCrt "vault server"
                (DefaultVaultServerTLSSecretName (vrName vr)) (vaultServerAddrs vr)
                (fieldNames ServerTLSKeyName ServerTLSCertName "server-ca.crt") key.
Proof.
  intros Hrun. apply newTLSSecret_drawn in Hrun as [_ Hr].
  destruct (nextKeyOf w) as [key|]; [|done]. exists key. by simplify_eq.
Qed.

Lemma EtcdBundle_validates vr caKey se :
  EtcdBundle vr caKey (caCertFor caKey) se → validates (stored vr se).
Proof.
  intros [w w1 se' Hrun|w w1 se' Hrun|w w1 se' Hrun].
  - apply newEtcdClientTLSSecret_inr in Hrun as [key ->].
    apply validates_tlsSecretFor.
  - apply newEtcdServerTLSSecret_inr in Hrun as [key ->].
    apply validates_tlsSecretFor.
  - apply newEtcdPeerTLSSecret_inr in Hrun as [key ->].
    apply validates_tlsSecretFor.
Qed.

Lemma VaultBundle_validates vr caKey se :
  VaultBundle vr caKey (caCertFor caKey) se → validates (stored vr se).
Proof.
  intros [w w1 se' Hrun|].
  - apply newVaultServerTLSSecret_inr in Hrun as [key ->].
    apply validates_tlsSecretFor.
  - apply validates_vault_client.
Qed.

Lemma stored_owner vr se :
  AsOwner vr ∈ OwnerReferences (SecretMeta (stored vr se)).
Proof. simpl. apply elem_of_app. right. by apply list_elem_of_singleton. Qed.
End BundleFacts.

Lemma wp_mono {A} (m : M A) w (Q Q' : A → World → Prop) :
  (∀ a w1, Q a w1 → Q' a w1) → wp m w Q → wp m w Q'.
Proof. unfold wp. auto. Qed.

Lemma noFaults_S n w :
  noFaults (S n) w →
  dueFault w = None ∧ ∀ st ev, noFaults n (advance w st ev).
Proof.
  unfold noFaults, dueFault. destruct (faults w) as [|f fs] eqn:Hf; simpl.
  - intros _. split; [done|]. intros. rewrite Hf. simpl.
    rewrite take_nil. constructor.
  - intros [-> Hfs]%Forall_cons. split; [done|]. intros. by rewrite Hf.
Qed.

Lemma noFaults_0 w : noFaults 0 w.
Proof. unfold noFaults. rewrite take_0. constructor. Qed.

Lemma noFaults_step n w w1 st ev :
  w1 = advance w st ev →
  noFaults (S n) w ↔ dueFault w = None ∧ noFaults n w1.
Proof.
  intros ->. unfold noFaults, dueFault. simpl.
  destruct (faults w) as [|[f|] fs]; simpl.
  - rewrite take_nil. split; [by split; constructor|constructor].
  - rewrite Forall_cons. split; [by intros [? _]|by intros [? _]].
  - rewrite Forall_cons. tauto.
Qed.

Lemma dueFault_In w f : dueFault w = Some f → ∀ n, Some f ∈ take (S n) (faults w).
Proof.
  unfold dueFault. destruct (faults w) as [|[f'|] fs]; [done| |done].
  intros [= ->] n. simpl. apply list_elem_of_here.
Qed.

Lemma In_take_advance w st ev (f : option Fault) n :
  f ∈ take n (faults (advance w st ev)) → f ∈ take (S n) (faults w).
Proof.
  simpl. destruct (faults w) as [|f' fs]; simpl.
  - by rewrite take_nil.
  - apply list_elem_of_further.
Qed.

Section Cleanup.
Context `{Helpers}.

Lemma cleanupEtcdTLSSecrets_cleaned vr w :
  wp (cleanupEtcdTLSSecrets vr) w (λ r w1,
    cleaned "cleanup TLS secrets failed: " (vrNamespace vr)
      [EtcdClientTLSSecretName (vrName vr);
       EtcdServerTLSSecretName (vrName vr);
       EtcdPeerTLSSecretName (vrName vr)] w r w1
    ∧ (noFaults 3 w ↔ r = None)).
Proof.
  unfold cleanupEtcdTLSSecrets. apply wp_bind.
  apply wp_deleteOrReturn.
  { intros w1 f Hf ->. apply wp_ret. split.
    - eexists _, f.
      split_and!; [|by apply dueFault_In|apply faultError_not_NotFound|done].
      apply list_elem_of_here.
    - split; [|done]. intros [Hd _]%noFaults_S. congruence. }
  intros w1 Hf1 Hw1. apply wp_deleteOrReturn.
  { intros w2 f Hf ->. apply wp_ret. split.
    - eexists _, f. split_and!; [| |apply faultError_not_NotFound|done].
      + apply list_elem_of_further, list_elem_of_here.
      + subst w1. eapply In_take_advance. by apply dueFault_In.
    - rewrite (noFaults_step 2 w _ _ _ Hw1).
      split; [|done]. intros [_ [Hd _]%noFaults_S]. congruence. }
  intros w2 Hf2 Hw2. apply wp_deleteOrReturn.
  { intros w3 f Hf ->. apply wp_ret. split.
    - eexists _, f. split_and!; [| |apply faultError_not_NotFound|done].
      + apply list_elem_of_further, list_elem_of_further, list_elem_of_here.
      + subst w2 w1. do 2 eapply In_take_advance. by apply dueFault_In.
    - rewrite (noFaults_step 2 w _ _ _ Hw1), (noFaults_step 1 w1 _ _ _ Hw2).
      split; [|done]. intros (_ & _ & [Hd _]%noFaults_S). congruence. }
  intros w3 Hf3 Hw3. do 2 apply wp_ret. split.
  - subst w3 w2 w1. reflexivity.
  - rewrite (noFaults_step 2 w _ _ _ Hw1), (noFaults_step 1 w1 _ _ _ Hw2),
      (noFaults_step 0 w2 _ _ _ Hw3).
    split; [done|]. intros _. split_and!; [done..|]. apply noFaults_0.
Qed.

Lemma cleanupDefaultVaultTLSSecrets_cleaned vr w :
  wp (cleanupDefaultVaultTLSSecrets vr) w (λ r w1,
    cleaned "cleanup vault TLS secrets failed: " (vrNamespace vr)
      [DefaultVaultServerTLSSecretName (vrName vr);
       DefaultVaultClientTLSSecretName (vrName vr)] w r w1
    ∧ (noFaults 2 w ↔ r = None)).
Proof.
  unfold cleanupDefaultVaultTLSSecrets. apply wp_bind.
  apply wp_deleteOrReturn.
  { intros w1 f Hf ->. apply wp_ret. split.
    - eexists _, f.
      split_and!; [|by apply dueFault_In|apply faultError_not_NotFound|done].
      apply list_elem_of_here.
    - split; [|done]. intros [Hd _]%noFaults_S. congruence. }
  intros w1 Hf1 Hw1. apply wp_deleteOrReturn.
  { intros w2 f Hf ->. apply wp_ret. split.
    - eexists _, f. split_and!; [| |apply faultError_not_NotFound|done].
      + apply list_elem_of_further, list_elem_of_here.
      + subst w1. eapply In_take_advance. by apply dueFault_In.
    - rewrite (noFaults_step 1 w _ _ _ Hw1).
      split; [|done]. intros [_ [Hd _]%noFaults_S]. congruence. }
  intros w2 Hf2 Hw2. do 2 apply wp_ret. split.
  - subst w2 w1. reflexivity.
  - rewrite (noFaults_step 1 w _ _ _ Hw1), (noFaults_step 0 w1 _ _ _ Hw2).
    split; [done|]. intros _. split_and!; [done..|]. apply noFaults_0.
Qed.
End Cleanup.

(** ** Shrinking of the store *)

Lemma shrinks_refl w : shrinks w w.
Proof. split; [done|]. exists []. by rewrite app_nil_r. Qed.

Lemma shrinks_delete w0 w k ns name err :
  shrinks w0 w →
  shrinks w0 (advance w (delete k (secrets w)) (APICall VerbDelete ns name err)).
Proof.
  intros (Hsub & evs & Htr & Hev). split; simpl.
  - intros k' s [_ Hk']%lookup_delete_Some. by apply Hsub.
  - exists (evs ++ [APICall VerbDelete ns name err]).
    rewrite Htr, app_assoc. split; [done|].
    apply Forall_app. split; [done|]. by constructor.
Qed.

Lemma shrinks_call w0 w ns name err :
  shrinks w0 w →
  shrinks w0 (advance w (secrets w) (APICall VerbDelete ns name err)).
Proof.
  intros (Hsub & evs & Htr & Hev). split; simpl; [done|].
  exists (evs ++ [APICall VerbDelete ns name err]).
  rewrite Htr, app_assoc. split; [done|].
  apply Forall_app. split; [done|]. by constructor.
Qed.

Section CleanupShrinks.
Context `{Helpers}.

Lemma wp_delete_shrinks w0 namespace name k w (Q : option error → World → Prop) :
  shrinks w0 w →
  (∀ err w1, shrinks w0 w1 → Q err w1) →
  (∀ w1, shrinks w0 w1 → wp k w1 Q) →
  wp (deleteOrReturn namespace name k) w Q.
Proof.
  intros Hw Hleaf Hk. apply wp_deleteOrReturn.
  - intros w1 f _ ->. by apply Hleaf, shrinks_call.
  - intros w1 _ ->. by apply Hk, shrinks_delete.
Qed.

Lemma cleanupEtcdTLSSecrets_shrinks vr w :
  wp (cleanupEtcdTLSSecrets vr) w (λ _ w1, shrinks w w1).
Proof.
  unfold cleanupEtcdTLSSecrets. apply wp_bind.
  apply (wp_delete_shrinks w); [apply shrinks_refl|by intros; apply wp_ret|].
  intros w1 Hw1.
  apply (wp_delete_shrinks w); [done|by intros; apply wp_ret|].
  intros w2 Hw2.
  apply (wp_delete_shrinks w); [done|by intros; apply wp_ret|].
  intros w3 Hw3. by do 2 apply wp_ret.
Qed.

Lemma cleanupDefaultVaultTLSSecrets_shrinks vr w :
  wp (cleanupDefaultVaultTLSSecrets vr) w (λ _ w1, shrinks w w1).
Proof.
  unfold cleanupDefaultVaultTLSSecrets. apply wp_bind.
  apply (wp_delete_shrinks w); [apply shrinks_refl|by intros; apply wp_ret|].
  intros w1 Hw1.
  apply (wp_delete_shrinks w); [done|by intros; apply wp_ret|].
  intros w2 Hw2. by do 2 apply wp_ret.
Qed.
End CleanupShrinks.

(** ** Settled stores *)

Lemma createIfAbsent_present k se st : is_Some (createIfAbsent k se st !! k).
Proof.
  unfold createIfAbsent. destruct (st !! k) eqn:Hk; [by rewrite Hk|].
  by rewrite lookup_insert_eq.
Qed.

Lemma createIfAbsent_keeps k se st k' :
  is_Some (st !! k') → is_Some (createIfAbsent k se st !! k').
Proof.
  unfold createIfAbsent. destruct (st !! k) eqn:Hk; [done|].
  intros Hk'. destruct (decide (k = k')) as [->|?].
  - by rewrite lookup_insert_eq.
  - by rewrite lookup_insert_ne.
Qed.

Lemma createIfAbsent_id k se st : is_Some (st !! k) → createIfAbsent k se st = st.
Proof. unfold createIfAbsent. by intros [s ->]. Qed.

Lemma createResult_exists ns se w :
  dueFault w = None → is_Some (secrets w !! (ns, Name (SecretMeta se))) →
  createResult ns se w = inl (NewAlreadyExists (Name (SecretMeta se))).
Proof. unfold createResult. by intros -> [s ->]. Qed.

Lemma idle_refl w : idle w w.
Proof. split; [done|]. exists []. by rewrite app_nil_r. Qed.

Lemma idle_drawn w0 w : idle w0 w → idle w0 (drawn w).
Proof.
  intros (Hst & evs & Htr & Hev & Hq). split; [done|].
  exists (evs ++ [KeyGenerated (mjoin (head (entropy w)))]). simpl.
  rewrite Htr, app_assoc. split; [done|].
  split; apply Forall_app; (split; [done|]); by constructor.
Qed.

Lemma idle_call w0 w ev :
  notCreated ev → quiet ev → idle w0 w → idle w0 (advance w (secrets w) ev).
Proof.
  intros Hev Hq' (Hst & evs & Htr & Hevs & Hq). split; [done|].
  exists (evs ++ [ev]). simpl. rewrite Htr, app_assoc. split; [done|].
  split; apply Forall_app; (split; [done|]); by constructor.
Qed.

Lemma idle_create w0 w ns se se' :
  dueFault w = None →
  is_Some (secrets w0 !! (ns, Name (SecretMeta se))) →
  idle w0 w →
  idle w0 (advance w (createIfAbsent (ns, Name (SecretMeta se)) se' (secrets w))
             (APICall VerbCreate ns (Name (SecretMeta se))
                (errOf (createResult ns se w)))).
Proof.
  intros Hdue Hk (Hst & evs & Htr & Hevs & Hq).
  rewrite <- Hst in Hk. split; simpl.
  - by rewrite createIfAbsent_id.
  - rewrite createResult_exists by done.
    eexists (evs ++ [_]). rewrite Htr, app_assoc. split; [done|].
    split; apply Forall_app; (split; [done|]); by constructor.
Qed.

Section Settled.
Context `{Helpers}.

Lemma EtcdBundle_name vr caKey caCrt se :
  EtcdBundle vr caKey caCrt se →
  Name (SecretMeta se) ∈ [EtcdClientTLSSecretName (vrName vr);
                          EtcdServerTLSSecretName (vrName vr);
                          EtcdPeerTLSSecretName (vrName vr)].
Proof.
  intros [w w1 se' Hrun|w w1 se' Hrun|w w1 se' Hrun].
  - apply newEtcdClientTLSSecret_inr in Hrun as [key ->]. set_solver.
  - apply newEtcdServerTLSSecret_inr in Hrun as [key ->]. set_solver.
  - apply newEtcdPeerTLSSecret_inr in Hrun as [key ->]. set_solver.
Qed.

Lemma VaultBundle_name vr caKey caCrt se :
  VaultBundle vr caKey caCrt se →
  Name (SecretMeta se) ∈ [DefaultVaultServerTLSSecretName (vrName vr);
                          DefaultVaultClientTLSSecretName (vrName vr)].
Proof.
  intros [w w1 se' Hrun|].
  - apply newVaultServerTLSSecret_inr in Hrun as [key ->]. set_solver.
  - set_solver.
Qed.

(** A successful run leaves the secrets settled. *)
Lemma createEtcdTLSSecrets_settles vr caKey caCrt w :
  wp (createEtcdTLSSecrets vr caKey caCrt) w
     (λ r w1, r = None → etcdSettled vr w1).
Proof.
  unfold createEtcdTLSSecrets, etcdSettled.
  apply wp_orReturn, wp_any. intros [err|se1] w1 Hrun1; [done|].
  pose proof (new_drawn_etcd_client _ _ _ _ _ _ Hrun1) as ->.
  apply newEtcdClientTLSSecret_inr in Hrun1 as [key1 ->].
  apply wp_createOrReturn; [done|]. intros w2 _ Hw2.
  assert (etcdSettled vr w2) as Hs2.
  { subst w2. apply createIfAbsent_present. }
  clear Hw2.
  apply wp_orReturn, wp_any. intros [err|se2] w3 Hrun2; [done|].
  pose proof (new_drawn_etcd_server _ _ _ _ _ _ Hrun2) as ->.
  apply wp_createOrReturn; [done|]. intros w4 _ Hw4.
  assert (etcdSettled vr w4) as Hs4.
  { subst w4. by apply createIfAbsent_keeps. }
  clear Hw4.
  apply wp_orReturn, wp_any. intros [err|se3] w5 Hrun3; [done|].
  pose proof (new_drawn_etcd_peer _ _ _ _ _ _ Hrun3) as ->.
  apply wp_createOrReturn; [done|]. intros w6 _ ->.
  apply wp_ret. intros _. by apply createIfAbsent_keeps.
Qed.

Lemma prepareEtcdTLSSecrets_settles vr w :
  wp (prepareEtcdTLSSecrets vr) w (λ r w1, r = None → etcdSettled vr w1).
Proof.
  unfold prepareEtcdTLSSecrets. apply wp_bind, wp_bind, wp_Get.
  intros w1 ->. unfold getResult.
  destruct (dueFault w) as [f|].
  { rewrite faultError_not_NotFound. simpl. by do 2 apply wp_ret. }
  destruct (secrets w !! _) as [se|] eqn:Hget.
  { do 2 apply wp_ret. intros _. unfold etcdSettled. simpl. by rewrite Hget. }
  simpl. apply wp_orReturn, wp_newCACert. intros w2 ->.
  destruct (nextKeyOf _) as [caKey|]; [|by apply wp_ret].
  eapply wp_mono; [|apply createEtcdTLSSecrets_settles].
  intros [err|] w3 Hs; by apply wp_ret.
Qed.

Lemma createDefaultVaultTLSSecrets_settles vr caKey caCrt w :
  wp (createDefaultVaultTLSSecrets vr caKey caCrt) w
     (λ r w1, r = None → vaultDefaultsExist vr w1).
Proof.
  unfold createDefaultVaultTLSSecrets, vaultDefaultsExist.
  apply wp_orReturn, wp_any. intros [err|se1] w1 Hrun1; [done|].
  pose proof (new_drawn_vault_server _ _ _ _ _ _ Hrun1) as ->.
  apply newVaultServerTLSSecret_inr in Hrun1 as [key1 ->].
  apply wp_createOrReturn; [done|]. intros w2 _ Hw2.
  assert (is_Some (secrets w2 !! (vrNamespace vr,
            DefaultVaultServerTLSSecretName (vrName vr)))) as Hs2.
  { subst w2. apply createIfAbsent_present. }
  clear Hw2.
  apply wp_createOrReturn; [done|]. intros w3 _ ->.
  apply wp_ret. intros _. split.
  - by apply createIfAbsent_keeps.
  - apply createIfAbsent_present.
Qed.

Lemma prepareDefaultVaultTLSSecrets_settles vr w :
  wp (prepareDefaultVaultTLSSecrets vr) w
     (λ r w1, r = Returned None → vaultSettled vr w1).
Proof.
  assert (∀ w', wp (err ← issueDefaultVaultTLSSecrets vr;
                   mret (Returned (deferWrap
                     "prepare default vault TLS secrets failed: " err))) w'
                  (λ r w1, r = Returned None → vaultSettled vr w1)) as Hissue.
  { intros w'. apply wp_bind. unfold issueDefaultVaultTLSSecrets.
    apply wp_orReturn, wp_newCACert. intros w2 ->.
    destruct (nextKeyOf _) as [caKey|]; [|by apply wp_ret].
    eapply wp_mono; [|apply createDefaultVaultTLSSecrets_settles].
    intros [err|] w3 Hs; apply wp_ret; [done|]. intros _. by right; apply Hs. }
  unfold prepareDefaultVaultTLSSecrets.
  destruct (IsTLSConfigured _) eqn:Hconf; [|apply Hissue].
  destruct (specServerSecret vr) as [serverSecret|] eqn:Hspec; [|by apply wp_ret].
  apply wp_bind, wp_Get. intros w1 ->. unfold getResult.
  destruct (dueFault w) as [f|].
  { rewrite faultError_not_NotFound. simpl. by apply wp_ret. }
  destruct (secrets w !! _) as [se|] eqn:Hget.
  { apply wp_ret. intros _. left. split; [done|].
    exists serverSecret. split; [done|]. simpl. by rewrite Hget. }
  simpl. apply Hissue.
Qed.
End Settled.

(** ** Runs from a settled store *)

Lemma wp_eq {A} (m : M A) w a w1 :
  wp m w (λ r w', r = a ∧ w' = w1) → m w = (a, w1).
Proof. unfold wp. destruct (m w) as [r w']. simpl. by intros [-> ->]. Qed.

Section SettledRuns.
Context `{Helpers}.

(** With the etcd client secret in place the operation stops at its first
    call. *)
Lemma prepareEtcdTLSSecrets_settled_run vr w :
  etcdSettled vr w →
  prepareEtcdTLSSecrets vr w =
    (deferWrap "prepare TLS secrets failed: " (faultError <$> dueFault w),
     advance w (secrets w)
       (APICall VerbGet (vrNamespace vr) (EtcdClientTLSSecretName (vrName vr))
          (faultError <$> dueFault w))).
Proof.
  intros [se Hse]. apply wp_eq. unfold prepareEtcdTLSSecrets.
  apply wp_bind, wp_bind, wp_Get. intros w1 ->. unfold getResult.
  rewrite Hse. destruct (dueFault w) as [f|]; simpl.
  - rewrite faultError_not_NotFound. simpl. by do 2 apply wp_ret.
  - by do 2 apply wp_ret.
Qed.

Lemma prepareDefaultVaultTLSSecrets_settled_run vr w serverSecret :
  IsTLSConfigured (TLS (Spec vr)) = true →
  specServerSecret vr = Some serverSecret →
  is_Some (secrets w !! (vrNamespace vr, serverSecret)) →
  prepareDefaultVaultTLSSecrets vr w =
    (Returned (deferWrap "prepare default vault TLS secrets failed: "
                 (faultError <$> dueFault w)),
     advance w (secrets w)
       (APICall VerbGet (vrNamespace vr) serverSecret (faultError <$> dueFault w))).
Proof.
  intros Hconf Hspec [se Hse]. apply wp_eq. unfold prepareDefaultVaultTLSSecrets.
  rewrite Hconf, Hspec. apply wp_bind, wp_Get. intros w1 ->. unfold getResult.
  rewrite Hse. destruct (dueFault w) as [f|]; simpl.
  - rewrite faultError_not_NotFound. simpl. by apply wp_ret.
  - by apply wp_ret.
Qed.

Lemma idle_settled_get w ns name err :
  idle w (advance w (secrets w) (APICall VerbGet ns name err)).
Proof. by apply idle_call, idle_refl. Qed.

Lemma createDefaultVaultTLSSecrets_idle vr caKey caCrt w0 w :
  vaultDefaultsExist vr w0 → idle w0 w →
  wp (createDefaultVaultTLSSecrets vr caKey caCrt) w (λ _ w1, idle w0 w1).
Proof.
  intros [Hserver Hclient].
  apply (createDefaultVaultTLSSecrets_stable vr caKey caCrt (idle w0)).
  - apply idle_drawn.
  - intros w1 name f Hi _. by apply idle_call.
  - intros w1 se Hse Hi Hdue.
    apply (idle_create w0 w1 (vrNamespace vr)
             (AddOwnerRefToObject se (AsOwner vr))); [done| |done].
    simpl. apply VaultBundle_name in Hse.
    apply elem_of_cons in Hse as [->|Hse]; [done|].
    apply list_elem_of_singleton in Hse as ->. done.
Qed.

(** With both default vault secrets in place the operation stores
    nothing, whichever way it takes. *)
Lemma prepareDefaultVaultTLSSecrets_idle vr w :
  vaultSettled vr w →
  wp (prepareDefaultVaultTLSSecrets vr) w (λ _ w1, idle w w1).
Proof.
  intros [(Hconf & serverSecret & Hspec & Hse)|Hdefaults].
  { unfold wp.
    rewrite (prepareDefaultVaultTLSSecrets_settled_run vr w serverSecret) by done.
    apply idle_settled_get. }
  assert (∀ w', idle w w' →
            wp (err ← issueDefaultVaultTLSSecrets vr;
                mret (Returned (deferWrap
                  "prepare default vault TLS secrets failed: " err))) w'
               (λ _ w1, idle w w1)) as Hissue.
  { intros w' Hi. apply wp_bind. unfold issueDefaultVaultTLSSecrets.
    apply wp_orReturn, wp_newCACert. intros w2 ->.
    destruct (nextKeyOf _) as [caKey|]; [|by apply wp_ret, idle_drawn].
    eapply wp_mono; [|apply createDefaultVaultTLSSecrets_idle; [done|]].
    - intros r w3 Hi3. by apply wp_ret.
    - by apply idle_drawn. }
  unfold prepareDefaultVaultTLSSecrets.
  destruct (IsTLSConfigured _) eqn:Hconf; [|apply Hissue, idle_refl].
  destruct (specServerSecret vr) as [serverSecret|] eqn:Hspec;
    [|apply wp_ret, idle_refl].
  apply wp_bind, wp_Get. intros w1 ->.
  destruct (getResult _ _ w) as [err|se]; [|apply wp_ret, idle_settled_get].
  destruct (negb (IsNotFound err)); [apply wp_ret, idle_settled_get|].
  apply Hissue, idle_settled_get.
Qed.

(** Already-exists is success: with both default secrets in place, no
    fault due and two keys to draw, the body below the existence check
    draws a CA and a server key, has both creations refused and returns
    nil. *)
Lemma issueDefaultVaultTLSSecrets_exists_run vr w caKey key :
  vaultDefaultsExist vr w →
  noFaults 2 w →
  nextKeyOf w = Some caKey →
  nextKeyOf (drawn w) = Some key →
  wp (issueDefaultVaultTLSSecrets vr) w (λ r w1,
    r = None ∧
    secrets w1 = secrets w ∧
    entropy w1 = tail (tail (entropy w)) ∧
    trace w1 = trace w ++
      [KeyGenerated (Some caKey); KeyGenerated (Some key);
       APICall VerbCreate (vrNamespace vr)
         (DefaultVaultServerTLSSecretName (vrName vr))
         (Some (NewAlreadyExists (DefaultVaultServerTLSSecretName (vrName vr))));
       APICall VerbCreate (vrNamespace vr)
         (DefaultVaultClientTLSSecretName (vrName vr))
         (Some (NewAlreadyExists (DefaultVaultClientTLSSecretName (vrName vr))))]).
Proof.
  intros [Hserver Hclient] Hnf Hca Hkey.
  unfold issueDefaultVaultTLSSecrets.
  apply wp_orReturn, wp_newCACert. intros w1 ->. rewrite Hca.
  unfold createDefaultVaultTLSSecrets.
  apply wp_orReturn, wp_any. intros r w2 Hrun.
  apply newTLSSecret_drawn in Hrun as [-> ->]. rewrite Hkey.
  apply noFaults_S in Hnf as [Hdue1 Hnf].
  apply wp_createOrReturn.
  { intros w3 f Hf _. simpl in Hf. unfold dueFault in *. simpl in Hf. congruence. }
  intros w3 _ ->.
  match goal with |- context [advance ?w0 ?st ?ev] =>
    specialize (Hnf st ev) end.
  apply noFaults_S in Hnf as [Hdue2 _].
  apply wp_createOrReturn.
  { intros w4 f Hf _. unfold dueFault in *. simpl in *. congruence. }
  intros w4 _ ->. apply wp_ret.
  assert (dueFault (drawn (drawn w)) = None) as Hdue1' by done.
  simpl. rewrite !createIfAbsent_id.
  2:{ done. }
  2:{ by rewrite createIfAbsent_id. }
  split_and!; [done..|].
  rewrite !createResult_exists; [|done| |done|done].
  - unfold nextKeyOf in *. simpl in *. rewrite Hca, Hkey.
    by rewrite <- !app_assoc.
  - done.
Qed.

Lemma prepareDefaultVaultTLSSecrets_exists_run vr w caKey key :
  IsTLSConfigured (TLS (Spec vr)) = false →
  vaultDefaultsExist vr w →
  noFaults 2 w →
  nextKeyOf w = Some caKey →
  nextKeyOf (drawn w) = Some key →
  wp (prepareDefaultVaultTLSSecrets vr) w (λ r w1,
    r = Returned None ∧
    secrets w1 = secrets w ∧
    entropy w1 = tail (tail (entropy w))).
Proof.
  intros Hconf Hex Hnf Hca Hkey.
  unfold prepareDefaultVaultTLSSecrets. rewrite Hconf. apply wp_bind.
  eapply wp_mono;
    [|by apply (issueDefaultVaultTLSSecrets_exists_run vr w caKey key)].
  intros r w1 (-> & Hst & Hen & _). by apply wp_ret.
Qed.

Lemma noFaults_pred n w : noFaults (S n) w → noFaults n w.
Proof.
  unfold noFaults. revert n. induction (faults w) as [|f fs IH]; intros n.
  - by rewrite !take_nil.
  - destruct n as [|n]; [constructor|].
    simpl. rewrite !Forall_cons. intros [-> Hfs]. split; [done|]. by apply IH.
Qed.

(** A run that returns does not meet a nil pointer. *)
Lemma prepareDefaultVaultTLSSecrets_returned vr w :
  wp (prepareDefaultVaultTLSSecrets vr) w (λ r _,
    ∀ err, r = Returned err →
      IsTLSConfigured (TLS (Spec vr)) = true → is_Some (specServerSecret vr)).
Proof.
  unfold prepareDefaultVaultTLSSecrets.
  destruct (IsTLSConfigured _); [|unfold wp; by intros ? _ [=]].
  destruct (specServerSecret vr) as [serverSecret|]; [|by apply wp_ret].
  unfold wp. by intros.
Qed.

(** From a settled store, with no fault due and two keys to draw, the
    vault operation returns nil. *)
Lemma prepareDefaultVaultTLSSecrets_settled_nil vr w caKey key :
  (IsTLSConfigured (TLS (Spec vr)) = true → is_Some (specServerSecret vr)) →
  vaultSettled vr w →
  noFaults 3 w →
  nextKeyOf w = Some caKey →
  nextKeyOf (drawn w) = Some key →
  wp (prepareDefaultVaultTLSSecrets vr) w (λ r _, r = Returned None).
Proof.
  intros Hwf Hsettled Hnf Hca Hkey.
  pose proof (noFaults_S _ _ Hnf) as [Hdue Hnf2].
  destruct Hsettled as [(Hconf & serverSecret & Hspec & Hse)|Hdefaults].
  { unfold wp.
    rewrite (prepareDefaultVaultTLSSecrets_settled_run vr w serverSecret) by done.
    by rewrite Hdue. }
  unfold prepareDefaultVaultTLSSecrets.
  destruct (IsTLSConfigured _) eqn:Hconf.
  - destruct (Hwf eq_refl) as [serverSecret ->].
    apply wp_bind, wp_Get. intros w1 Hw1. unfold getResult. rewrite Hdue.
    destruct (secrets w !! _) as [se|]; [by apply wp_ret|].
    simpl. apply wp_bind.
    eapply wp_mono;
      [|apply (issueDefaultVaultTLSSecrets_exists_run vr w1 caKey key)].
    + intros r w2 (-> & _). by apply wp_ret.
    + by subst w1.
    + subst w1. apply Hnf2.
    + by subst w1.
    + by subst w1.
  - apply wp_bind.
    eapply wp_mono;
      [|apply (issueDefaultVaultTLSSecrets_exists_run vr w caKey key)];
      [|done|by apply noFaults_pred|done|done].
    intros r w2 (-> & _). by apply wp_ret.
Qed.
End SettledRuns.

Lemma begins_first ev0 P w0 st : begins ev0 P w0 (advance w0 st ev0).
Proof. exists []. split; [done|constructor]. Qed.

Lemma begins_drawn_first P w : begins (KeyGenerated (nextKeyOf w)) P w (drawn w).
Proof. exists []. split; [done|constructor]. Qed.

Lemma begins_drawn ev0 (P : Event → Prop) w0 w :
  (∀ k, P (KeyGenerated k)) → begins ev0 P w0 w → begins ev0 P w0 (drawn w).
Proof.
  intros HP (evs & Htr & Hev).
  exists (evs ++ [KeyGenerated (mjoin (head (entropy w)))]). simpl.
  rewrite Htr, <- app_assoc. split; [done|].
  apply Forall_app. split; [done|]. by constructor.
Qed.

Lemma begins_call ev0 (P : Event → Prop) w0 w st ev :
  P ev → begins ev0 P w0 w → begins ev0 P w0 (advance w st ev).
Proof.
  intros HP (evs & Htr & Hev). exists (evs ++ [ev]). simpl.
  rewrite Htr, <- app_assoc. split; [done|].
  apply Forall_app. split; [done|]. by constructor.
Qed.

Section FirstCall.
Context `{Helpers}.

(** Without TLS configured the vault operation goes straight to
    generation. *)
Lemma prepareDefaultVaultTLSSecrets_generates vr w :
  IsTLSConfigured (TLS (Spec vr)) = false →
  wp (prepareDefaultVaultTLSSecrets vr) w (λ _ w1, generates w w1).
Proof.
  intros Hconf. unfold prepareDefaultVaultTLSSecrets. rewrite Hconf.
  apply wp_bind. unfold issueDefaultVaultTLSSecrets.
  apply wp_orReturn, wp_newCACert. intros w1 ->.
  destruct (nextKeyOf w) as [caKey|];
    [|apply wp_ret, begins_drawn_first].
  eapply wp_mono; [intros r w2 Hg; apply wp_ret; exact Hg|].
  apply (createDefaultVaultTLSSecrets_stable vr caKey (caCertFor caKey)
           (generates w)).
  - intros. by apply begins_drawn.
  - intros. by apply begins_call.
  - intros. by apply begins_call.
  - apply begins_drawn_first.
Qed.

(** With TLS configured it first gets the configured server secret. *)
Lemma prepareDefaultVaultTLSSecrets_probes vr w serverSecret :
  IsTLSConfigured (TLS (Spec vr)) = true →
  specServerSecret vr = Some serverSecret →
  wp (prepareDefaultVaultTLSSecrets vr) w
     (λ _ w1, probes (vrNamespace vr) serverSecret w w1).
Proof.
  intros Hconf Hspec. unfold prepareDefaultVaultTLSSecrets.
  rewrite Hconf, Hspec. apply wp_bind, wp_Get. intros w1 ->.
  destruct (getResult _ _ w) as [err|se] eqn:Hget;
    [|apply wp_ret; unfold probes; rewrite Hget; apply begins_first].
  destruct (negb (IsNotFound err));
    [apply wp_ret; unfold probes; rewrite Hget; apply begins_first|].
  apply wp_bind. unfold issueDefaultVaultTLSSecrets.
  apply wp_orReturn, wp_newCACert. intros w2 ->.
  assert (probes (vrNamespace vr) serverSecret w
            (drawn (advance w (secrets w)
               (APICall VerbGet (vrNamespace vr) serverSecret (Some err)))))
    as Hp.
  { unfold probes. rewrite Hget. by apply begins_drawn, begins_first. }
  destruct (nextKeyOf _) as [caKey|]; [|by apply wp_ret].
  eapply wp_mono; [intros r w3 Hg; apply wp_ret; exact Hg|].
  apply (createDefaultVaultTLSSecrets_stable vr caKey (caCertFor caKey)
           (probes (vrNamespace vr) serverSecret w)); [| | |done].
  - intros. by apply begins_drawn.
  - intros. by apply begins_call.
  - intros. by apply begins_call.
Qed.
End FirstCall.

(** ** The SAN lists, the data keys and the client bundle *)

Section Constructors.
Context `{Helpers}.

Lemma certificates_tlsSecretFor_cert vr caKey caCrt cn name addrs k c a key :
  c ≠ a →
  certificates (tlsSecretFor vr caKey caCrt cn name addrs (fieldNames k c a) key)
    !! c = Some (leafFor caKey caCrt cn addrs key).
Proof.
  intros Hca. unfold certificates. rewrite lookup_omap, Data_tlsSecretFor.
  rewrite lookup_insert_ne by congruence. by rewrite lookup_insert_eq.
Qed.

Lemma privateKeys_tlsSecretFor_key vr caKey caCrt cn name addrs k c a key :
  k ≠ a → k ≠ c →
  privateKeys (tlsSecretFor vr caKey caCrt cn name addrs (fieldNames k c a) key)
    !! k = Some key.
Proof.
  intros Hka Hkc. unfold privateKeys. rewrite lookup_omap, Data_tlsSecretFor.
  rewrite !lookup_insert_ne by congruence. by rewrite lookup_insert_eq.
Qed.

Lemma isPEM_tlsSecretFor vr caKey caCrt cn name addrs fieldMap key :
  map_Forall (λ _ v, isPEM v = true)
    (Data (tlsSecretFor vr caKey caCrt cn name addrs fieldMap key)).
Proof.
  simpl. repeat apply map_Forall_insert_2; done || apply map_Forall_empty.
Qed.

Lemma dom_tlsSecretFor vr caKey caCrt cn name addrs k c a key :
  dom (Data (tlsSecretFor vr caKey caCrt cn name addrs (fieldNames k c a) key))
  = ({[ k; c; a ]} : gset string).
Proof.
  rewrite Data_tlsSecretFor, !dom_insert_L, dom_empty_L.
  apply set_eq. intros x.
  rewrite !elem_of_union, !elem_of_singleton, elem_of_empty. tauto.
Qed.
End Constructors.

(** C4. The SAN list of the vault server certificate is exactly localhost,
    the wildcard over the namespace's pods and the cluster's service name;
    that of the etcd server certificate is localhost, the wildcard and
    client-service names of the etcd cluster, plain and qualified with the
    cluster domain; that of the etcd peer certificate is the two wildcard
    names only, without localhost. *)
Theorem C4_san_lists `{Helpers} (vr : VaultService) (caKey : PrivateKey)
    (caCrt : Certificate) (w w1 : World) (se : Secret) :
  let name := vrName vr in
  let ns := vrNamespace vr in
  let etcd := EtcdNameForVault (vrName vr) in
  (newVaultServerTLSSecret vr caKey caCrt w = (inr se, w1) →
   ∃ crt, certificates se !! "server.crt" = Some crt ∧
          CertDNSNames crt =
            ["localhost"; "*." +:+ ns +:+ ".pod"; name +:+ "." +:+ ns +:+ ".svc"]) ∧
  (newEtcdServerTLSSecret vr caKey caCrt w = (inr se, w1) →
   ∃ crt, certificates se !! "server.crt" = Some crt ∧
          CertDNSNames crt =
            ["localhost";
             "*." +:+ etcd +:+ "." +:+ ns +:+ ".svc";
             etcd +:+ "-client";
             etcd +:+ "-client." +:+ ns;
             etcd +:+ "-client." +:+ ns +:+ ".svc";
             "*." +:+ etcd +:+ "." +:+ ns +:+ ".svc.cluster.local";
             etcd +:+ "-client." +:+ ns +:+ ".svc.cluster.local"]) ∧
  (newEtcdPeerTLSSecret vr caKey caCrt w = (inr se, w1) →
   ∃ crt, certificates se !! "peer.crt" = Some crt ∧
          CertDNSNames crt =
            ["*." +:+ etcd +:+ "." +:+ ns +:+ ".svc";
             "*." +:+ etcd +:+ "." +:+ ns +:+ ".svc.cluster.local"] ∧
          "localhost" ∉ CertDNSNames crt).
Proof.
  intros name ns etcd. split_and!.
  - intros [key ->]%newVaultServerTLSSecret_inr. eexists. split.
    + by apply certificates_tlsSecretFor_cert.
    + reflexivity.
  - intros [key ->]%newEtcdServerTLSSecret_inr. eexists. split.
    + by apply certificates_tlsSecretFor_cert.
    + reflexivity.
  - intros [key ->]%newEtcdPeerTLSSecret_inr. eexists. split_and!.
    + by apply certificates_tlsSecretFor_cert.
    + reflexivity.
    + simpl. unfold etcdPeerAddrs. intros Hin.
      apply elem_of_cons in Hin as [Heq|Hin]; [done|].
      apply list_elem_of_singleton in Hin. done.
Qed.

(** C6. The vault client bundle holds one entry, the CA certificate under
    ca.crt: no private key and no leaf certificate. *)
Theorem C6_client_bundle_ca_only `{Helpers} (vr : VaultService)
    (caCrt : Certificate) :
  let se := newVaultClientTLSSecret vr caCrt in
  Data se = {[ "ca.crt" := EncodeCertificatePEM caCrt ]} ∧
  size (Data se) = 1 ∧
  privateKeys se = ∅ ∧
  certificates se = {[ "ca.crt" := caCrt ]}.
Proof.
  intros se. subst se. unfold privateKeys, certificates, newVaultClientTLSSecret.
  cbn [Data]. unfold CATLSCertName. rewrite !omap_insert, !omap_empty.
  rewrite ParseCertificate_Encode. cbn [ParsePrivateKeyPEM EncodeCertificatePEM].
  rewrite !insert_empty. split_and!.
  - reflexivity.
  - apply map_size_singleton.
  - apply delete_empty.
  - reflexivity.
Qed.

(** C8. The three etcd secrets hold exactly their role's three data keys:
    a PEM private key, a PEM certificate and the PEM CA certificate. *)
Theorem C8_etcd_data_keys `{Helpers} (vr : VaultService) (caKey : PrivateKey)
    (caCrt : Certificate) (w w1 : World) (se : Secret) :
  let layout (keyName certName caName : string) :=
    dom (Data se) = ({[ keyName; certName; caName ]} : gset string) ∧
    is_Some (privateKeys se !! keyName) ∧
    is_Some (certificates se !! certName) ∧
    certificates se !! caName = Some caCrt ∧
    map_Forall (λ _ v, isPEM v = true) (Data se) in
  (newEtcdClientTLSSecret vr caKey caCrt w = (inr se, w1) →
   layout "etcd-client.key" "etcd-client.crt" "etcd-client-ca.crt") ∧
  (newEtcdServerTLSSecret vr caKey caCrt w = (inr se, w1) →
   layout "server.key" "server.crt" "server-ca.crt") ∧
  (newEtcdPeerTLSSecret vr caKey caCrt w = (inr se, w1) →
   layout "peer.key" "peer.crt" "peer-ca.crt").
Proof.
  intros layout. unfold layout. split_and!.
  - intros [key ->]%newEtcdClientTLSSecret_inr. split_and!.
    + apply dom_tlsSecretFor.
    + by rewrite privateKeys_tlsSecretFor_key.
    + by rewrite certificates_tlsSecretFor_cert.
    + apply certificates_tlsSecretFor_ca.
    + apply isPEM_tlsSecretFor.
  - intros [key ->]%newEtcdServerTLSSecret_inr. split_and!.
    + apply dom_tlsSecretFor.
    + by rewrite privateKeys_tlsSecretFor_key.
    + by rewrite certificates_tlsSecretFor_cert.
    + apply certificates_tlsSecretFor_ca.
    + apply isPEM_tlsSecretFor.
  - intros [key ->]%newEtcdPeerTLSSecret_inr. split_and!.
    + apply dom_tlsSecretFor.
    + by rewrite privateKeys_tlsSecretFor_key.
    + by rewrite certificates_tlsSecretFor_cert.
    + apply certificates_tlsSecretFor_ca.
    + apply isPEM_tlsSecretFor.
Qed.

(** ** Invariants of the whole prepare operations *)

Lemma wp_conj {A} (m : M A) w (Q1 Q2 : A → World → Prop) :
  wp m w Q1 → wp m w Q2 → wp m w (λ a w1, Q1 a w1 ∧ Q2 a w1).
Proof. unfold wp. auto. Qed.

Section PrepareStable.
Context `{Helpers}.
Variable vr : VaultService.
Variable I : World → Prop.

Hypothesis I_drawn : ∀ w, I w → I (drawn w).
Hypothesis I_get : ∀ w name err,
  I w → I (advance w (secrets w) (APICall VerbGet (vrNamespace vr) name err)).
Hypothesis I_fault : ∀ w name f,
  I w → dueFault w = Some f →
  I (advance w (secrets w)
       (APICall VerbCreate (vrNamespace vr) name (Some (faultError f)))).

Lemma prepareEtcdTLSSecrets_stable w :
  (∀ w caKey se, EtcdBundle vr caKey (caCertFor caKey) se → I w →
     dueFault w = None →
     I (advance w
          (createIfAbsent (vrNamespace vr, Name (SecretMeta se)) (stored vr se)
             (secrets w))
          (APICall VerbCreate (vrNamespace vr) (Name (SecretMeta se))
             (errOf (createResult (vrNamespace vr)
                       (AddOwnerRefToObject se (AsOwner vr)) w))))) →
  I w →
  wp (prepareEtcdTLSSecrets vr) w (λ _ w1, I w1).
Proof.
  intros I_create Hw. unfold prepareEtcdTLSSecrets.
  apply wp_bind, wp_bind, wp_Get. intros w1 ->.
  destruct (getResult _ _ w) as [err|se]; [|by do 2 apply wp_ret; apply I_get].
  destruct (negb (IsNotFound err)); [by do 2 apply wp_ret; apply I_get|].
  apply wp_orReturn, wp_newCACert. intros w2 ->.
  destruct (nextKeyOf _) as [caKey|]; [|by apply wp_ret, I_drawn, I_get].
  eapply wp_mono; [intros r w3 Hw3; apply wp_ret; exact Hw3|].
  apply (createEtcdTLSSecrets_stable vr caKey (caCertFor caKey) I); eauto.
Qed.

Lemma prepareDefaultVaultTLSSecrets_stable w :
  (∀ w caKey se, VaultBundle vr caKey (caCertFor caKey) se → I w →
     dueFault w = None →
     I (advance w
          (createIfAbsent (vrNamespace vr, Name (SecretMeta se)) (stored vr se)
             (secrets w))
          (APICall VerbCreate (vrNamespace vr) (Name (SecretMeta se))
             (errOf (createResult (vrNamespace vr)
                       (AddOwnerRefToObject se (AsOwner vr)) w))))) →
  I w →
  wp (prepareDefaultVaultTLSSecrets vr) w (λ _ w1, I w1).
Proof.
  intros I_create Hw.
  assert (∀ w', I w' →
            wp (err ← issueDefaultVaultTLSSecrets vr;
                mret (Returned (deferWrap
                  "prepare default vault TLS secrets failed: " err))) w'
               (λ _ w1, I w1)) as Hissue.
  { intros w' Hw'. apply wp_bind. unfold issueDefaultVaultTLSSecrets.
    apply wp_orReturn, wp_newCACert. intros w2 ->.
    destruct (nextKeyOf _) as [caKey|]; [|by apply wp_ret, I_drawn].
    eapply wp_mono; [intros r w3 Hw3; apply wp_ret; exact Hw3|].
    apply (createDefaultVaultTLSSecrets_stable vr caKey (caCertFor caKey) I);
      eauto. }
  unfold prepareDefaultVaultTLSSecrets.
  destruct (IsTLSConfigured _); [|by apply Hissue].
  destruct (specServerSecret vr) as [serverSecret|]; [|by apply wp_ret].
  apply wp_bind, wp_Get. intros w1 ->.
  destruct (getResult _ _ w) as [err|se]; [|by apply wp_ret, I_get].
  destruct (negb (IsNotFound err)); [by apply wp_ret, I_get|].
  by apply Hissue, I_get.
Qed.
End PrepareStable.

(** *** At most one successful creation per secret *)

Lemma createdOnce_refl w : createdOnce w w.
Proof.
  exists []. split; [by rewrite app_nil_r|]. intros ns n. split; [simpl; lia|done].
Qed.

Lemma creationsOf_snoc_other namespace name evs ev :
  ev ≠ APICall VerbCreate namespace name None →
  creationsOf namespace name (evs ++ [ev]) = creationsOf namespace name evs.
Proof.
  intros Hne. unfold creationsOf. rewrite filter_app.
  rewrite (filter_cons_False _ ev) by done. by rewrite filter_nil, app_nil_r.
Qed.

Lemma createdOnce_other w0 w ev :
  notCreated ev → createdOnce w0 w → createdOnce w0 (advance w (secrets w) ev).
Proof.
  intros Hev (evs & Htr & Hevs). exists (evs ++ [ev]). simpl.
  rewrite Htr, app_assoc. split; [done|]. intros ns n.
  rewrite creationsOf_snoc_other; [apply Hevs|].
  intros ->. done.
Qed.

Lemma createdOnce_drawn w0 w : createdOnce w0 w → createdOnce w0 (drawn w).
Proof.
  intros (evs & Htr & Hevs). eexists (evs ++ [_]). simpl.
  rewrite Htr, app_assoc. split; [done|]. intros ns n.
  rewrite creationsOf_snoc_other; [apply Hevs|done].
Qed.

Lemma createdOnce_create w0 w ns name se se' :
  dueFault w = None → Name (SecretMeta se) = name →
  createdOnce w0 w →
  createdOnce w0
    (advance w (createIfAbsent (ns, name) se' (secrets w))
       (APICall VerbCreate ns name (errOf (createResult ns se w)))).
Proof.
  intros Hdue Hname (evs & Htr & Hevs). eexists (evs ++ [_]). simpl.
  rewrite Htr, app_assoc. split; [done|]. intros ns' n'.
  unfold createResult. rewrite Hdue, Hname.
  destruct (secrets w !! (ns, name)) as [s|] eqn:Hk; simpl.
  - rewrite creationsOf_snoc_other by done.
    rewrite createIfAbsent_id by (by rewrite Hk). apply Hevs.
  - destruct (decide ((ns', n') = (ns, name))) as [[= -> ->]|Hne].
    + destruct (Hevs ns name) as [_ Hpresent].
      destruct (creationsOf ns name evs) as [|ev evs'] eqn:Hc.
      2:{ destruct Hpresent as [s Hs]; [done|congruence]. }
      split; [|intros _; apply createIfAbsent_present].
      unfold creationsOf in *. rewrite filter_app, Hc. simpl.
      rewrite filter_cons_True by done. simpl. lia.
    + rewrite creationsOf_snoc_other by congruence.
      destruct (Hevs ns' n') as [Hle Hpresent]. split; [done|].
      intros Hc. by apply createIfAbsent_keeps, Hpresent.
Qed.

Section CreatedOnce.
Context `{Helpers}.

Lemma prepareEtcdTLSSecrets_createdOnce vr w0 w :
  createdOnce w0 w →
  wp (prepareEtcdTLSSecrets vr) w (λ _ w1, createdOnce w0 w1).
Proof.
  apply (prepareEtcdTLSSecrets_stable vr (createdOnce w0)).
  - apply createdOnce_drawn.
  - intros. by apply createdOnce_other.
  - intros. by apply createdOnce_other.
  - intros w1 caKey se _ Hw1 Hdue.
    by apply (createdOnce_create w0 w1 (vrNamespace vr) _
                (AddOwnerRefToObject se (AsOwner vr))).
Qed.

Lemma prepareDefaultVaultTLSSecrets_createdOnce vr w0 w :
  createdOnce w0 w →
  wp (prepareDefaultVaultTLSSecrets vr) w (λ _ w1, createdOnce w0 w1).
Proof.
  apply (prepareDefaultVaultTLSSecrets_stable vr (createdOnce w0)).
  - apply createdOnce_drawn.
  - intros. by apply createdOnce_other.
  - intros. by apply createdOnce_other.
  - intros w1 caKey se _ Hw1 Hdue.
    by apply (createdOnce_create w0 w1 (vrNamespace vr) _
                (AddOwnerRefToObject se (AsOwner vr))).
Qed.
End CreatedOnce.

(** ** The prepare and cleanup operations *)

Section SignedByOneCA.
Context `{Helpers}.

Lemma verifiesAgainst_tlsSecretFor vr caKey cn name addrs k c a key :
  verifiesAgainst (caCertFor caKey)
    (stored vr (tlsSecretFor vr caKey (caCertFor caKey) cn name addrs
                  (fieldNames k c a) key)).
Proof.
  unfold verifiesAgainst. rewrite certificates_stored.
  apply map_Forall_lookup. intros n crt Hn.
  apply certificates_tlsSecretFor in Hn as [->| ->].
  - apply CheckSignatureFrom_caCertFor_self.
  - apply CheckSignatureFrom_leafFor.
Qed.

Lemma EtcdBundle_verifiesAgainst vr caKey se :
  EtcdBundle vr caKey (caCertFor caKey) se →
  verifiesAgainst (caCertFor caKey) (stored vr se).
Proof.
  intros [w w1 se' Hrun|w w1 se' Hrun|w w1 se' Hrun].
  - apply newEtcdClientTLSSecret_inr in Hrun as [key ->].
    apply verifiesAgainst_tlsSecretFor.
  - apply newEtcdServerTLSSecret_inr in Hrun as [key ->].
    apply verifiesAgainst_tlsSecretFor.
  - apply newEtcdPeerTLSSecret_inr in Hrun as [key ->].
    apply verifiesAgainst_tlsSecretFor.
Qed.

Lemma VaultBundle_verifiesAgainst vr caKey se :
  VaultBundle vr caKey (caCertFor caKey) se →
  verifiesAgainst (caCertFor caKey) (stored vr se).
Proof.
  intros [w w1 se' Hrun|].
  - apply newVaultServerTLSSecret_inr in Hrun as [key ->].
    apply verifiesAgainst_tlsSecretFor.
  - unfold verifiesAgainst. rewrite certificates_vault_client.
    apply map_Forall_singleton, CheckSignatureFrom_caCertFor_self.
Qed.
End SignedByOneCA.

(** C7. TLS round trip: every secret a prepare operation stores holds a
    self-signed CA certificate against which each certificate of that
    secret, decoded from its PEM form, verifies. *)
Theorem C7_tls_round_trip `{Helpers} (vr : VaultService) (w : World) :
  wp (prepareEtcdTLSSecrets vr) w (λ _ w1,
    ∀ k s, secrets w !! k = None → secrets w1 !! k = Some s → validates s) ∧
  wp (prepareDefaultVaultTLSSecrets vr) w (λ _ w1,
    ∀ k s, secrets w !! k = None → secrets w1 !! k = Some s → validates s).
Proof.
  split.
  - eapply wp_mono; [|apply prepareEtcdTLSSecrets_grows].
    intros r w1 (caKey & _ & Hnew & _) k s Hk Hk1.
    destruct (Hnew k s Hk Hk1) as (se & Hse & _ & ->).
    by apply (EtcdBundle_validates vr caKey).
  - eapply wp_mono; [|apply prepareDefaultVaultTLSSecrets_grows].
    intros r w1 (caKey & _ & Hnew & _) k s Hk Hk1.
    destruct (Hnew k s Hk Hk1) as (se & Hse & _ & ->).
    by apply (VaultBundle_validates vr caKey).
Qed.

(** C9. Every secret a prepare operation stores carries the owner
    reference of the cluster resource; a prepare operation keeps every
    secret that existed as it was and makes no update or delete call; a
    cleanup operation leaves every secret it does not delete as it was and
    makes no update call. *)
Theorem C9_owned_and_never_updated `{Helpers} (vr : VaultService) (w : World) :
  let prepared (w1 : World) :=
    (∀ k s, secrets w !! k = Some s → secrets w1 !! k = Some s) ∧
    (∀ k s, secrets w !! k = None → secrets w1 !! k = Some s →
            AsOwner vr ∈ OwnerReferences (SecretMeta s)) ∧
    (∃ evs, trace w1 = trace w ++ evs ∧ Forall quiet evs) in
  let cleaned (w1 : World) :=
    (∀ k s, secrets w1 !! k = Some s → secrets w !! k = Some s) ∧
    (∃ evs, trace w1 = trace w ++ evs ∧ Forall notUpdate evs) in
  wp (prepareEtcdTLSSecrets vr) w (λ _ w1, prepared w1) ∧
  wp (prepareDefaultVaultTLSSecrets vr) w (λ _ w1, prepared w1) ∧
  wp (cleanupEtcdTLSSecrets vr) w (λ _ w1, cleaned w1) ∧
  wp (cleanupDefaultVaultTLSSecrets vr) w (λ _ w1, cleaned w1).
Proof.
  intros prepared cleaned. unfold prepared, cleaned. split_and!.
  - eapply wp_mono; [|apply prepareEtcdTLSSecrets_grows].
    intros r w1 (caKey & Hkeep & Hnew & Hev). split_and!; [done| |done].
    intros k s Hk Hk1. destruct (Hnew k s Hk Hk1) as (se & _ & _ & ->).
    apply stored_owner.
  - eapply wp_mono; [|apply prepareDefaultVaultTLSSecrets_grows].
    intros r w1 (caKey & Hkeep & Hnew & Hev). split_and!; [done| |done].
    intros k s Hk Hk1. destruct (Hnew k s Hk Hk1) as (se & _ & _ & ->).
    apply stored_owner.
  - apply cleanupEtcdTLSSecrets_shrinks.
  - apply cleanupDefaultVaultTLSSecrets_shrinks.
Qed.

Lemma append_assoc (s1 s2 s3 : string) :
  (s1 +:+ s2) +:+ s3 = s1 +:+ (s2 +:+ s3).
Proof.
  induction s1 as [|c s1 IH]; [done|].
  change (String c ((s1 +:+ s2) +:+ s3) = String c (s1 +:+ (s2 +:+ s3))).
  by rewrite IH.
Qed.

Lemma foldl_delete_gone (ns : string) (names : list string)
    (st : gmap (string * string) Secret) (name : string) :
  name ∈ names →
  foldl (λ st name, delete (ns, name) st) st names !! (ns, name) = None.
Proof.
  revert st. induction names as [|n names IH]; intros st Hin; [by inversion Hin|].
  simpl. destruct (decide (name ∈ names)) as [?|Hnot]; [by apply IH|].
  apply elem_of_cons in Hin as [->|?]; [|done].
  clear IH. revert st. induction names as [|n' names IH]; intros st; simpl.
  - apply lookup_delete_eq.
  - rewrite delete_delete. apply IH. intros ?. apply Hnot. by right.
Qed.

(** C5. The cleanup operations delete every secret of their group and
    take a secret that is already gone for deleted: they return nil exactly
    when no deletion meets a fault, whatever the store held, and on a nil
    return the store is the old one without the group's secrets; when they
    fail, the error is the wrapped fault, other than not-found, of one of
    the deletions. *)
Theorem C5_cleanup_tolerates_not_found `{Helpers} (vr : VaultService) (w : World) :
  let ns := vrNamespace vr in
  let failure (prefix : string) (names : list string) (err : error) :=
    ∃ name f,
      name ∈ names ∧ Some f ∈ take (length names) (faults w) ∧
      IsNotFound (faultError f) = false ∧
      err = errorString
              (prefix +:+ "delete secret (" +:+ name +:+ ") failed: "
                 +:+ Error (faultError f)) in
  let etcdNames := [EtcdClientTLSSecretName (vrName vr);
                    EtcdServerTLSSecretName (vrName vr);
                    EtcdPeerTLSSecretName (vrName vr)] in
  let vaultNames := [DefaultVaultServerTLSSecretName (vrName vr);
                     DefaultVaultClientTLSSecretName (vrName vr)] in
  wp (cleanupEtcdTLSSecrets vr) w (λ r w1,
    (noFaults 3 w ↔ r = None) ∧
    (r = None →
     secrets w1 = foldl (λ st name, delete (ns, name) st) (secrets w) etcdNames ∧
     ∀ name, name ∈ etcdNames → secrets w1 !! (ns, name) = None) ∧
    (∀ err, r = Some err → failure "cleanup TLS secrets failed: " etcdNames err)) ∧
  wp (cleanupDefaultVaultTLSSecrets vr) w (λ r w1,
    (noFaults 2 w ↔ r = None) ∧
    (r = None →
     secrets w1 = foldl (λ st name, delete (ns, name) st) (secrets w) vaultNames ∧
     ∀ name, name ∈ vaultNames → secrets w1 !! (ns, name) = None) ∧
    (∀ err, r = Some err →
       failure "cleanup vault TLS secrets failed: " vaultNames err)).
Proof.
  intros ns failure etcdNames vaultNames.
  split.
  - eapply wp_mono; [|apply cleanupEtcdTLSSecrets_cleaned].
    intros r w1 [Hc Hnf]. split_and!; [done|..].
    + intros ->. split; [exact Hc|]. intros name Hin.
      unfold cleaned in Hc. rewrite Hc. by apply foldl_delete_gone.
    + intros err ->. destruct Hc as (name & f & Hin & Hf & Hnot & ->).
      exists name, f. split_and!; try done.
      unfold Errorf. cbn [Error]. by rewrite !append_assoc.
  - eapply wp_mono; [|apply cleanupDefaultVaultTLSSecrets_cleaned].
    intros r w1 [Hc Hnf]. split_and!; [done|..].
    + intros ->. split; [exact Hc|]. intros name Hin.
      unfold cleaned in Hc. rewrite Hc. by apply foldl_delete_gone.
    + intros err ->. destruct Hc as (name & f & Hin & Hf & Hnot & ->).
      exists name, f. split_and!; try done.
      unfold Errorf. cbn [Error]. by rewrite !append_assoc.
Qed.

(** C2. Preparing twice: after a first run that returned nil, a second
    run leaves the store as it is and no create call of it succeeds; it
    returns nil too when no fault is due and, for the vault secrets, two
    keys can be drawn (a create of a secret that exists already is refused
    by the API server and that is taken for success); over both runs every
    secret that was there is kept untouched and every secret is created at
    most once. *)
Theorem C2_prepare_twice `{Helpers} (vr : VaultService) (w : World) :
  wp (prepareEtcdTLSSecrets vr) w (λ r w1,
    wp (prepareEtcdTLSSecrets vr) w1 (λ r2 w2,
      (∀ k s, secrets w !! k = Some s → secrets w2 !! k = Some s) ∧
      createdOnce w w2 ∧
      (r = None →
       secrets w2 = secrets w1 ∧
       (∃ evs, trace w2 = trace w1 ++ evs ∧ Forall notCreated evs) ∧
       (dueFault w1 = None → r2 = None)))) ∧
  wp (prepareDefaultVaultTLSSecrets vr) w (λ r w1,
    wp (prepareDefaultVaultTLSSecrets vr) w1 (λ r2 w2,
      (∀ k s, secrets w !! k = Some s → secrets w2 !! k = Some s) ∧
      createdOnce w w2 ∧
      (r = Returned None →
       secrets w2 = secrets w1 ∧
       (∃ evs, trace w2 = trace w1 ++ evs ∧ Forall notCreated evs) ∧
       (noFaults 3 w1 → is_Some (nextKeyOf w1) →
        is_Some (nextKeyOf (drawn w1)) → r2 = Returned None)))).
Proof.
  split.
  - pose proof (prepareEtcdTLSSecrets_grows vr w) as Hg.
    pose proof (prepareEtcdTLSSecrets_settles vr w) as Hs.
    pose proof (prepareEtcdTLSSecrets_createdOnce vr w w (createdOnce_refl w)) as Hc.
    unfold wp in Hg, Hs, Hc |- *.
    destruct (prepareEtcdTLSSecrets vr w) as [r w1]. cbn [fst snd] in *.
    pose proof (prepareEtcdTLSSecrets_grows vr w1) as Hg2.
    pose proof (prepareEtcdTLSSecrets_createdOnce vr w w1 Hc) as Hc2.
    unfold wp in Hg2, Hc2.
    destruct (prepareEtcdTLSSecrets vr w1) as [r2 w2] eqn:Hrun2.
    cbn [fst snd] in *.
    destruct Hg as (caKey & Hkeep & _). destruct Hg2 as (caKey2 & Hkeep2 & _).
    split_and!; [by auto|done|].
    intros ->. specialize (Hs eq_refl).
    rewrite (prepareEtcdTLSSecrets_settled_run vr w1 Hs) in Hrun2.
    injection Hrun2 as <- <-. split_and!.
    + done.
    + eexists [_]. split; [done|]. by repeat constructor.
    + by intros ->.
  - pose proof (prepareDefaultVaultTLSSecrets_grows vr w) as Hg.
    pose proof (prepareDefaultVaultTLSSecrets_settles vr w) as Hs.
    pose proof (prepareDefaultVaultTLSSecrets_returned vr w) as Hret.
    pose proof (prepareDefaultVaultTLSSecrets_createdOnce vr w w
                  (createdOnce_refl w)) as Hc.
    unfold wp in Hg, Hs, Hret, Hc |- *.
    destruct (prepareDefaultVaultTLSSecrets vr w) as [r w1]. cbn [fst snd] in *.
    pose proof (prepareDefaultVaultTLSSecrets_grows vr w1) as Hg2.
    pose proof (prepareDefaultVaultTLSSecrets_createdOnce vr w w1 Hc) as Hc2.
    unfold wp in Hg2, Hc2.
    destruct Hg as (caKey & Hkeep & _). destruct Hg2 as (caKey2 & Hkeep2 & _).
    split_and!; [by auto|done|].
    intros ->. specialize (Hs eq_refl). specialize (Hret None eq_refl).
    destruct (prepareDefaultVaultTLSSecrets_idle vr w1 Hs)
      as (Hst & evs & Htr & Hev & _).
    split_and!; [done|by exists evs|].
    intros Hnf [k1 Hk1] [k2 Hk2].
    apply (prepareDefaultVaultTLSSecrets_settled_nil vr w1 k1 k2); done.
Qed.

(** C10. The existence check probes one secret.  With the etcd client
    secret in place prepareEtcdTLSSecrets returns nil after that one get,
    whatever the state of the server and peer secrets, which it leaves as
    they are.  prepareDefaultVaultTLSSecrets checks only when TLS is
    configured, and then gets the server secret the spec names first,
    returning nil when it finds it; when TLS is not configured it makes no
    get call and draws a CA key first, and with both default secrets in
    place it still draws its keys, has both creations refused and returns
    nil. *)
Theorem C10_existence_check_is_one_probe `{Helpers} (vr : VaultService)
    (w : World) :
  let ns := vrNamespace vr in
  (is_Some (secrets w !! (ns, EtcdClientTLSSecretName (vrName vr))) →
   dueFault w = None →
   prepareEtcdTLSSecrets vr w =
     (None, advance w (secrets w)
              (APICall VerbGet ns (EtcdClientTLSSecretName (vrName vr)) None))) ∧
  (∀ serverSecret,
     IsTLSConfigured (TLS (Spec vr)) = true →
     specServerSecret vr = Some serverSecret →
     wp (prepareDefaultVaultTLSSecrets vr) w (λ _ w1,
       probes ns serverSecret w w1) ∧
     (is_Some (secrets w !! (ns, serverSecret)) → dueFault w = None →
      prepareDefaultVaultTLSSecrets vr w =
        (Returned None,
         advance w (secrets w) (APICall VerbGet ns serverSecret None)))) ∧
  (IsTLSConfigured (TLS (Spec vr)) = false →
   wp (prepareDefaultVaultTLSSecrets vr) w (λ _ w1, generates w w1) ∧
   ∀ caKey key,
     vaultDefaultsExist vr w → noFaults 2 w →
     nextKeyOf w = Some caKey → nextKeyOf (drawn w) = Some key →
     wp (prepareDefaultVaultTLSSecrets vr) w (λ r w1,
       r = Returned None ∧ secrets w1 = secrets w ∧
       entropy w1 = tail (tail (entropy w)))).
Proof.
  intros ns. split_and!.
  - intros Hse Hdue.
    rewrite (prepareEtcdTLSSecrets_settled_run vr w Hse). by rewrite Hdue.
  - intros serverSecret Hconf Hspec. split.
    + by apply prepareDefaultVaultTLSSecrets_probes.
    + intros Hse Hdue.
      rewrite (prepareDefaultVaultTLSSecrets_settled_run vr w serverSecret)
        by done.
      by rewrite Hdue.
  - intros Hconf. split.
    + by apply prepareDefaultVaultTLSSecrets_generates.
    + intros caKey key Hex Hnf Hca Hkey.
      eapply wp_mono;
        [|by apply (prepareDefaultVaultTLSSecrets_exists_run vr w caKey key)].
      intros r w1 (-> & Hst & Hen). done.
Qed.

(** ** The theorems at work on the example cluster *)

Ltac by_running := vm_compute; reflexivity.

Lemma C4_san_lists_witness :
  (∃ crt, certificates (secretOf exVaultServer) !! "server.crt" = Some crt ∧
          CertDNSNames crt =
            ["localhost"; "*.default.pod"; "example.default.svc"]) ∧
  (∃ crt, certificates (secretOf exEtcdServer) !! "server.crt" = Some crt ∧
          CertDNSNames crt =
            ["localhost";
             "*.example-etcd.default.svc";
             "example-etcd-client";
             "example-etcd-client.default";
             "example-etcd-client.default.svc";
             "*.example-etcd.default.svc.cluster.local";
             "example-etcd-client.default.svc.cluster.local"]) ∧
  (∃ crt, certificates (secretOf exEtcdPeer) !! "peer.crt" = Some crt ∧
          CertDNSNames crt =
            ["*.example-etcd.default.svc";
             "*.example-etcd.default.svc.cluster.local"] ∧
          "localhost" ∉ CertDNSNames crt).
Proof.
  split_and!.
  - apply (proj1 (@C4_san_lists specHelpers vr0 caKey0 (caCertFor caKey0)
                    w0 exVaultServer.2 (secretOf exVaultServer))).
    by_running.
  - apply (proj1 (proj2 (@C4_san_lists specHelpers vr0 caKey0 (caCertFor caKey0)
                    w0 exEtcdServer.2 (secretOf exEtcdServer)))).
    by_running.
  - apply (proj2 (proj2 (@C4_san_lists specHelpers vr0 caKey0 (caCertFor caKey0)
                    w0 exEtcdPeer.2 (secretOf exEtcdPeer)))).
    by_running.
Defined.

Lemma C8_etcd_data_keys_witness :
  (dom (Data (secretOf exEtcdClient))
   = ({[ "etcd-client.key"; "etcd-client.crt"; "etcd-client-ca.crt" ]} : gset string) ∧
   map_Forall (λ _ v, isPEM v = true) (Data (secretOf exEtcdClient))) ∧
  (dom (Data (secretOf exEtcdServer))
   = ({[ "server.key"; "server.crt"; "server-ca.crt" ]} : gset string) ∧
   map_Forall (λ _ v, isPEM v = true) (Data (secretOf exEtcdServer))) ∧
  (dom (Data (secretOf exEtcdPeer))
   = ({[ "peer.key"; "peer.crt"; "peer-ca.crt" ]} : gset string) ∧
   map_Forall (λ _ v, isPEM v = true) (Data (secretOf exEtcdPeer))).
Proof.
  split_and!.
  - apply (proj1 (@C8_etcd_data_keys specHelpers vr0 caKey0 (caCertFor caKey0)
                    w0 exEtcdClient.2 (secretOf exEtcdClient))).
    by_running.
  - apply (proj1 (@C8_etcd_data_keys specHelpers vr0 caKey0 (caCertFor caKey0)
                    w0 exEtcdClient.2 (secretOf exEtcdClient))).
    by_running.
  - apply (proj1 (proj2 (@C8_etcd_data_keys specHelpers vr0 caKey0 (caCertFor caKey0)
                    w0 exEtcdServer.2 (secretOf exEtcdServer)))).
    by_running.
  - apply (proj1 (proj2 (@C8_etcd_data_keys specHelpers vr0 caKey0 (caCertFor caKey0)
                    w0 exEtcdServer.2 (secretOf exEtcdServer)))).
    by_running.
  - apply (proj2 (proj2 (@C8_etcd_data_keys specHelpers vr0 caKey0 (caCertFor caKey0)
                    w0 exEtcdPeer.2 (secretOf exEtcdPeer)))).
    by_running.
  - apply (proj2 (proj2 (@C8_etcd_data_keys specHelpers vr0 caKey0 (caCertFor caKey0)
                    w0 exEtcdPeer.2 (secretOf exEtcdPeer)))).
    by_running.
Defined.

Lemma C7_tls_round_trip_witness :
  (∃ s, secrets wEtcd !! nsName "example-etcd-server-tls" = Some s ∧ validates s) ∧
  (∃ s, secrets wBoth !! nsName "example-default-vault-server-tls" = Some s ∧
        validates s).
Proof.
  split.
  - eexists. split; [by_running|].
    apply (proj1 (@C7_tls_round_trip specHelpers vr0 w0)
             (nsName "example-etcd-server-tls")); by_running.
  - eexists. split; [by_running|].
    apply (proj2 (@C7_tls_round_trip specHelpers vr0 wEtcd)
             (nsName "example-default-vault-server-tls")); by_running.
Defined.

Lemma C9_owned_and_never_updated_witness :
  (∃ s, secrets wVault !! nsName "example-default-vault-client-tls" = Some s ∧
        secrets (@prepareEtcdTLSSecrets specHelpers vr0 wVault).2
          !! nsName "example-default-vault-client-tls" = Some s) ∧
  (∃ s, secrets (@prepareEtcdTLSSecrets specHelpers vr0 wVault).2
          !! nsName "example-etcd-peer-tls" = Some s ∧
        @AsOwner specHelpers vr0 ∈ OwnerReferences (SecretMeta s)) ∧
  (∃ s, secrets wEtcd !! nsName "example-etcd-client-tls" = Some s ∧
        secrets wBoth !! nsName "example-etcd-client-tls" = Some s) ∧
  (∃ s, secrets wBoth !! nsName "example-default-vault-client-tls" = Some s ∧
        @AsOwner specHelpers vr0 ∈ OwnerReferences (SecretMeta s)) ∧
  (∃ s, secrets (@cleanupEtcdTLSSecrets specHelpers vr0 wBoth).2
          !! nsName "example-default-vault-server-tls" = Some s ∧
        secrets wBoth !! nsName "example-default-vault-server-tls" = Some s) ∧
  (∃ s, secrets (@cleanupDefaultVaultTLSSecrets specHelpers vr0 wBoth).2
          !! nsName "example-etcd-server-tls" = Some s ∧
        secrets wBoth !! nsName "example-etcd-server-tls" = Some s).
Proof.
  pose proof (@C9_owned_and_never_updated specHelpers vr0 wVault)
    as ((Hkeep1 & Hown1 & _) & _).
  pose proof (@C9_owned_and_never_updated specHelpers vr0 wEtcd)
    as (_ & (Hkeep2 & Hown2 & _) & _).
  pose proof (@C9_owned_and_never_updated specHelpers vr0 wBoth)
    as (_ & _ & (Hsub3 & _) & (Hsub4 & _)).
  split_and!.
  - eexists. split; [by_running|]. apply Hkeep1. by_running.
  - eexists. split; [by_running|].
    apply (Hown1 (nsName "example-etcd-peer-tls")); by_running.
  - eexists. split; [by_running|]. apply Hkeep2. by_running.
  - eexists. split; [by_running|].
    apply (Hown2 (nsName "example-default-vault-client-tls")); by_running.
  - eexists. split; [by_running|]. apply Hsub3. by_running.
  - eexists. split; [by_running|]. apply Hsub4. by_running.
Defined.

Lemma C5_cleanup_tolerates_not_found_witness :
  ((@cleanupEtcdTLSSecrets specHelpers vr0 wVault).1 = None ∧
   secrets (@cleanupEtcdTLSSecrets specHelpers vr0 wBoth).2
     !! nsName "example-etcd-peer-tls" = None ∧
   ∃ name f, (@cleanupEtcdTLSSecrets specHelpers vr0 wForbidden).1 =
               Some (errorString ("cleanup TLS secrets failed: delete secret ("
                                    +:+ name +:+ ") failed: " +:+ Error (faultError f)))) ∧
  ((@cleanupDefaultVaultTLSSecrets specHelpers vr0 wEtcd).1 = None ∧
   secrets (@cleanupDefaultVaultTLSSecrets specHelpers vr0 wBoth).2
     !! nsName "example-default-vault-client-tls" = None ∧
   ∃ name f, (@cleanupDefaultVaultTLSSecrets specHelpers vr0 wForbidden).1 =
               Some (errorString ("cleanup vault TLS secrets failed: delete secret ("
                                    +:+ name +:+ ") failed: " +:+ Error (faultError f)))).
Proof.
  pose proof (proj1 (@C5_cleanup_tolerates_not_found specHelpers vr0 wVault))
    as (HnfE & _ & _).
  pose proof (proj1 (@C5_cleanup_tolerates_not_found specHelpers vr0 wBoth))
    as (_ & HgoneE & _).
  pose proof (proj1 (@C5_cleanup_tolerates_not_found specHelpers vr0 wForbidden))
    as (_ & _ & HfailE).
  pose proof (proj2 (@C5_cleanup_tolerates_not_found specHelpers vr0 wEtcd))
    as (HnfV & _ & _).
  pose proof (proj2 (@C5_cleanup_tolerates_not_found specHelpers vr0 wBoth))
    as (_ & HgoneV & _).
  pose proof (proj2 (@C5_cleanup_tolerates_not_found specHelpers vr0 wForbidden))
    as (_ & _ & HfailV).
  split; split_and!.
  - apply HnfE. unfold noFaults. vm_compute. constructor.
  - apply HgoneE; [by_running|].
    apply list_elem_of_further, list_elem_of_further, list_elem_of_here.
  - edestruct HfailE as (name & f & _ & _ & _ & Herr); [by_running|].
    exists name, f. etransitivity; [by_running|]. f_equal. exact Herr.
  - apply HnfV. unfold noFaults. vm_compute. constructor.
  - apply HgoneV; [by_running|].
    apply list_elem_of_further, list_elem_of_here.
  - edestruct HfailV as (name & f & _ & _ & _ & Herr); [by_running|].
    exists name, f. etransitivity; [by_running|]. f_equal. exact Herr.
Defined.

Lemma C2_prepare_twice_witness :
  secrets (@prepareEtcdTLSSecrets specHelpers vr0 wEtcd).2 = secrets wEtcd ∧
  (@prepareEtcdTLSSecrets specHelpers vr0 wEtcd).1 = None ∧
  secrets (@prepareDefaultVaultTLSSecrets specHelpers vr0 wVault).2 = secrets wVault ∧
  (@prepareDefaultVaultTLSSecrets specHelpers vr0 wVault).1 = Returned None.
Proof.
  pose proof (proj1 (@C2_prepare_twice specHelpers vr0 w0)) as HE.
  pose proof (proj2 (@C2_prepare_twice specHelpers vr0 w0)) as HV.
  unfold wp in HE, HV.
  destruct HE as (_ & _ & HE). destruct HV as (_ & _ & HV).
  split_and!.
  - apply HE. by_running.
  - apply HE; by_running.
  - apply HV. by_running.
  - apply HV; [by_running| |eexists; by_running|eexists; by_running].
    unfold noFaults. vm_compute. constructor.
Defined.

Lemma C10_existence_check_is_one_probe_witness :
  ((@prepareEtcdTLSSecrets specHelpers vr0 wPartial).1 = None ∧
   secrets wPartial !! nsName "example-etcd-server-tls" = None ∧
   secrets (@prepareEtcdTLSSecrets specHelpers vr0 wPartial).2
     !! nsName "example-etcd-server-tls" = None) ∧
  (@prepareDefaultVaultTLSSecrets specHelpers vrStatic wStatic).1 = Returned None ∧
  probes "default" "my-server-tls" w0
    (@prepareDefaultVaultTLSSecrets specHelpers vrStatic w0).2 ∧
  generates wVault (@prepareDefaultVaultTLSSecrets specHelpers vr0 wVault).2 ∧
  (@prepareDefaultVaultTLSSecrets specHelpers vr0 wVault).1 = Returned None.
Proof.
  pose proof (@C10_existence_check_is_one_probe specHelpers vr0 wPartial)
    as (Hetcd & _ & _).
  pose proof (@C10_existence_check_is_one_probe specHelpers vrStatic wStatic)
    as (_ & Hstatic & _).
  pose proof (@C10_existence_check_is_one_probe specHelpers vrStatic w0)
    as (_ & Hprobe & _).
  pose proof (@C10_existence_check_is_one_probe specHelpers vr0 wVault)
    as (_ & _ & Hnone).
  assert (is_Some (secrets wPartial !! nsName "example-etcd-client-tls")) as Hclient.
  { eexists. by_running. }
  specialize (Hetcd Hclient eq_refl).
  destruct (Hstatic "my-server-tls" eq_refl eq_refl) as [_ Hfound].
  destruct (Hprobe "my-server-tls" eq_refl eq_refl) as [Hprobes _].
  destruct (Hnone eq_refl) as [Hgen Hexists].
  split_and!.
  - by rewrite Hetcd.
  - by_running.
  - by rewrite Hetcd.
  - rewrite Hfound; [done| |done]. eexists. by_running.
  - exact Hprobes.
  - exact Hgen.
  - refine (proj1 (Hexists {| keyMaterial := 13 |} {| keyMaterial := 14 |}
                     _ _ eq_refl eq_refl)).
    + split; eexists; by_running.
    + unfold noFaults. vm_compute. constructor.
Defined.

(** C1, as stated, fails: for the example cluster the etcd certificates
    and the vault server certificate are signed by two different CAs. *)
Lemma C1_counterexample_two_CAs : ¬ signedByOneCA "default" wBoth.
Proof.
  intros (ca & Hca).
  assert (∃ s crt,
            secrets wBoth !! ("default", "example-etcd-client-tls") = Some s ∧
            certificates s !! "etcd-client.crt" = Some crt ∧
            IsCA crt = false ∧
            SignedWith crt = Public {| keyMaterial := 11 |})
    as (s1 & crt1 & Hs1 & Hcrt1 & Hleaf1 & Hsig1).
  { eexists _, _. split_and!; by_running. }
  assert (∃ s crt,
            secrets wBoth !! ("default", "example-default-vault-server-tls") = Some s ∧
            certificates s !! "server.crt" = Some crt ∧
            IsCA crt = false ∧
            SignedWith crt = Public {| keyMaterial := 21 |})
    as (s2 & crt2 & Hs2 & Hcrt2 & Hleaf2 & Hsig2).
  { eexists _, _. split_and!; by_running. }
  pose proof (Hca _ _ _ _ Hs1 Hcrt1 Hleaf1) as H1.
  pose proof (Hca _ _ _ _ Hs2 Hcrt2 Hleaf2) as H2.
  unfold CheckSignatureFrom in H1, H2.
  apply andb_prop in H1 as [_ H1]. apply andb_prop in H2 as [_ H2].
  apply bool_decide_eq_true_1 in H1. apply bool_decide_eq_true_1 in H2.
  rewrite Hsig1 in H1. rewrite Hsig2 in H2. rewrite <- H1 in H2. discriminate.
Qed.

(** * Rolling upgrade: invariants and progress *)

Module UpgradeFacts.
Import Upgrade.
Local Open Scope nat_scope.

Lemma count_app p l1 l2 : count p (l1 ++ l2) = count p l1 + count p l2.
Proof. induction l1 as [|n l1 IH]; simpl; [done|]. rewrite IH. lia. Qed.

Lemma count_filter p l : count p l = length (List.filter p l).
Proof.
  induction l as [|n l IH]; simpl; [done|]. destruct (p n); simpl; lia.
Qed.

Lemma pick_Some p l l1 n l2 :
  pick p l = Some (l1, n, l2) → l = l1 ++ n :: l2 ∧ p n = true.
Proof.
  revert l1. induction l as [|m l IH]; intros l1; simpl; [done|].
  destruct (p m) eqn:Hm.
  - by intros [= <- <- <-].
  - destruct (pick p l) as [[[l1' m'] l2']|]; [|done].
    intros [= <- <- <-]. destruct (IH _ eq_refl) as [-> Hp]. done.
Qed.

Lemma pick_None p l : pick p l = None → count p l = 0.
Proof.
  induction l as [|m l IH]; simpl; [done|].
  destruct (p m); [done|].
  destruct (pick p l) as [[[l1' m'] l2']|]; [done|]. auto.
Qed.

Lemma count_roles l :
  count isSealed l + count isActive l + count isStandby l = length l.
Proof.
  induction l as [|n l IH]; simpl; [done|].
  unfold isSealed, isActive, isStandby in *. destruct (nodeRole n); simpl; lia.
Qed.

Lemma count_unsealed l : count isSealed l + count isUnsealed l = length l.
Proof.
  induction l as [|n l IH]; simpl; [done|].
  change (isUnsealed n) with (negb (isSealed n)).
  destruct (isSealed n); simpl; lia.
Qed.

Lemma count_versions desired l :
  count (isNew desired) l + count (isOld desired) l = length l.
Proof.
  induction l as [|n l IH]; simpl; [done|].
  change (isOld desired n) with (negb (isNew desired n)).
  destruct (isNew desired n); simpl; lia.
Qed.

(** How a member counts, by role and version. *)
Ltac by_role n :=
  unfold isUnsealed, isOld, isSealed, isActive, isStandby in *;
  destruct (nodeRole n); simpl in *; try done; try lia.

Lemma upgradeState_Stable desired c :
  upgradeState desired c = Stable →
  nodes desired ≤ length (members c) ∧ count isSealed (members c) = 0.
Proof. unfold upgradeState. repeat case_bool_decide; try done; lia. Qed.

Lemma next_step desired c c1 : next desired c = Some c1 → step desired c c1.
Proof.
  unfold next. destruct (upgradeState desired c) eqn:Hstate.
  - destruct (pick (isOld desired) (members c)) as [[[l1 n] l2]|] eqn:Hold;
      [|done].
    intros [= <-]. apply pick_Some in Hold as [Hm Hn].
    apply upgradeState_Stable in Hstate as [Hlen Hse].
    apply (step_teardown desired c l1 n l2); [done..|].
    pose proof (count_unsealed (members c)). lia.
  - intros [= <-]. apply step_create.
    unfold upgradeState in Hstate. case_bool_decide as Hlen.
    + pose proof (count_versions desired (members c)). lia.
    + repeat case_bool_decide; done.
  - destruct (pick isSealed (members c)) as [[[l1 n] l2]|] eqn:Hsealed; [|done].
    intros [= <-]. apply pick_Some in Hsealed as [Hm Hn]. by apply step_unseal.
  - destruct (pick isStandby (members c)) as [[[l1 n] l2]|] eqn:Hst; [|done].
    intros [= <-]. apply pick_Some in Hst as [Hm Hn]. apply step_promote; [|done..].
    unfold upgradeState in Hstate. repeat case_bool_decide; done.
  - done.
Qed.

Lemma isNew_desired desired o r :
  isNew desired (mkNode o (version desired) r) = true.
Proof. unfold isNew. simpl. by rewrite bool_decide_eq_true_2. Qed.

Lemma step_invariant desired c c1 :
  invariant desired c → step desired c c1 → invariant desired c1.
Proof.
  unfold invariant. intros (Hun & Hact & Hnew) Hstep.
  destruct Hstep as [c l1 n l2 Hm Hold Hguard|c Hfew|c l1 n l2 Hm Hn
                    |c l1 n l2 Hnone Hm Hn]; cbn [members].
  - rewrite Hm in Hun, Hact, Hnew, Hguard.
    rewrite ?count_app in *. cbn [count] in *.
    assert (isNew desired n = false) as Hnn.
    { unfold isOld in Hold. by destruct (isNew desired n). }
    rewrite Hnn in Hnew. split_and!.
    + destruct (isUnsealed n); lia.
    + destruct (isActive n); lia.
    + lia.
  - rewrite ?count_app. cbn [count]. rewrite isNew_desired.
    change (isUnsealed (mkNode (nextOrdinal c) (version desired) Sealed))
      with false.
    change (isActive (mkNode (nextOrdinal c) (version desired) Sealed))
      with false.
    split_and!; lia.
  - rewrite Hm in Hun, Hact, Hnew. rewrite ?count_app in *. cbn [count] in *.
    change (isNew desired (setRole Standby n)) with (isNew desired n).
    change (isUnsealed (setRole Standby n)) with true.
    change (isActive (setRole Standby n)) with false.
    split_and!; [|by_role n|lia].
    destruct (isUnsealed n); lia.
  - rewrite Hm in Hun, Hact, Hnew, Hnone.
    rewrite ?count_app in *. cbn [count] in *.
    change (isNew desired (setRole Active n)) with (isNew desired n).
    change (isUnsealed (setRole Active n)) with true.
    change (isActive (setRole Active n)) with true.
    split_and!; [|by_role n|lia].
    destruct (isUnsealed n); lia.
Qed.

Lemma initial_invariant desired c : initial desired c → invariant desired c.
Proof.
  intros (Hlen & Hse & Hact). unfold invariant.
  pose proof (count_unsealed (members c)).
  pose proof (count_versions desired (members c)).
  split_and!; lia.
Qed.

Lemma reachable_invariant desired c0 c :
  initial desired c0 → rtc (step desired) c0 c → invariant desired c.
Proof.
  intros Hinit Hsteps. apply initial_invariant in Hinit.
  induction Hsteps as [|c0 c1 c Hstep _ IH]; [done|].
  apply IH. by eapply step_invariant.
Qed.

Lemma step_measure desired c c1 :
  step desired c c1 → measure desired c1 < measure desired c.
Proof.
  unfold measure. intros Hstep.
  destruct Hstep as [c l1 n l2 Hm Hold Hguard|c Hfew|c l1 n l2 Hm Hn
                    |c l1 n l2 Hnone Hm Hn]; cbn [members].
  - rewrite Hm. rewrite !count_app. cbn [count]. rewrite Hold.
    assert (isNew desired n = false) as Hnn.
    { unfold isOld in Hold. by destruct (isNew desired n). }
    rewrite Hnn.
    repeat case_bool_decide; destruct (isSealed n), (isActive n); lia.
  - rewrite !count_app. cbn [count]. rewrite isNew_desired.
    unfold isOld at 2. rewrite isNew_desired.
    change (isSealed (mkNode (nextOrdinal c) (version desired) Sealed)) with true.
    change (isActive (mkNode (nextOrdinal c) (version desired) Sealed)) with false.
    cbn [negb]. repeat case_bool_decide; lia.
  - rewrite Hm. rewrite !count_app. cbn [count]. rewrite Hn.
    assert (isActive n = false) as Hna by by_role n.
    rewrite Hna.
    change (isNew desired (setRole Standby n)) with (isNew desired n).
    change (isOld desired (setRole Standby n)) with (isOld desired n).
    change (isSealed (setRole Standby n)) with false.
    change (isActive (setRole Standby n)) with false.
    repeat case_bool_decide; lia.
  - rewrite Hm in Hnone |- *. rewrite !count_app in *. cbn [count] in *.
    assert (isSealed n = false ∧ isActive n = false) as [Hns Hna]
      by (split; by_role n).
    rewrite Hns, Hna in *.
    change (isNew desired (setRole Active n)) with (isNew desired n).
    change (isOld desired (setRole Active n)) with (isOld desired n).
    change (isSealed (setRole Active n)) with false.
    change (isActive (setRole Active n)) with true.
    repeat case_bool_decide; lia.
Qed.

Lemma Complete_upgraded desired c :
  invariant desired c → upgradeState desired c = Complete → upgraded desired c.
Proof.
  unfold invariant, upgraded, upgradeState.
  intros (Hun & Hact & Hnew).
  pose proof (count_versions desired (members c)).
  repeat case_bool_decide; try done.
  intros _. split_and!; lia.
Qed.

Lemma next_None_Complete desired c :
  1 ≤ nodes desired → next desired c = None →
  upgradeState desired c = Complete.
Proof.
  unfold next. intros HN.
  destruct (upgradeState desired c) eqn:Hstate; try done.
  - destruct (pick (isOld desired) (members c)) as [[[l1 n] l2]|] eqn:Hold;
      [done|].
    apply pick_None in Hold. unfold upgradeState in Hstate.
    repeat case_bool_decide; done.
  - destruct (pick isSealed (members c)) as [[[l1 n] l2]|] eqn:Hsealed; [done|].
    apply pick_None in Hsealed. unfold upgradeState in Hstate.
    repeat case_bool_decide; done.
  - destruct (pick isStandby (members c)) as [[[l1 n] l2]|] eqn:Hst; [done|].
    apply pick_None in Hst. unfold upgradeState in Hstate.
    pose proof (count_roles (members c)).
    repeat case_bool_decide; try done. lia.
Qed.

Lemma run_reaches desired c fuel : rtc (step desired) c (run desired fuel c).
Proof.
  revert c. induction fuel as [|fuel IH]; intros c; simpl; [done|].
  destruct (next desired c) as [c1|] eqn:Hnext; [|done].
  eapply rtc_l; [by apply next_step|apply IH].
Qed.

Lemma run_upgraded desired c fuel :
  1 ≤ nodes desired → invariant desired c → measure desired c ≤ fuel →
  upgraded desired (run desired fuel c).
Proof.
  intros HN. revert c. induction fuel as [|fuel IH]; intros c Hinv Hfuel; simpl.
  - destruct (next desired c) as [c1|] eqn:Hnext.
    + apply next_step, step_measure in Hnext. lia.
    + by eapply Complete_upgraded, next_None_Complete.
  - destruct (next desired c) as [c1|] eqn:Hnext.
    + pose proof (next_step _ _ _ Hnext) as Hstep.
      apply IH; [by eapply step_invariant|].
      apply step_measure in Hstep. lia.
    + by eapply Complete_upgraded, next_None_Complete.
Qed.

Lemma stuck_upgraded desired c :
  1 ≤ nodes desired → invariant desired c → (∀ c1, ¬ step desired c c1) →
  upgraded desired c.
Proof.
  intros HN Hinv Hstuck.
  eapply Complete_upgraded, next_None_Complete; [done..|].
  destruct (next desired c) as [c1|] eqn:Hnext; [|done].
  by apply next_step, Hstuck in Hnext.
Qed.

Lemma unsealed_observed desired c :
  2 ≤ nodes desired → invariant desired c →
  (activeNode (observe c) ≠ None ∨ standbyNodes (observe c) ≠ []) ∧
  sealedNodes (observe c) ≠ allNodes c.
Proof.
  unfold invariant. intros HN (Hun & Hact & Hnew).
  pose proof (count_roles (members c)) as Hroles.
  pose proof (count_unsealed (members c)) as Hunsealed.
  assert (1 ≤ count isActive (members c) + count isStandby (members c)) as Hone
    by lia.
  split.
  - unfold observe, ordinalsOf. simpl.
    destruct (List.filter isActive (members c)) as [|a la] eqn:Ha; [|by left].
    right. rewrite (count_filter isActive), Ha in Hone. simpl in Hone.
    rewrite count_filter in Hone.
    destruct (List.filter isStandby (members c)); simpl in *; [lia|done].
  - unfold observe, allNodes, ordinalsOf. simpl. intros Heq.
    apply (f_equal length) in Heq. rewrite !length_fmap in Heq.
    rewrite <- count_filter in Heq. lia.
Qed.

(** C3. During a rolling upgrade of a cluster of two or more nodes, in
    every state the cluster can reach a node is observed unsealed (the
    sealed nodes are never all the nodes) and at most one node torn down
    is out of service; every step brings the end nearer; a cluster in which
    nothing more can happen has all its nodes on the new version, unsealed,
    one of them active, and no node on an old version; and the
    one-at-a-time schedule gets there. *)
Theorem C3_rolling_upgrade (desired : ClusterSpec) (c0 c : Cluster) :
  2 ≤ nodes desired → initial desired c0 → rtc (step desired) c0 c →
  ((activeNode (observe c) ≠ None ∨ standbyNodes (observe c) ≠ []) ∧
   sealedNodes (observe c) ≠ allNodes c) ∧
  outOfService desired c ≤ 1 ∧
  (∀ c1, step desired c c1 → measure desired c1 < measure desired c) ∧
  ((∀ c1, ¬ step desired c c1) → upgraded desired c) ∧
  (rtc (step desired) c (run desired (measure desired c) c) ∧
   upgraded desired (run desired (measure desired c) c)).
Proof.
  intros HN Hinit Hsteps.
  pose proof (reachable_invariant desired c0 c Hinit Hsteps) as Hinv.
  split_and!.
  - by eapply unsealed_observed.
  - by eapply unsealed_observed.
  - unfold outOfService. destruct Hinv as (Hun & _). lia.
  - intros c1. apply step_measure.
  - apply stuck_upgraded; [lia|done].
  - apply run_reaches.
  - apply run_upgraded; [lia|done|done].
Qed.

(** The run the end-to-end test observes: the standby is torn down, two
    new nodes come up sealed, and once they are unsealed the old active
    node goes and a new node is promoted. *)
Lemma twoSealed_reachable : rtc (step newVersion) twoNodes twoSealed.
Proof.
  eapply rtc_l.
  { apply (step_teardown newVersion twoNodes [mkNode 0 "0.9.1-0" Active]
             (mkNode 1 "0.9.1-0" Standby) []); [reflexivity..|simpl; lia]. }
  eapply rtc_l; [apply step_create; simpl; lia|].
  eapply rtc_l; [apply step_create; simpl; lia|].
  apply rtc_refl.
Qed.

Lemma C3_rolling_upgrade_witness :
  let final := run newVersion (measure newVersion twoSealed) twoSealed in
  sealedNodes (observe twoSealed) = [2; 3] ∧
  activeNode (observe twoSealed) = Some 0 ∧
  sealedNodes (observe twoSealed) ≠ allNodes twoSealed ∧
  outOfService newVersion twoSealed = 1 ∧
  upgraded newVersion final ∧
  members final = [mkNode 2 "0.9.1-1" Active; mkNode 3 "0.9.1-1" Standby].
Proof.
  intros final.
  destruct (C3_rolling_upgrade newVersion twoNodes twoSealed)
    as ((_ & Hsealed) & _ & _ & _ & _ & Hup).
  - simpl. lia.
  - unfold initial. simpl. split_and!; [done..|lia].
  - apply twoSealed_reachable.
  - split_and!;
      [reflexivity|reflexivity|exact Hsealed|reflexivity|exact Hup|reflexivity].
Defined.
End UpgradeFacts.

(** * Further properties of tls.go *)

(** ** When a prepare operation succeeds *)

Lemma ready_draw f k w :
  ready f (S k) w ↔ is_Some (nextKeyOf w) ∧ ready f k (drawn w).
Proof.
  unfold ready, keysAvailable, noFaults, nextKeyOf, drawn. simpl.
  destruct (entropy w) as [|e es]; simpl.
  - split; [intros (_ & Hle & _); lia|intros ([? [=]] & _)].
  - rewrite Forall_cons. split.
    + intros (Hf & Hle & He & Hes). split_and!; [done..|lia|done].
    + intros (He & Hf & Hle & Hes). split_and!; [done|lia|done..].
Qed.

Lemma ready_call f k w st ev :
  ready (S f) k w ↔ dueFault w = None ∧ ready f k (advance w st ev).
Proof.
  unfold ready. rewrite (noFaults_step f w (advance w st ev) st ev eq_refl).
  unfold keysAvailable. simpl. tauto.
Qed.

Lemma ready_0 w : ready 0 0 w.
Proof.
  split; [apply noFaults_0|]. split; [simpl; lia|]. by rewrite take_0.
Qed.

Lemma cause_call f w st ev err :
  cause f (advance w st ev) err → cause (S f) w err.
Proof.
  intros [(flt & Hin & ->)|Hrand]; [left|by right].
  exists flt. split; [|done]. by eapply In_take_advance.
Qed.

Lemma cause_drawn f w err : cause f (drawn w) err → cause f w err.
Proof. done. Qed.

Lemma verdict_call f k w st ev r :
  dueFault w = None → verdict f k (advance w st ev) r → verdict (S f) k w r.
Proof.
  intros Hdue [Hiff Hcause]. split.
  - rewrite Hiff, (ready_call f k w st ev). tauto.
  - intros err Herr. eapply cause_call, Hcause, Herr.
Qed.

Lemma verdict_fault f k w flt :
  dueFault w = Some flt → verdict (S f) k w (Some (faultError flt)).
Proof.
  intros Hdue. split.
  - split; [done|]. intros [Hno _].
    apply noFaults_S in Hno as [Hnone _]. congruence.
  - intros err [= <-]. left. exists flt. split; [|done]. by apply dueFault_In.
Qed.

Lemma verdict_draw f k w r key :
  nextKeyOf w = Some key → verdict f k (drawn w) r → verdict f (S k) w r.
Proof.
  intros Hkey [Hiff Hcause]. split.
  - rewrite Hiff, ready_draw, Hkey. split; [|tauto]. by split.
  - intros err Herr. eapply cause_drawn, Hcause, Herr.
Qed.

Lemma verdict_nokey f k w err :
  nextKeyOf w = None →
  err = randError ∨ err = Errorf "new TLS secret failed: " randError →
  verdict f (S k) w (Some err).
Proof.
  intros Hkey Herr. split.
  - split; [done|]. rewrite ready_draw, Hkey. by intros [[? [=]] _].
  - intros err' Herr'. simplify_eq. by right.
Qed.

Lemma verdict_0 w : verdict 0 0 w None.
Proof. split; [|done]. split; [intros _; apply ready_0|done]. Qed.

Section Verdicts.
Context `{Helpers}.

Lemma wp_create_verdict namespace se m f k w :
  (∀ w1, wp m w1 (λ r _, verdict f k w1 r)) →
  wp (createOrReturn namespace se m) w (λ r _, verdict (S f) k w r).
Proof.
  intros Hm. apply wp_createOrReturn.
  - intros w1 flt Hdue _. by apply verdict_fault.
  - intros w1 Hdue ->. eapply wp_mono; [|apply Hm].
    intros r ?. by apply verdict_call.
Qed.

Lemma wp_new_verdict vr caKey caCrt cn name addrs fieldMap cont f k w :
  (∀ se w1, wp (cont se) w1 (λ r _, verdict f k w1 r)) →
  wp (orReturn (newTLSSecret vr caKey caCrt cn name addrs fieldMap) cont) w
     (λ r _, verdict f (S k) w r).
Proof.
  intros Hcont. apply wp_orReturn, wp_newTLSSecret. intros w1 ->.
  destruct (nextKeyOf w) as [key|] eqn:Hkey.
  - eapply wp_mono; [|apply Hcont]. intros r ?. by eapply verdict_draw.
  - apply verdict_nokey; [done|by right].
Qed.

Lemma wp_ca_verdict cont f k w :
  (∀ ca w1, wp (cont ca) w1 (λ r _, verdict f k w1 r)) →
  wp (orReturn newCACert cont) w (λ r _, verdict f (S k) w r).
Proof.
  intros Hcont. apply wp_orReturn, wp_newCACert. intros w1 ->.
  destruct (nextKeyOf w) as [key|] eqn:Hkey.
  - eapply wp_mono; [|apply Hcont]. intros r ?. by eapply verdict_draw.
  - apply verdict_nokey; [done|by left].
Qed.

Lemma createEtcdTLSSecrets_verdict vr caKey caCrt w :
  wp (createEtcdTLSSecrets vr caKey caCrt) w (λ r _, verdict 3 3 w r).
Proof.
  unfold createEtcdTLSSecrets, newEtcdClientTLSSecret, newEtcdServerTLSSecret,
    newEtcdPeerTLSSecret.
  apply wp_new_verdict. intros se1 w1. apply wp_create_verdict. intros w2.
  apply wp_new_verdict. intros se2 w3. apply wp_create_verdict. intros w4.
  apply wp_new_verdict. intros se3 w5. apply wp_create_verdict. intros w6.
  apply wp_ret, verdict_0.
Qed.

Lemma createDefaultVaultTLSSecrets_verdict vr caKey caCrt w :
  wp (createDefaultVaultTLSSecrets vr caKey caCrt) w (λ r _, verdict 2 1 w r).
Proof.
  unfold createDefaultVaultTLSSecrets, newVaultServerTLSSecret.
  apply wp_new_verdict. intros se1 w1. apply wp_create_verdict. intros w2.
  apply wp_create_verdict. intros w3. apply wp_ret, verdict_0.
Qed.

Lemma issueDefaultVaultTLSSecrets_verdict vr w :
  wp (issueDefaultVaultTLSSecrets vr) w (λ r _, verdict 2 2 w r).
Proof.
  unfold issueDefaultVaultTLSSecrets. apply wp_ca_verdict.
  intros [caKey caCrt] w1. apply createDefaultVaultTLSSecrets_verdict.
Qed.

Lemma verdict_succeedsWith prefix f k w r :
  verdict f k w r → succeedsWith prefix f k w (deferWrap prefix r).
Proof.
  intros [Hiff Hcause]. split.
  - rewrite <- Hiff. by destruct r.
  - intros err Herr. destruct r as [inner|]; [|done].
    injection Herr as <-. exists inner. split; [done|]. by apply Hcause.
Qed.

Lemma prepareEtcdTLSSecrets_verdict vr w :
  wp (prepareEtcdTLSSecrets vr) w (λ r _,
    match secrets w !! (vrNamespace vr, EtcdClientTLSSecretName (vrName vr)) with
    | Some _ => succeedsWith "prepare TLS secrets failed: " 1 0 w r
    | None => succeedsWith "prepare TLS secrets failed: " 4 4 w r
    end).
Proof.
  unfold prepareEtcdTLSSecrets. apply wp_bind.
  eapply wp_mono with (Q := λ r _,
    match secrets w !! (vrNamespace vr, EtcdClientTLSSecretName (vrName vr)) with
    | Some _ => verdict 1 0 w r
    | None => verdict 4 4 w r
    end).
  { intros r w1 Hv. apply wp_ret. destruct (secrets w !! _);
      by apply verdict_succeedsWith. }
  apply wp_bind, wp_Get. intros w1 ->. unfold getResult.
  destruct (dueFault w) as [flt|] eqn:Hdue.
  { rewrite faultError_not_NotFound. simpl. apply wp_ret.
    destruct (secrets w !! _); by apply verdict_fault. }
  destruct (secrets w !! _) as [se|] eqn:Hget; simpl.
  - apply wp_ret.
    by apply (verdict_call 0 0 w (secrets w) (KeyGenerated None)), verdict_0.
  - eapply wp_mono; [|apply wp_ca_verdict].
    + intros r ? Hv. eapply verdict_call; [done|exact Hv].
    + intros [caKey caCrt] w2. apply createEtcdTLSSecrets_verdict.
Qed.
End Verdicts.

Section VaultVerdict.
Context `{Helpers}.

Lemma prepareDefaultVaultTLSSecrets_verdict vr w :
  wp (prepareDefaultVaultTLSSecrets vr) w (λ r _,
    let prefix := "prepare default vault TLS secrets failed: " in
    if IsTLSConfigured (TLS (Spec vr)) then
      match specServerSecret vr with
      | None => ∃ msg, r = Panicked msg
      | Some serverSecret =>
          ∃ err, r = Returned err ∧
            match secrets w !! (vrNamespace vr, serverSecret) with
            | Some _ => succeedsWith prefix 1 0 w err
            | None => succeedsWith prefix 3 2 w err
            end
      end
    else ∃ err, r = Returned err ∧ succeedsWith prefix 2 2 w err).
Proof.
  unfold prepareDefaultVaultTLSSecrets.
  destruct (IsTLSConfigured _).
  - destruct (specServerSecret vr) as [serverSecret|]; [|apply wp_ret; eauto].
    apply wp_bind, wp_Get. intros w1 ->. unfold getResult.
    destruct (dueFault w) as [flt|] eqn:Hdue.
    { rewrite faultError_not_NotFound. simpl. apply wp_ret.
      eexists. split; [done|].
      destruct (secrets w !! _);
        by apply (verdict_succeedsWith _ _ _ w (Some (faultError flt))),
             verdict_fault. }
    destruct (secrets w !! _) as [se|] eqn:Hget; simpl.
    + apply wp_ret. eexists. split; [done|].
      apply (verdict_succeedsWith _ 1 0 w None).
      by apply (verdict_call 0 0 w (secrets w) (KeyGenerated None)), verdict_0.
    + apply wp_bind. eapply wp_mono; [|apply issueDefaultVaultTLSSecrets_verdict].
      intros r w2 Hv. apply wp_ret. eexists. split; [done|].
      apply (verdict_succeedsWith _ _ _ w r).
      eapply verdict_call; [done|exact Hv].
  - apply wp_bind. eapply wp_mono; [|apply issueDefaultVaultTLSSecrets_verdict].
    intros r w2 Hv. apply wp_ret. eexists. split; [done|].
    by apply (verdict_succeedsWith _ _ _ w r).
Qed.
End VaultVerdict.

(** ** What the operations touch *)

Lemma lookup_without_ne namespace names st k :
  (∀ name, name ∈ names → k ≠ (namespace, name)) →
  without namespace names st !! k = st !! k.
Proof.
  unfold without. revert st.
  induction names as [|n names IH]; intros st Hk; [done|].
  simpl. rewrite IH.
  - apply lookup_delete_ne. intros <-. by eapply Hk; [apply list_elem_of_here|].
  - intros name Hin. by apply Hk, list_elem_of_further.
Qed.

Lemma lookup_without_eq namespace names st name :
  name ∈ names → without namespace names st !! (namespace, name) = None.
Proof. apply foldl_delete_gone. Qed.

Lemma dueFault_lookup w f : dueFault w = Some f → faults w !! 0%nat = Some (Some f).
Proof. unfold dueFault. by destruct (faults w) as [|[?|] ?]; intros [= ->]. Qed.

Section Deletions.
Context `{Helpers}.

Lemma deleteAll_run namespace names w :
  wp (deleteAll namespace names) w (λ r w1,
    match r with
    | None =>
        noFaults (length names) w ∧
        secrets w1 = without namespace names (secrets w)
    | Some err =>
        ∃ (i : nat) name f,
          names !! i = Some name ∧
          noFaults i w ∧ faults w !! i = Some (Some f) ∧
          err = Errorf ("delete secret (" +:+ name +:+ ") failed: ") (faultError f) ∧
          secrets w1 = without namespace (take i names) (secrets w) ∧
          ∃ evs, trace w1 = trace w ++ evs ∧ length evs = S i
    end).
Proof.
  revert w. induction names as [|name names IH]; intros w.
  { apply wp_ret. split; [apply noFaults_0|done]. }
  cbn [deleteAll]. apply wp_deleteOrReturn.
  - intros w1 f Hdue ->. exists 0%nat, name, f.
    split_and!; [done|apply noFaults_0|by apply dueFault_lookup|done..|].
    by eexists [_].
  - intros w1 Hdue Hw1. eapply wp_mono; [|apply IH].
    intros [err|] w2.
    + intros (i & name' & f & Hname & Hno & Hf & -> & Hst & evs & Htr & Hlen).
      exists (S i), name', f. split_and!; [done| | |done| |].
      * by rewrite (noFaults_step i w w1 _ _ Hw1).
      * rewrite <- Hf. subst w1. simpl. by rewrite lookup_tail.
      * rewrite Hst. by subst w1.
      * subst w1. simpl in Htr. rewrite <- (assoc_L (++)) in Htr.
        eexists. split; [exact Htr|]. simpl. by rewrite Hlen.
    + intros [Hno Hst]. split.
      * by rewrite (noFaults_step (length names) w w1 _ _ Hw1).
      * rewrite Hst. by subst w1.
Qed.

Lemma cleanupEtcdTLSSecrets_deleteAll vr :
  cleanupEtcdTLSSecrets vr =
    (err ← deleteAll (vrNamespace vr) (etcdTLSSecretNames vr);
     mret (deferWrap "cleanup TLS secrets failed: " err)).
Proof. reflexivity. Qed.

Lemma cleanupDefaultVaultTLSSecrets_deleteAll vr :
  cleanupDefaultVaultTLSSecrets vr =
    (err ← deleteAll (vrNamespace vr) (defaultVaultTLSSecretNames vr);
     mret (deferWrap "cleanup vault TLS secrets failed: " err)).
Proof. reflexivity. Qed.

Lemma wp_cleanup prefix namespace names w :
  wp (err ← deleteAll namespace names; mret (deferWrap prefix err)) w (λ r w1,
    match r with
    | None =>
        noFaults (length names) w ∧
        secrets w1 = without namespace names (secrets w)
    | Some err => stoppedAt prefix namespace names w err w1
    end).
Proof.
  apply wp_bind. eapply wp_mono; [|apply deleteAll_run].
  intros [err|] w1; [|by intros ?; apply wp_ret].
  intros (i & name & f & Hname & Hno & Hf & -> & Hst & Hevs). apply wp_ret.
  exists i, name, f. split_and!; try done.
  unfold deferWrap, Errorf. simpl. by rewrite !append_assoc.
Qed.
End Deletions.

Section Frames.
Context `{Helpers}.

Lemma grows_outside (P : string * string → Secret → Prop)
    (K : string * string → Prop) w w1 :
  (∀ k s, P k s → K k) → grows P w w1 →
  ∀ k, ¬ K k → secrets w1 !! k = secrets w !! k.
Proof.
  intros HP (Hkeep & Hnew & _) k Hk.
  destruct (secrets w !! k) as [s|] eqn:Hw; [by apply Hkeep|].
  destruct (secrets w1 !! k) as [s|] eqn:Hw1; [|done].
  destruct Hk. eapply HP, Hnew; done.
Qed.

Lemma issued_etcd_keysOf vr caKey caCrt k s :
  issued vr (EtcdBundle vr caKey caCrt) k s → keysOf vr (etcdTLSSecretNames vr) k.
Proof.
  intros (se & Hse & -> & _). eexists. split; [|done].
  by eapply EtcdBundle_name.
Qed.

Lemma issued_vault_keysOf vr caKey caCrt k s :
  issued vr (VaultBundle vr caKey caCrt) k s →
  keysOf vr (defaultVaultTLSSecretNames vr) k.
Proof.
  intros (se & Hse & -> & _). eexists. split; [|done].
  by eapply VaultBundle_name.
Qed.

Lemma prepareEtcdTLSSecrets_outside vr w :
  wp (prepareEtcdTLSSecrets vr) w (λ _ w1,
    ∀ k, ¬ keysOf vr (etcdTLSSecretNames vr) k →
         secrets w1 !! k = secrets w !! k).
Proof.
  eapply wp_mono; [|apply prepareEtcdTLSSecrets_grows].
  intros r w1 [caKey Hg]. eapply grows_outside; [|exact Hg].
  intros k s. apply issued_etcd_keysOf.
Qed.

Lemma prepareDefaultVaultTLSSecrets_outside vr w :
  wp (prepareDefaultVaultTLSSecrets vr) w (λ _ w1,
    ∀ k, ¬ keysOf vr (defaultVaultTLSSecretNames vr) k →
         secrets w1 !! k = secrets w !! k).
Proof.
  eapply wp_mono; [|apply prepareDefaultVaultTLSSecrets_grows].
  intros r w1 [caKey Hg]. eapply grows_outside; [|exact Hg].
  intros k s. apply issued_vault_keysOf.
Qed.

Lemma without_outside vr names st k :
  ¬ keysOf vr names k → without (vrNamespace vr) names st !! k = st !! k.
Proof.
  intros Hk. apply lookup_without_ne. intros name Hin ->. apply Hk.
  by exists name.
Qed.

Lemma wp_cleanup_outside vr prefix names w :
  wp (err ← deleteAll (vrNamespace vr) names; mret (deferWrap prefix err)) w
    (λ _ w1, ∀ k, ¬ keysOf vr names k → secrets w1 !! k = secrets w !! k).
Proof.
  eapply wp_mono; [|apply wp_cleanup]. intros [err|] w1.
  - intros (i & name & f & _ & _ & _ & _ & -> & _) k Hk.
    apply without_outside. intros (n & Hn & ->). apply Hk. exists n.
    split; [|done]. apply elem_of_take in Hn as (j & Hj & _).
    by eapply list_elem_of_lookup_2.
  - intros [_ ->] k Hk. by apply without_outside.
Qed.

(** ** The metadata of what is stored *)

Lemma tlsSecretFor_meta vr caKey caCrt cn name addrs fieldMap key :
  SecretMeta (stored vr (tlsSecretFor vr caKey caCrt cn name addrs fieldMap key))
  = {| Name := name; Namespace := vrNamespace vr; UID := "";
       Labels := LabelsForVault (vrName vr);
       OwnerReferences := [AsOwner vr] |}.
Proof. reflexivity. Qed.

Lemma EtcdBundle_meta vr caKey caCrt se :
  EtcdBundle vr caKey caCrt se →
  SecretMeta (stored vr se)
  = {| Name := Name (SecretMeta se); Namespace := vrNamespace vr; UID := "";
       Labels := LabelsForVault (vrName vr);
       OwnerReferences := [AsOwner vr] |}.
Proof.
  intros [w w1 ? Hrun|w w1 ? Hrun|w w1 ? Hrun].
  - by apply newEtcdClientTLSSecret_inr in Hrun as [key ->].
  - by apply newEtcdServerTLSSecret_inr in Hrun as [key ->].
  - by apply newEtcdPeerTLSSecret_inr in Hrun as [key ->].
Qed.

Lemma VaultBundle_meta vr caKey caCrt se :
  VaultBundle vr caKey caCrt se →
  SecretMeta (stored vr se)
  = {| Name := Name (SecretMeta se); Namespace := vrNamespace vr; UID := "";
       Labels := LabelsForVault (vrName vr);
       OwnerReferences := [AsOwner vr] |}.
Proof.
  intros [w w1 ? Hrun|].
  - by apply newVaultServerTLSSecret_inr in Hrun as [key ->].
  - reflexivity.
Qed.
End Frames.

(** ** What a nil return leaves in place *)

Section Complete.
Context `{Helpers}.

Lemma createEtcdTLSSecrets_complete vr caKey caCrt w :
  wp (createEtcdTLSSecrets vr caKey caCrt) w (λ r w1,
    r = None →
    ∀ name, name ∈ etcdTLSSecretNames vr →
            is_Some (secrets w1 !! (vrNamespace vr, name))).
Proof.
  unfold createEtcdTLSSecrets.
  apply wp_orReturn, wp_any. intros [err|se1] w1 Hrun1; [done|].
  pose proof (new_drawn_etcd_client _ _ _ _ _ _ Hrun1) as ->.
  apply newEtcdClientTLSSecret_inr in Hrun1 as [key1 ->].
  apply wp_createOrReturn; [done|]. intros w2 _ Hw2.
  assert (is_Some (secrets w2 !! (vrNamespace vr,
            EtcdClientTLSSecretName (vrName vr)))) as Hs2.
  { subst w2. apply createIfAbsent_present. }
  clear Hw2.
  apply wp_orReturn, wp_any. intros [err|se2] w3 Hrun2; [done|].
  pose proof (new_drawn_etcd_server _ _ _ _ _ _ Hrun2) as ->.
  apply newEtcdServerTLSSecret_inr in Hrun2 as [key2 ->].
  apply wp_createOrReturn; [done|]. intros w4 _ Hw4.
  assert (is_Some (secrets w4 !! (vrNamespace vr,
            EtcdClientTLSSecretName (vrName vr))) ∧
          is_Some (secrets w4 !! (vrNamespace vr,
            EtcdServerTLSSecretName (vrName vr)))) as [Hc4 Hs4].
  { subst w4. split; [by apply createIfAbsent_keeps|apply createIfAbsent_present]. }
  clear Hw4.
  apply wp_orReturn, wp_any. intros [err|se3] w5 Hrun3; [done|].
  pose proof (new_drawn_etcd_peer _ _ _ _ _ _ Hrun3) as ->.
  apply newEtcdPeerTLSSecret_inr in Hrun3 as [key3 ->].
  apply wp_createOrReturn; [done|]. intros w6 _ ->.
  apply wp_ret. intros _ name Hin. unfold etcdTLSSecretNames in Hin.
  apply elem_of_cons in Hin as [->|Hin]; [by apply createIfAbsent_keeps|].
  apply elem_of_cons in Hin as [->|Hin]; [by apply createIfAbsent_keeps|].
  apply elem_of_cons in Hin as [->|Hin]; [apply createIfAbsent_present|].
  by apply elem_of_nil in Hin.
Qed.

Lemma prepareEtcdTLSSecrets_complete vr w :
  wp (prepareEtcdTLSSecrets vr) w (λ r w1,
    r = None → ¬ etcdSettled vr w →
    ∀ name, name ∈ etcdTLSSecretNames vr →
            is_Some (secrets w1 !! (vrNamespace vr, name))).
Proof.
  unfold prepareEtcdTLSSecrets. apply wp_bind, wp_bind, wp_Get.
  intros w1 ->. unfold getResult.
  destruct (dueFault w) as [f|].
  { rewrite faultError_not_NotFound. simpl. by do 2 apply wp_ret. }
  destruct (secrets w !! _) as [se|] eqn:Hget.
  { do 2 apply wp_ret. intros _ Hnot. destruct Hnot. unfold etcdSettled.
    by rewrite Hget. }
  simpl. apply wp_orReturn, wp_newCACert. intros w2 ->.
  destruct (nextKeyOf _) as [caKey|]; [|by apply wp_ret].
  eapply wp_mono; [|apply createEtcdTLSSecrets_complete].
  intros [err|] w3 Hs; apply wp_ret; [done|]. intros _ _. by apply Hs.
Qed.

Lemma issueDefaultVaultTLSSecrets_complete vr w :
  wp (issueDefaultVaultTLSSecrets vr) w (λ r w1,
    r = None → vaultDefaultsExist vr w1).
Proof.
  unfold issueDefaultVaultTLSSecrets. apply wp_orReturn, wp_newCACert.
  intros w1 ->. destruct (nextKeyOf w) as [caKey|]; [|done].
  apply createDefaultVaultTLSSecrets_settles.
Qed.

Lemma prepareDefaultVaultTLSSecrets_complete vr w :
  wp (prepareDefaultVaultTLSSecrets vr) w (λ r w1,
    r = Returned None → ¬ vaultConfiguredExists vr w →
    vaultDefaultsExist vr w1).
Proof.
  unfold prepareDefaultVaultTLSSecrets.
  destruct (IsTLSConfigured _) eqn:Hconf.
  - destruct (specServerSecret vr) as [serverSecret|] eqn:Hspec;
      [|by apply wp_ret].
    apply wp_bind, wp_Get. intros w1 ->. unfold getResult.
    destruct (dueFault w) as [flt|] eqn:Hdue.
    { rewrite faultError_not_NotFound. simpl. by apply wp_ret. }
    destruct (secrets w !! _) as [se|] eqn:Hget; simpl.
    + apply wp_ret. intros _ Hnot. destruct Hnot. split; [done|].
      exists serverSecret. by rewrite Hget.
    + apply wp_bind. eapply wp_mono; [|apply issueDefaultVaultTLSSecrets_complete].
      intros [err|] w2 Hs; apply wp_ret; [done|]. intros _ _. by apply Hs.
  - apply wp_bind. eapply wp_mono; [|apply issueDefaultVaultTLSSecrets_complete].
    intros [err|] w2 Hs; apply wp_ret; [done|]. intros _ _. by apply Hs.
Qed.
End Complete.

(** ** The CA key *)

Lemma nextKeyOf_In w key : nextKeyOf w = Some key → Some key ∈ entropy w.
Proof.
  unfold nextKeyOf. destruct (entropy w) as [|[k|] ks]; simpl; try done.
  intros [= ->]. apply list_elem_of_here.
Qed.

Lemma signedUnder_drawn caKey E w0 w :
  signedUnder caKey E w0 w → signedUnder caKey E w0 (drawn w).
Proof.
  intros [HE Hs]. split; [|exact Hs].
  intros x Hx. apply HE. simpl in Hx.
  destruct (entropy w); [done|]. by apply list_elem_of_further.
Qed.

Lemma signedUnder_call caKey E w0 w ev :
  signedUnder caKey E w0 w → signedUnder caKey E w0 (advance w (secrets w) ev).
Proof. done. Qed.

Lemma signedUnder_create caKey E w0 w k se ev :
  (∀ n key, privateKeys se !! n = Some key → Some key ∈ E) →
  (∀ n crt, certificates se !! n = Some crt → SignedWith crt = Public caKey) →
  signedUnder caKey E w0 w →
  signedUnder caKey E w0 (advance w (createIfAbsent k se (secrets w)) ev).
Proof.
  intros Hkeys Hcrts [HE Hs]. split; [exact HE|].
  intros k' s Hw0. simpl. unfold createIfAbsent.
  destruct (secrets w !! k) eqn:Hk; [by apply Hs|].
  destruct (decide (k' = k)) as [->|Hne].
  - rewrite lookup_insert_eq. by intros [= <-].
  - rewrite lookup_insert_ne by done. by apply Hs.
Qed.

Section CAKey.
Context `{Helpers}.

Lemma privateKeys_tlsSecretFor_any vr caKey caCrt cn name addrs fieldMap key n key' :
  privateKeys (tlsSecretFor vr caKey caCrt cn name addrs fieldMap key) !! n
    = Some key' →
  key' = key.
Proof.
  unfold privateKeys, tlsSecretFor. cbn [Data]. rewrite lookup_omap.
  destruct (decide (n = field fieldMap "ca")) as [->|?].
  { by rewrite lookup_insert_eq. }
  rewrite lookup_insert_ne by done.
  destruct (decide (n = field fieldMap "cert")) as [->|?].
  { by rewrite lookup_insert_eq. }
  rewrite lookup_insert_ne by done.
  destruct (decide (n = field fieldMap "key")) as [->|?].
  { rewrite lookup_insert_eq. simpl. by intros [= <-]. }
  by rewrite lookup_insert_ne, lookup_empty.
Qed.

Lemma certificates_tlsSecretFor_any vr caKey caCrt cn name addrs fieldMap key n crt :
  certificates (tlsSecretFor vr caKey caCrt cn name addrs fieldMap key) !! n
    = Some crt →
  crt = caCrt ∨ crt = leafFor caKey caCrt cn addrs key.
Proof.
  unfold certificates, tlsSecretFor. cbn [Data]. rewrite lookup_omap.
  destruct (decide (n = field fieldMap "ca")) as [->|?].
  { rewrite lookup_insert_eq. simpl. intros [= <-]. by left. }
  rewrite lookup_insert_ne by done.
  destruct (decide (n = field fieldMap "cert")) as [->|?].
  { rewrite lookup_insert_eq. simpl. intros [= <-]. by right. }
  rewrite lookup_insert_ne by done.
  destruct (decide (n = field fieldMap "key")) as [->|?].
  { by rewrite lookup_insert_eq. }
  by rewrite lookup_insert_ne, lookup_empty.
Qed.

Lemma privateKeys_stored namespace se r :
  privateKeys (inNamespace namespace (AddOwnerRefToObject se r)) = privateKeys se.
Proof. reflexivity. Qed.

Lemma certificates_owned namespace se r :
  certificates (inNamespace namespace (AddOwnerRefToObject se r)) = certificates se.
Proof. reflexivity. Qed.

Lemma wp_issue_signed vr caKey E w0 cn name addrs fieldMap cont w
    (Q : option error → World → Prop) :
  signedUnder caKey E w0 w →
  (∀ err w1, signedUnder caKey E w0 w1 → Q (Some err) w1) →
  (∀ w1, signedUnder caKey E w0 w1 → wp cont w1 Q) →
  wp (orReturn (newTLSSecret vr caKey (caCertFor caKey) cn name addrs fieldMap)
        (λ se, createOrReturn (vrNamespace vr)
                 (AddOwnerRefToObject se (AsOwner vr)) cont)) w Q.
Proof.
  intros Hinv HQ Hcont. apply wp_orReturn, wp_newTLSSecret. intros w1 ->.
  destruct (nextKeyOf w) as [key|] eqn:Hkey;
    [|by apply HQ, signedUnder_drawn].
  apply wp_createOrReturn.
  - intros w2 f _ ->. by apply HQ, signedUnder_call, signedUnder_drawn.
  - intros w2 _ ->. apply Hcont. apply signedUnder_create.
    + intros n key' Hn. rewrite privateKeys_stored in Hn.
      apply privateKeys_tlsSecretFor_any in Hn as ->.
      apply Hinv. by apply nextKeyOf_In.
    + intros n crt Hn. rewrite certificates_owned in Hn.
      by apply certificates_tlsSecretFor_any in Hn as [->| ->].
    + by apply signedUnder_drawn.
Qed.

Lemma createEtcdTLSSecrets_signed vr caKey E w0 w :
  signedUnder caKey E w0 w →
  wp (createEtcdTLSSecrets vr caKey (caCertFor caKey)) w
     (λ _ w1, signedUnder caKey E w0 w1).
Proof.
  intros Hinv. unfold createEtcdTLSSecrets, newEtcdClientTLSSecret,
    newEtcdServerTLSSecret, newEtcdPeerTLSSecret.
  apply (wp_issue_signed vr caKey E w0); [done..|]. intros w1 H1.
  apply (wp_issue_signed vr caKey E w0); [done..|]. intros w2 H2.
  apply (wp_issue_signed vr caKey E w0); [done..|]. intros w3 H3.
  by apply wp_ret.
Qed.

Lemma createDefaultVaultTLSSecrets_signed vr caKey E w0 w :
  signedUnder caKey E w0 w →
  wp (createDefaultVaultTLSSecrets vr caKey (caCertFor caKey)) w
     (λ _ w1, signedUnder caKey E w0 w1).
Proof.
  intros Hinv. unfold createDefaultVaultTLSSecrets, newVaultServerTLSSecret.
  apply (wp_issue_signed vr caKey E w0); [done..|]. intros w1 H1.
  apply wp_createOrReturn.
  - intros w2 f _ ->. by apply signedUnder_call.
  - intros w2 _ ->. apply wp_ret. apply signedUnder_create; [| |done].
    + intros n key. unfold privateKeys. cbn [Data AddOwnerRefToObject
        inNamespace newVaultClientTLSSecret].
      rewrite omap_insert, omap_empty. simpl.
      rewrite delete_empty. by rewrite lookup_empty.
    + intros n crt.
      change (certificates (stored vr (newVaultClientTLSSecret vr (caCertFor caKey)))
                !! n = Some crt → SignedWith crt = Public caKey).
      rewrite certificates_vault_client.
      intros [_ <-]%lookup_singleton_Some. done.
Qed.

Lemma signedUnder_start caKey w w1 :
  secrets w1 = secrets w → entropy w1 = entropy w →
  signedUnder caKey (tail (entropy w)) w (drawn w1).
Proof.
  intros Hst Hen. split.
  - simpl. by rewrite Hen.
  - intros k s Hk. simpl. rewrite Hst. congruence.
Qed.

Lemma issuedUnder_same caKey E w w1 :
  secrets w1 = secrets w → issuedUnder caKey E w w1.
Proof. intros Hst k s Hk. rewrite Hst. congruence. Qed.

Lemma prepareEtcdTLSSecrets_signed vr w caKey :
  nextKeyOf w = Some caKey →
  wp (prepareEtcdTLSSecrets vr) w
     (λ _ w1, issuedUnder caKey (tail (entropy w)) w w1).
Proof.
  intros Hkey. unfold prepareEtcdTLSSecrets. apply wp_bind, wp_bind, wp_Get.
  intros w1 Hw1. unfold getResult.
  destruct (dueFault w) as [f|].
  { rewrite faultError_not_NotFound. simpl. do 2 apply wp_ret.
    apply issuedUnder_same. by subst w1. }
  destruct (secrets w !! _) as [se|] eqn:Hget.
  { do 2 apply wp_ret. apply issuedUnder_same. by subst w1. }
  simpl. apply wp_orReturn, wp_newCACert. intros w2 ->.
  assert (nextKeyOf w1 = Some caKey) as -> by by subst w1.
  eapply wp_mono; [|apply (createEtcdTLSSecrets_signed vr caKey
                             (tail (entropy w)) w)].
  - intros r w3 [_ Hs]. by apply wp_ret.
  - apply signedUnder_start; by subst w1.
Qed.

Lemma issueDefaultVaultTLSSecrets_signed vr w w1 caKey :
  nextKeyOf w = Some caKey →
  secrets w1 = secrets w → entropy w1 = entropy w →
  wp (issueDefaultVaultTLSSecrets vr) w1
     (λ _ w2, issuedUnder caKey (tail (entropy w)) w w2).
Proof.
  intros Hkey Hst Hen. unfold issueDefaultVaultTLSSecrets.
  apply wp_orReturn, wp_newCACert. intros w2 ->.
  assert (nextKeyOf w1 = Some caKey) as ->.
  { unfold nextKeyOf in *. by rewrite Hen. }
  eapply wp_mono; [|apply (createDefaultVaultTLSSecrets_signed vr caKey
                             (tail (entropy w)) w)].
  - by intros r w3 [_ Hs].
  - by apply signedUnder_start.
Qed.

Lemma prepareDefaultVaultTLSSecrets_signed vr w caKey :
  nextKeyOf w = Some caKey →
  wp (prepareDefaultVaultTLSSecrets vr) w
     (λ _ w1, issuedUnder caKey (tail (entropy w)) w w1).
Proof.
  intros Hkey. unfold prepareDefaultVaultTLSSecrets.
  destruct (IsTLSConfigured _).
  - destruct (specServerSecret vr) as [serverSecret|];
      [|by apply wp_ret, issuedUnder_same].
    apply wp_bind, wp_Get. intros w1 Hw1. unfold getResult.
    destruct (dueFault w) as [f|].
    { rewrite faultError_not_NotFound. simpl. apply wp_ret.
      apply issuedUnder_same. by subst w1. }
    destruct (secrets w !! _) as [se|] eqn:Hget; simpl.
    { apply wp_ret. apply issuedUnder_same. by subst w1. }
    apply wp_bind. eapply wp_mono;
      [|apply (issueDefaultVaultTLSSecrets_signed vr w w1 caKey Hkey);
        by subst w1].
    intros r w2 Hs. by apply wp_ret.
  - apply wp_bind. eapply wp_mono;
      [|by apply (issueDefaultVaultTLSSecrets_signed vr w w caKey Hkey)].
    intros r w2 Hs. by apply wp_ret.
Qed.
End CAKey.

(** ** Runs along one path *)

Lemma noFaults_dueFault n w : noFaults (S n) w → dueFault w = None.
Proof. by intros [? _]%noFaults_S. Qed.

Lemma noFaults_advance n w st ev : noFaults (S n) w → noFaults n (advance w st ev).
Proof. intros [_ Hno]%noFaults_S. apply Hno. Qed.

Lemma noFaults_drawn n w : noFaults n w → noFaults n (drawn w).
Proof. done. Qed.

Lemma faultAt_dueFault w f : faults w !! 0%nat = Some (Some f) → dueFault w = Some f.
Proof. unfold dueFault. destruct (faults w) as [|[?|] ?]; by intros [= ->]. Qed.

Lemma faultAt_advance i w st ev f :
  faults w !! S i = Some (Some f) → faults (advance w st ev) !! i = Some (Some f).
Proof. simpl. by rewrite lookup_tail. Qed.

Lemma keysAvailable_draw n w :
  keysAvailable (S n) w →
  ∃ key, nextKeyOf w = Some key ∧ keysAvailable n (drawn w).
Proof.
  intros Hk. destruct (proj1 (ready_draw 0 n w)) as [[key Hkey] [_ Hn]].
  { split; [apply noFaults_0|done]. }
  by exists key.
Qed.

Lemma keysAvailable_advance n w st ev :
  keysAvailable n w → keysAvailable n (advance w st ev).
Proof. done. Qed.

Lemma createIfAbsent_ne k se st k' :
  k' ≠ k → createIfAbsent k se st !! k' = st !! k'.
Proof.
  intros Hne. unfold createIfAbsent. destruct (st !! k); [done|].
  by rewrite lookup_insert_ne.
Qed.

Lemma createIfAbsent_absent k se st :
  st !! k = None → createIfAbsent k se st !! k = Some se.
Proof. intros Hk. unfold createIfAbsent. by rewrite Hk, lookup_insert_eq. Qed.

Section Paths.
Context `{Helpers}.

Lemma wp_createOrReturn_fault namespace se k w f (Q : option error → World → Prop) :
  dueFault w = Some f →
  Q (Some (faultError f))
    (advance w (secrets w)
       (APICall VerbCreate namespace (Name (SecretMeta se)) (Some (faultError f)))) →
  wp (createOrReturn namespace se k) w Q.
Proof.
  intros Hdue HQ. apply wp_createOrReturn.
  - intros w1 f' Hdue' ->. by simplify_eq.
  - intros w1 Hdue'. congruence.
Qed.

Lemma wp_createOrReturn_ok namespace se k w (Q : option error → World → Prop) :
  dueFault w = None →
  wp k (advance w
          (createIfAbsent (namespace, Name (SecretMeta se))
             (inNamespace namespace se) (secrets w))
          (APICall VerbCreate namespace (Name (SecretMeta se))
             (errOf (createResult namespace se w)))) Q →
  wp (createOrReturn namespace se k) w Q.
Proof.
  intros Hdue HQ. apply wp_createOrReturn.
  - intros w1 f' Hdue'. congruence.
  - by intros w1 _ ->.
Qed.

Lemma wp_new_key vr caKey caCrt cn name addrs fieldMap cont w key
    (Q : option error → World → Prop) :
  nextKeyOf w = Some key →
  wp (cont (tlsSecretFor vr caKey caCrt cn name addrs fieldMap key)) (drawn w) Q →
  wp (orReturn (newTLSSecret vr caKey caCrt cn name addrs fieldMap) cont) w Q.
Proof.
  intros Hkey HQ. apply wp_orReturn, wp_newTLSSecret. intros w1 ->.
  by rewrite Hkey.
Qed.

Lemma wp_ca_key cont w key (Q : option error → World → Prop) :
  nextKeyOf w = Some key →
  wp (cont (key, caCertFor key)) (drawn w) Q →
  wp (orReturn newCACert cont) w Q.
Proof.
  intros Hkey HQ. apply wp_orReturn, wp_newCACert. intros w1 ->.
  by rewrite Hkey.
Qed.

(** A fault at the creation of the etcd server secret. *)
Lemma prepareEtcdTLSSecrets_server_fault vr w f :
  secrets w !! (vrNamespace vr, EtcdClientTLSSecretName (vrName vr)) = None →
  noFaults 2 w → faults w !! 2%nat = Some (Some f) →
  keysAvailable 3 w →
  wp (prepareEtcdTLSSecrets vr) w (λ r w1,
    r = Some (Errorf "prepare TLS secrets failed: " (faultError f)) ∧
    ∃ se, secrets w1 =
            <[(vrNamespace vr, EtcdClientTLSSecretName (vrName vr)) := se]>
              (secrets w)).
Proof.
  intros Hclient Hno Hf Hkeys.
  unfold prepareEtcdTLSSecrets. apply wp_bind, wp_bind, wp_Get.
  intros w1 Hw1. unfold getResult.
  rewrite (noFaults_dueFault _ _ Hno), Hclient. simpl.
  assert (noFaults 1 w1) as Hno1 by (subst w1; by apply noFaults_advance).
  assert (faults w1 !! 1%nat = Some (Some f)) as Hf1
    by (subst w1; by apply faultAt_advance).
  assert (keysAvailable 3 w1) as Hkeys1 by by subst w1.
  assert (secrets w1 = secrets w) as Hst1 by by subst w1.
  clear Hw1.
  destruct (keysAvailable_draw _ _ Hkeys1) as (caKey & HcaKey & Hkeys2).
  apply wp_ca_key with (key := caKey); [done|].
  unfold createEtcdTLSSecrets, newEtcdClientTLSSecret, newEtcdServerTLSSecret.
  destruct (keysAvailable_draw _ _ Hkeys2) as (key1 & Hkey1 & Hkeys3).
  apply wp_new_key with (key := key1); [done|].
  apply wp_createOrReturn_ok; [by apply (noFaults_dueFault 0)|].
  set (w4 := advance _ _ _).
  assert (faults w4 !! 0%nat = Some (Some f)) as Hf4
    by (by apply faultAt_advance).
  assert (keysAvailable 1 w4) as Hkeys4 by done.
  assert (∃ se, secrets w4 =
            <[(vrNamespace vr, EtcdClientTLSSecretName (vrName vr)) := se]>
              (secrets w)) as Hst4.
  { eexists. unfold w4. simpl. unfold createIfAbsent. simpl.
    rewrite Hst1, Hclient. done. }
  clearbody w4.
  destruct (keysAvailable_draw _ _ Hkeys4) as (key2 & Hkey2 & _).
  apply wp_new_key with (key := key2); [done|].
  eapply wp_createOrReturn_fault; [by apply faultAt_dueFault|].
  apply wp_ret. split; [done|]. exact Hst4.
Qed.
End Paths.

Section MorePaths.
Context `{Helpers}.

(** The default server secret is there already, the client secret is
    not, and TLS is not configured. *)
Lemma prepareDefaultVaultTLSSecrets_server_kept vr w s0 caKey :
  IsTLSConfigured (TLS (Spec vr)) = false →
  DefaultVaultServerTLSSecretName (vrName vr)
    ≠ DefaultVaultClientTLSSecretName (vrName vr) →
  secrets w !! (vrNamespace vr, DefaultVaultServerTLSSecretName (vrName vr))
    = Some s0 →
  secrets w !! (vrNamespace vr, DefaultVaultClientTLSSecretName (vrName vr))
    = None →
  noFaults 2 w → keysAvailable 2 w → nextKeyOf w = Some caKey →
  wp (prepareDefaultVaultTLSSecrets vr) w (λ r w1,
    r = Returned None ∧
    secrets w1 =
      <[(vrNamespace vr, DefaultVaultClientTLSSecretName (vrName vr)) :=
          stored vr (newVaultClientTLSSecret vr (caCertFor caKey))]> (secrets w)).
Proof.
  intros Hconf Hne Hserver Hclient Hno Hkeys HcaKey.
  unfold prepareDefaultVaultTLSSecrets. rewrite Hconf.
  apply wp_bind. unfold issueDefaultVaultTLSSecrets.
  destruct (keysAvailable_draw _ _ Hkeys) as (caKey' & HcaKey' & Hkeys1).
  assert (caKey' = caKey) as -> by congruence.
  apply wp_ca_key with (key := caKey); [done|].
  unfold createDefaultVaultTLSSecrets, newVaultServerTLSSecret.
  destruct (keysAvailable_draw _ _ Hkeys1) as (key1 & Hkey1 & _).
  apply wp_new_key with (key := key1); [done|].
  apply wp_createOrReturn_ok; [by apply (noFaults_dueFault 1)|].
  set (w3 := advance _ _ _).
  assert (secrets w3 = secrets w) as Hst3.
  { unfold w3. simpl. apply createIfAbsent_id. simpl. by rewrite Hserver. }
  assert (noFaults 1 w3) as Hno3 by (by apply noFaults_advance).
  clearbody w3.
  apply wp_createOrReturn_ok; [by apply (noFaults_dueFault 0)|].
  do 2 apply wp_ret. split; [done|]. simpl. rewrite Hst3.
  unfold createIfAbsent. simpl. by rewrite Hclient.
Qed.

(** ** Preparing, then cleaning up *)

Lemma keysOf_dec (vr : VaultService) (names : list string) (k : string * string) : Decision (keysOf vr names k).
Proof.
  destruct k as [ns name].
  destruct (decide (ns = vrNamespace vr ∧ name ∈ names)) as [[-> Hin]|Hnot].
  - left. by exists name.
  - right. intros (name' & Hin & [= -> ->]). by apply Hnot.
Defined.

Lemma without_outside_eq (vr : VaultService) (names : list string)
    (st st' : gmap (string * string) Secret) :
  (∀ k, ¬ keysOf vr names k → st' !! k = st !! k) →
  without (vrNamespace vr) names st' = without (vrNamespace vr) names st.
Proof.
  intros Hout. apply map_eq. intros k.
  destruct (keysOf_dec vr names k) as [(name & Hin & ->)|Hk].
  - by rewrite !lookup_without_eq.
  - rewrite !without_outside by done. by apply Hout.
Qed.

Lemma without_absent (namespace : string) (names : list string) (st : gmap (string * string) Secret) :
  (∀ name, name ∈ names → st !! (namespace, name) = None) →
  without namespace names st = st.
Proof.
  unfold without. revert st. induction names as [|n names IH]; intros st Habs;
    [done|].
  simpl. rewrite delete_id by (apply Habs, list_elem_of_here).
  apply IH. intros name Hin. by apply Habs, list_elem_of_further.
Qed.

(** ** The field map of newTLSSecret *)

Lemma size_tlsSecretFor vr caKey caCrt cn name addrs fieldMap key :
  let k := field fieldMap "key" in
  let c := field fieldMap "cert" in
  let a := field fieldMap "ca" in
  size (Data (tlsSecretFor vr caKey caCrt cn name addrs fieldMap key)) = 3%nat
  ↔ NoDup [k; c; a].
Proof.
  intros k c a. unfold tlsSecretFor. cbn [Data]. fold k c a.
  rewrite !NoDup_cons, !elem_of_cons, !elem_of_nil.
  rewrite !map_size_insert.
  destruct (decide (c = k)) as [->|Hck].
  { rewrite lookup_insert_eq. rewrite map_size_empty, lookup_empty.
    destruct (decide (a = k)) as [->|Hak].
    - rewrite !lookup_insert_eq. simpl. split; [lia|tauto].
    - rewrite !lookup_insert_ne, lookup_empty by done. simpl.
      split; [lia|tauto]. }
  rewrite (lookup_insert_ne _ k c) by done.
  rewrite map_size_empty, !lookup_empty. simpl.
  destruct (decide (a = c)) as [->|Hac].
  { rewrite lookup_insert_eq. simpl. split; [lia|tauto]. }
  rewrite (lookup_insert_ne _ c a) by done.
  destruct (decide (a = k)) as [->|Hak].
  { rewrite lookup_insert_eq. simpl. split; [lia|tauto]. }
  rewrite lookup_insert_ne, lookup_empty by done. simpl.
  split; [intros _|done].
  split_and!; [intros [?|[?|[]]]; congruence|intros [?|[]]; congruence
              |tauto|apply NoDup_nil_2].
Qed.
End MorePaths.

(** ** One CA per run *)

Lemma Public_inj key key' : Public key = Public key' → key = key'.
Proof. destruct key, key'. by intros [= ->]. Qed.

Lemma CheckSignatureFrom_signed crt caKey :
  CheckSignatureFrom crt (caCertFor caKey) = true →
  SignedWith crt = Public caKey.
Proof.
  unfold CheckSignatureFrom. intros [_ Hs]%andb_prop.
  by apply bool_decide_eq_true_1 in Hs.
Qed.

Lemma verifiesAgainst_signed caKey caKey' s :
  verifiesAgainst (caCertFor caKey') s →
  (∀ n crt, certificates s !! n = Some crt → SignedWith crt = Public caKey) →
  verifiesAgainst (caCertFor caKey) s.
Proof.
  intros Hv Hs. unfold verifiesAgainst in *.
  apply map_Forall_lookup. intros n crt Hn.
  pose proof (map_Forall_lookup_1 _ _ _ _ Hv Hn) as Hcheck. cbn beta in Hcheck.
  pose proof (CheckSignatureFrom_signed _ _ Hcheck) as Hsigned.
  rewrite (Hs n crt Hn) in Hsigned. apply Public_inj in Hsigned as ->. done.
Qed.

Section OneCAPerRun.
Context `{Helpers}.

(** Every secret of the etcd group, and the server secret of the vault
    group, holds a leaf certificate. *)
Lemma tlsSecretFor_leaf vr caKey caCrt cn name addrs k c a key :
  c ≠ a →
  ∃ crt, certificates (stored vr (tlsSecretFor vr caKey caCrt cn name addrs
                                    (fieldNames k c a) key)) !! c = Some crt ∧
         IsCA crt = false.
Proof.
  intros Hca. eexists. rewrite certificates_stored. split.
  - by apply certificates_tlsSecretFor_cert.
  - done.
Qed.

Lemma EtcdBundle_leaf vr caKey caCrt se :
  EtcdBundle vr caKey caCrt se →
  ∃ n crt, certificates (stored vr se) !! n = Some crt ∧ IsCA crt = false.
Proof.
  intros [w w1 se' Hrun|w w1 se' Hrun|w w1 se' Hrun].
  - apply newEtcdClientTLSSecret_inr in Hrun as [key ->].
    eexists. by apply tlsSecretFor_leaf.
  - apply newEtcdServerTLSSecret_inr in Hrun as [key ->].
    eexists. by apply tlsSecretFor_leaf.
  - apply newEtcdPeerTLSSecret_inr in Hrun as [key ->].
    eexists. by apply tlsSecretFor_leaf.
Qed.

Lemma VaultBundle_leaf vr caKey caCrt se :
  VaultBundle vr caKey caCrt se →
  Name (SecretMeta se) ≠ DefaultVaultClientTLSSecretName (vrName vr) →
  ∃ n crt, certificates (stored vr se) !! n = Some crt ∧ IsCA crt = false.
Proof.
  intros [w w1 se' Hrun|] Hname; [|done].
  apply newVaultServerTLSSecret_inr in Hrun as [key ->].
  eexists. by apply tlsSecretFor_leaf.
Qed.

Lemma prepareDefaultVaultTLSSecrets_signed_any vr w :
  wp (prepareDefaultVaultTLSSecrets vr) w (λ _ w1,
    ∀ caKey, nextKeyOf w = Some caKey →
             issuedUnder caKey (tail (entropy w)) w w1).
Proof.
  unfold wp. intros caKey Hkey.
  by apply (prepareDefaultVaultTLSSecrets_signed vr w caKey).
Qed.
End OneCAPerRun.

(** C1, as amended.  There is no CA secret and no operation that ensures
    one.  A run of a prepare operation that finds the secret it probes in
    place generates no key and stores nothing.  Any run keeps the secrets
    that exist as they are, and its CA key is the first key it generates:
    every certificate in a secret the run stores is signed with that key
    and verifies against the CA certificate made for it, and no private key
    in these secrets is that key, when it is not generated a second time.
    When the etcd run stores a secret and the vault run after it stores the
    default server secret, and the CA keys of the two runs differ, no one
    CA certificate verifies all leaf certificates of the namespace. *)
Theorem C1_one_ca_per_run `{Helpers} (vr : VaultService) (w : World) :
  let ns := vrNamespace vr in
  let server := DefaultVaultServerTLSSecretName (vrName vr) in
  let client := DefaultVaultClientTLSSecretName (vrName vr) in
  let ownCA (caKey : PrivateKey) (w0 w1 : World) :=
    (∀ k s, secrets w0 !! k = Some s → secrets w1 !! k = Some s) ∧
    (∀ k s, secrets w0 !! k = None → secrets w1 !! k = Some s →
       verifiesAgainst (caCertFor caKey) s ∧
       (∀ n crt, certificates s !! n = Some crt → SignedWith crt = Public caKey) ∧
       (Some caKey ∉ tail (entropy w0) →
        ∀ n key, privateKeys s !! n = Some key → key ≠ caKey)) in
  (etcdSettled vr w →
   wp (prepareEtcdTLSSecrets vr) w (λ _ w1,
     entropy w1 = entropy w ∧ secrets w1 = secrets w)) ∧
  (vaultConfiguredExists vr w →
   wp (prepareDefaultVaultTLSSecrets vr) w (λ _ w1,
     entropy w1 = entropy w ∧ secrets w1 = secrets w)) ∧
  (∀ caKey, nextKeyOf w = Some caKey →
     wp (prepareEtcdTLSSecrets vr) w (λ _ w1, ownCA caKey w w1) ∧
     wp (prepareDefaultVaultTLSSecrets vr) w (λ _ w1, ownCA caKey w w1)) ∧
  (∀ caKeyE caKeyV k,
     nextKeyOf w = Some caKeyE →
     server ≠ client →
     wp (prepareEtcdTLSSecrets vr) w (λ _ w1,
       wp (prepareDefaultVaultTLSSecrets vr) w1 (λ _ w2,
         nextKeyOf w1 = Some caKeyV →
         caKeyE ≠ caKeyV →
         secrets w !! k = None → is_Some (secrets w1 !! k) →
         secrets w1 !! (ns, server) = None →
         is_Some (secrets w2 !! (ns, server)) →
         ¬ signedByOneCA ns w2))).
Proof.
  intros ns server client ownCA.
  assert (∀ caKey, nextKeyOf w = Some caKey →
            wp (prepareEtcdTLSSecrets vr) w (λ _ w1, ownCA caKey w w1)) as HownE.
  { intros caKey Hkey.
    eapply wp_mono; [|apply wp_conj;
      [apply prepareEtcdTLSSecrets_grows
      |by apply (prepareEtcdTLSSecrets_signed vr w caKey)]].
    intros r w1 [(caKey' & Hkeep & Hnew & _) Hissued]. split; [exact Hkeep|].
    intros k s Hk Hk1. destruct (Hissued k s Hk Hk1) as [Hkeys Hcrts].
    destruct (Hnew k s Hk Hk1) as (se & Hse & _ & ->).
    split_and!; [|exact Hcrts|].
    - eapply verifiesAgainst_signed; [|exact Hcrts].
      by apply EtcdBundle_verifiesAgainst.
    - intros Hfresh n key Hn ->. apply Hfresh. by eapply Hkeys. }
  assert (∀ w0 caKey, nextKeyOf w0 = Some caKey →
            wp (prepareDefaultVaultTLSSecrets vr) w0 (λ _ w1, ownCA caKey w0 w1))
    as HownV.
  { intros w0 caKey Hkey.
    eapply wp_mono; [|apply wp_conj;
      [apply prepareDefaultVaultTLSSecrets_grows
      |by apply (prepareDefaultVaultTLSSecrets_signed vr w0 caKey)]].
    intros r w1 [(caKey' & Hkeep & Hnew & _) Hissued]. split; [exact Hkeep|].
    intros k s Hk Hk1. destruct (Hissued k s Hk Hk1) as [Hkeys Hcrts].
    destruct (Hnew k s Hk Hk1) as (se & Hse & _ & ->).
    split_and!; [|exact Hcrts|].
    - eapply verifiesAgainst_signed; [|exact Hcrts].
      by apply VaultBundle_verifiesAgainst.
    - intros Hfresh n key Hn ->. apply Hfresh. by eapply Hkeys. }
  split_and!.
  - intros Hs. unfold wp.
    by rewrite (prepareEtcdTLSSecrets_settled_run vr w Hs).
  - intros (Hconf & serverSecret & Hspec & Hse). unfold wp.
    by rewrite (prepareDefaultVaultTLSSecrets_settled_run vr w serverSecret).
  - intros caKey Hkey. split; [by apply HownE|by apply HownV].
  - intros caKeyE caKeyV k HkeyE Hnames.
    eapply wp_mono; [|apply wp_conj;
      [apply prepareEtcdTLSSecrets_grows
      |by apply (prepareEtcdTLSSecrets_signed vr w caKeyE)]].
    intros r1 w1 [(caKey1 & _ & HnewE & _) HissuedE].
    eapply wp_mono; [|apply wp_conj;
      [apply prepareDefaultVaultTLSSecrets_grows
      |apply prepareDefaultVaultTLSSecrets_signed_any]].
    intros r2 w2 [(caKey2 & HkeepV & HnewV & _) HissuedV].
    intros HkeyV Hdiff Hk [sE HsE] Hserver [sV HsV] (ca & Hca).
    specialize (HissuedV caKeyV HkeyV).
    destruct (HnewE k sE Hk HsE) as (seE & HbundleE & -> & ->).
    destruct (EtcdBundle_leaf _ _ _ _ HbundleE) as (nE & crtE & HcrtE & HleafE).
    destruct (HnewV _ sV Hserver HsV) as (seV & HbundleV & Hkey & ->).
    destruct (VaultBundle_leaf _ _ _ _ HbundleV) as (nV & crtV & HcrtV & HleafV).
    { injection Hkey as <-. exact Hnames. }
    pose proof (proj2 (HissuedE _ _ Hk HsE) _ _ HcrtE) as HsignedE.
    pose proof (proj2 (HissuedV _ _ Hserver HsV) _ _ HcrtV) as HsignedV.
    pose proof (Hca _ _ _ _ (HkeepV _ _ HsE) HcrtE HleafE) as HcheckE.
    pose proof (Hca _ _ _ _ HsV HcrtV HleafV) as HcheckV.
    unfold CheckSignatureFrom in HcheckE, HcheckV.
    apply andb_prop in HcheckE as [_ HcheckE].
    apply andb_prop in HcheckV as [_ HcheckV].
    apply bool_decide_eq_true_1 in HcheckE, HcheckV.
    rewrite HsignedE in HcheckE. rewrite HsignedV in HcheckV.
    apply Hdiff, Public_inj. congruence.
Qed.

Lemma C1_one_ca_per_run_witness :
  entropy (@prepareEtcdTLSSecrets specHelpers vr0 wEtcd).2 = entropy wEtcd ∧
  entropy (@prepareDefaultVaultTLSSecrets specHelpers vrStatic wStatic).2
  = entropy wStatic ∧
  (∃ s, secrets wEtcd !! nsName "example-etcd-peer-tls" = Some s ∧
        verifiesAgainst (caCertFor caKey0) s ∧
        ∀ n key, privateKeys s !! n = Some key → key ≠ caKey0) ∧
  (∃ s, secrets wVault !! nsName "example-default-vault-server-tls" = Some s ∧
        verifiesAgainst (caCertFor caKey0) s) ∧
  ¬ signedByOneCA "default" wBoth.
Proof.
  pose proof (@C1_one_ca_per_run specHelpers vr0 wEtcd) as (HsE & _ & _ & _).
  pose proof (@C1_one_ca_per_run specHelpers vrStatic wStatic) as (_ & HsV & _ & _).
  pose proof (@C1_one_ca_per_run specHelpers vr0 w0) as (_ & _ & Hown & Htwo).
  destruct (Hown caKey0 eq_refl) as [[_ HownE] [_ HownV]].
  assert (Some caKey0 ∉ tail (entropy w0)) as Hfresh.
  { intros Hin. vm_compute in Hin.
    repeat (apply elem_of_cons in Hin as [?|Hin]; [discriminate|]).
    by apply elem_of_nil in Hin. }
  assert (is_Some (secrets wEtcd !! nsName "example-etcd-peer-tls")) as [sE HsEtcd].
  { eexists. by_running. }
  assert (is_Some (secrets wVault !! nsName "example-default-vault-server-tls"))
    as [sV HsVault].
  { eexists. by_running. }
  split_and!.
  - apply HsE. eexists. by_running.
  - apply HsV. split; [reflexivity|]. exists "my-server-tls".
    split; [reflexivity|]. eexists. by_running.
  - exists sE. split; [exact HsEtcd|].
    destruct (HownE (nsName "example-etcd-peer-tls") sE) as (Hv & _ & Hkeys);
      [by_running|exact HsEtcd|].
    split; [exact Hv|]. exact (Hkeys Hfresh).
  - exists sV. split; [exact HsVault|].
    destruct (HownV (nsName "example-default-vault-server-tls") sV) as (Hv & _);
      [by_running|exact HsVault|].
    exact Hv.
  - apply (Htwo caKey0 {| keyMaterial := 21 |} (nsName "example-etcd-client-tls")).
    + reflexivity.
    + discriminate.
    + by_running.
    + discriminate.
    + by_running.
    + eexists. by_running.
    + by_running.
    + eexists. by_running.
Defined.

(** ** The properties *)

(** X1. prepareEtcdTLSSecrets returns nil exactly when nothing stands in its
    way: with the client secret in place, when its one get meets no fault;
    without it, when none of its four API calls meets a fault and four keys
    can be generated (the CA key and one per secret).  An error it returns
    is the message of a fault of one of these calls or of a failed key
    generation, behind the prefix of the operation.  (The signing of a
    certificate, part of tlsutil, does not fail in this development.) *)
Theorem X1_prepareEtcdTLSSecrets_succeeds_iff `{Helpers} (vr : VaultService)
    (w : World) :
  wp (prepareEtcdTLSSecrets vr) w (λ r _,
    match secrets w !! (vrNamespace vr, EtcdClientTLSSecretName (vrName vr)) with
    | Some _ => succeedsWith "prepare TLS secrets failed: " 1 0 w r
    | None => succeedsWith "prepare TLS secrets failed: " 4 4 w r
    end).
Proof. apply prepareEtcdTLSSecrets_verdict. Qed.

(** X2. prepareDefaultVaultTLSSecrets returns nil exactly when nothing stands
    in its way: without a TLS policy, when its two creations meet no fault
    and two keys can be generated; with a policy whose server secret
    exists, when the one get meets no fault; with a policy whose server
    secret is missing, when the get and the two creations meet no fault and
    two keys can be generated.  With a policy that counts as configured
    but names no static secrets it panics.  (The signing of a certificate,
    part of tlsutil, does not fail in this development.) *)
Theorem X2_prepareDefaultVaultTLSSecrets_succeeds_iff `{Helpers}
    (vr : VaultService) (w : World) :
  wp (prepareDefaultVaultTLSSecrets vr) w (λ r _,
    let prefix := "prepare default vault TLS secrets failed: " in
    if IsTLSConfigured (TLS (Spec vr)) then
      match specServerSecret vr with
      | None => ∃ msg, r = Panicked msg
      | Some serverSecret =>
          ∃ err, r = Returned err ∧
            match secrets w !! (vrNamespace vr, serverSecret) with
            | Some _ => succeedsWith prefix 1 0 w err
            | None => succeedsWith prefix 3 2 w err
            end
      end
    else ∃ err, r = Returned err ∧ succeedsWith prefix 2 2 w err).
Proof. apply prepareDefaultVaultTLSSecrets_verdict. Qed.

(** X3. A nil return of prepareEtcdTLSSecrets means that the client secret
    exists, and, when it did not exist before, that all three secrets do.
    A nil return of prepareDefaultVaultTLSSecrets means that the server
    secret the policy names exists or that both default secrets do, the
    latter whenever no configured server secret was found. *)
Theorem X3_prepare_nil_is_complete `{Helpers} (vr : VaultService) (w : World) :
  wp (prepareEtcdTLSSecrets vr) w (λ r w1,
    r = None →
    etcdSettled vr w1 ∧
    (¬ etcdSettled vr w →
     ∀ name, name ∈ etcdTLSSecretNames vr →
             is_Some (secrets w1 !! (vrNamespace vr, name)))) ∧
  wp (prepareDefaultVaultTLSSecrets vr) w (λ r w1,
    r = Returned None →
    vaultSettled vr w1 ∧
    (¬ vaultConfiguredExists vr w → vaultDefaultsExist vr w1)).
Proof.
  split.
  - eapply wp_mono; [|apply wp_conj;
      [apply prepareEtcdTLSSecrets_settles|apply prepareEtcdTLSSecrets_complete]].
    intros r w1 [Hs Hc] Hr. split; [by apply Hs|]. intros Hnot. by apply Hc.
  - eapply wp_mono; [|apply wp_conj;
      [apply prepareDefaultVaultTLSSecrets_settles
      |apply prepareDefaultVaultTLSSecrets_complete]].
    intros r w1 [Hs Hc] Hr. split; [by apply Hs|]. intros Hnot. by apply Hc.
Qed.

(** X4. The four operations touch the secrets of their group only: whatever
    is stored under another name or in another namespace is after a run
    what it was before, however the run ends. *)
Theorem X4_operations_touch_their_group_only `{Helpers} (vr : VaultService)
    (w : World) :
  let untouched (names : list string) (w1 : World) :=
    ∀ k, ¬ keysOf vr names k → secrets w1 !! k = secrets w !! k in
  wp (prepareEtcdTLSSecrets vr) w (λ _ w1, untouched (etcdTLSSecretNames vr) w1) ∧
  wp (prepareDefaultVaultTLSSecrets vr) w
     (λ _ w1, untouched (defaultVaultTLSSecretNames vr) w1) ∧
  wp (cleanupEtcdTLSSecrets vr) w (λ _ w1, untouched (etcdTLSSecretNames vr) w1) ∧
  wp (cleanupDefaultVaultTLSSecrets vr) w
     (λ _ w1, untouched (defaultVaultTLSSecretNames vr) w1).
Proof.
  intros untouched. split_and!.
  - apply prepareEtcdTLSSecrets_outside.
  - apply prepareDefaultVaultTLSSecrets_outside.
  - rewrite cleanupEtcdTLSSecrets_deleteAll. apply wp_cleanup_outside.
  - rewrite cleanupDefaultVaultTLSSecrets_deleteAll. apply wp_cleanup_outside.
Qed.

(** X5. Every secret a prepare operation stores sits in the namespace of the
    cluster resource under its own name, one of the names of the group, and
    carries the labels of the cluster and the cluster resource as its only
    owner. *)
Theorem X5_prepared_secret_metadata `{Helpers} (vr : VaultService) (w : World) :
  let labelled (names : list string) (w1 : World) :=
    ∀ k s, secrets w !! k = None → secrets w1 !! k = Some s →
      k = (vrNamespace vr, Name (SecretMeta s)) ∧
      Name (SecretMeta s) ∈ names ∧
      Namespace (SecretMeta s) = vrNamespace vr ∧
      Labels (SecretMeta s) = LabelsForVault (vrName vr) ∧
      OwnerReferences (SecretMeta s) = [AsOwner vr] in
  wp (prepareEtcdTLSSecrets vr) w (λ _ w1, labelled (etcdTLSSecretNames vr) w1) ∧
  wp (prepareDefaultVaultTLSSecrets vr) w
     (λ _ w1, labelled (defaultVaultTLSSecretNames vr) w1).
Proof.
  intros labelled. split.
  - eapply wp_mono; [|apply prepareEtcdTLSSecrets_grows].
    intros r w1 [caKey (_ & Hnew & _)] k s Hk Hs.
    destruct (Hnew k s Hk Hs) as (se & Hse & -> & ->).
    rewrite (EtcdBundle_meta _ _ _ _ Hse). simpl.
    split_and!; try done. by eapply EtcdBundle_name.
  - eapply wp_mono; [|apply prepareDefaultVaultTLSSecrets_grows].
    intros r w1 [caKey (_ & Hnew & _)] k s Hk Hs.
    destruct (Hnew k s Hk Hs) as (se & Hse & -> & ->).
    rewrite (VaultBundle_meta _ _ _ _ Hse). simpl.
    split_and!; try done. by eapply VaultBundle_name.
Qed.

(** X6. Cleanup undoes prepare: whatever a prepare operation did, and however
    it ended, a cleanup of the same group that returns nil leaves the store
    as it was before the two, without the secrets of the group; that is the
    store as it was, when none of them existed. *)
Theorem X6_cleanup_undoes_prepare `{Helpers} (vr : VaultService) (w : World) :
  let ns := vrNamespace vr in
  let undone (names : list string) (r : option error) (w2 : World) :=
    r = None →
    secrets w2 = without ns names (secrets w) ∧
    ((∀ name, name ∈ names → secrets w !! (ns, name) = None) →
     secrets w2 = secrets w) in
  wp (prepareEtcdTLSSecrets vr) w (λ _ w1,
    wp (cleanupEtcdTLSSecrets vr) w1 (undone (etcdTLSSecretNames vr))) ∧
  wp (prepareDefaultVaultTLSSecrets vr) w (λ _ w1,
    wp (cleanupDefaultVaultTLSSecrets vr) w1
       (undone (defaultVaultTLSSecretNames vr))).
Proof.
  intros ns undone. split.
  - eapply wp_mono; [|apply prepareEtcdTLSSecrets_outside].
    intros ? w1 Hout. rewrite cleanupEtcdTLSSecrets_deleteAll.
    eapply wp_mono; [|apply wp_cleanup].
    intros [err|] w2; [done|]. intros [_ Hw2] _. rewrite Hw2.
    rewrite (without_outside_eq vr _ _ _ Hout).
    split; [done|]. apply without_absent.
  - eapply wp_mono; [|apply prepareDefaultVaultTLSSecrets_outside].
    intros ? w1 Hout. rewrite cleanupDefaultVaultTLSSecrets_deleteAll.
    eapply wp_mono; [|apply wp_cleanup].
    intros [err|] w2; [done|]. intros [_ Hw2] _. rewrite Hw2.
    rewrite (without_outside_eq vr _ _ _ Hout).
    split; [done|]. apply without_absent.
Qed.

(** X7. A cleanup stops at the first deletion that fails: the secrets before
    it in the order of the operation are deleted, the failing one and those
    after it are left as they are, no further call is made, and the error
    names the secret and the fault. *)
Theorem X7_cleanup_stops_at_first_failure `{Helpers} (vr : VaultService)
    (w : World) :
  wp (cleanupEtcdTLSSecrets vr) w (λ r w1,
    ∀ err, r = Some err →
      stoppedAt "cleanup TLS secrets failed: " (vrNamespace vr)
        (etcdTLSSecretNames vr) w err w1) ∧
  wp (cleanupDefaultVaultTLSSecrets vr) w (λ r w1,
    ∀ err, r = Some err →
      stoppedAt "cleanup vault TLS secrets failed: " (vrNamespace vr)
        (defaultVaultTLSSecretNames vr) w err w1).
Proof.
  split.
  - rewrite cleanupEtcdTLSSecrets_deleteAll.
    eapply wp_mono; [|apply wp_cleanup].
    intros [err|] w1 Hr err' Herr; [|done]. by injection Herr as <-.
  - rewrite cleanupDefaultVaultTLSSecrets_deleteAll.
    eapply wp_mono; [|apply wp_cleanup].
    intros [err|] w1 Hr err' Herr; [|done]. by injection Herr as <-.
Qed.

(** X8. A failed run is not repaired by running again.  When the creation of
    the etcd server secret meets a fault, prepareEtcdTLSSecrets returns the
    error and leaves the client secret it has created in place; the next
    run finds the client secret, returns nil when its get meets no fault,
    and stores nothing: a server secret that was missing stays missing. *)
Theorem X8_failed_prepare_is_not_repaired `{Helpers} (vr : VaultService)
    (w : World) (f : Fault) :
  let ns := vrNamespace vr in
  let client := EtcdClientTLSSecretName (vrName vr) in
  let server := EtcdServerTLSSecretName (vrName vr) in
  secrets w !! (ns, client) = None →
  secrets w !! (ns, server) = None →
  client ≠ server →
  noFaults 2 w → faults w !! 2%nat = Some (Some f) →
  keysAvailable 3 w →
  wp (prepareEtcdTLSSecrets vr) w (λ r w1,
    r = Some (errorString ("prepare TLS secrets failed: " +:+ Error (faultError f))) ∧
    is_Some (secrets w1 !! (ns, client)) ∧
    secrets w1 !! (ns, server) = None ∧
    wp (prepareEtcdTLSSecrets vr) w1 (λ r2 w2,
      (dueFault w1 = None → r2 = None) ∧
      secrets w2 = secrets w1)).
Proof.
  intros ns client server Hclient Hserver Hne Hno Hf Hkeys.
  eapply wp_mono; [|by apply (prepareEtcdTLSSecrets_server_fault vr w f)].
  intros r w1 [-> [se Hst]].
  assert (is_Some (secrets w1 !! (ns, client))) as Hsettled.
  { rewrite Hst, lookup_insert_eq. by eexists. }
  split_and!; [done|done| |].
  - rewrite Hst, lookup_insert_ne; [done|]. intros [= ?]. by apply Hne.
  - unfold wp. rewrite (prepareEtcdTLSSecrets_settled_run vr w1 Hsettled).
    simpl. split; [|done]. by intros ->.
Qed.

(** X9. The CA key of a run is not stored.  Every certificate in a secret a
    prepare operation stores is signed with the key the run generates
    first, and when crypto/rand does not yield that key a second time none
    of the private keys in these secrets is that key. *)
Theorem X9_ca_key_is_not_stored `{Helpers} (vr : VaultService) (w : World)
    (caKey : PrivateKey) :
  let sealed (w1 : World) :=
    ∀ k s, secrets w !! k = None → secrets w1 !! k = Some s →
      (∀ n key, privateKeys s !! n = Some key → key ≠ caKey) ∧
      (∀ n crt, certificates s !! n = Some crt → SignedWith crt = Public caKey) in
  nextKeyOf w = Some caKey →
  Some caKey ∉ tail (entropy w) →
  wp (prepareEtcdTLSSecrets vr) w (λ _ w1, sealed w1) ∧
  wp (prepareDefaultVaultTLSSecrets vr) w (λ _ w1, sealed w1).
Proof.
  intros sealed Hkey Hfresh.
  assert (∀ w1, issuedUnder caKey (tail (entropy w)) w w1 → sealed w1) as Hs.
  { intros w1 Hissued k s Hk Hk1. destruct (Hissued k s Hk Hk1) as [Hkeys Hcrts].
    split; [|done]. intros n key Hn ->. apply Hfresh. by eapply Hkeys. }
  split.
  - eapply wp_mono; [|by apply prepareEtcdTLSSecrets_signed]. intros ?. apply Hs.
  - eapply wp_mono; [|by apply prepareDefaultVaultTLSSecrets_signed].
    intros ?. apply Hs.
Qed.

(** X10. An existing default server secret is kept, and the client secret is
    made for another CA.  Without a TLS policy, when the default server
    secret exists and the client secret does not, the run returns nil, the
    server secret is what it was, and the client secret holds the
    certificate of the CA this run has generated: a certificate of the
    server secret that was signed with another key does not verify against
    it. *)
Theorem X10_kept_server_secret_gets_foreign_ca `{Helpers} (vr : VaultService)
    (w : World) (s0 : Secret) (caKey : PrivateKey) :
  let ns := vrNamespace vr in
  let server := DefaultVaultServerTLSSecretName (vrName vr) in
  let client := DefaultVaultClientTLSSecretName (vrName vr) in
  IsTLSConfigured (TLS (Spec vr)) = false →
  server ≠ client →
  secrets w !! (ns, server) = Some s0 →
  secrets w !! (ns, client) = None →
  noFaults 2 w → keysAvailable 2 w → nextKeyOf w = Some caKey →
  wp (prepareDefaultVaultTLSSecrets vr) w (λ r w1,
    r = Returned None ∧
    secrets w1 !! (ns, server) = Some s0 ∧
    ∃ s1, secrets w1 !! (ns, client) = Some s1 ∧
          certificates s1 = {[ CATLSCertName := caCertFor caKey ]} ∧
          ∀ n crt, certificates s0 !! n = Some crt →
                   SignedWith crt ≠ Public caKey →
                   CheckSignatureFrom crt (caCertFor caKey) = false).
Proof.
  intros ns server client Hconf Hne Hserver Hclient Hno Hkeys Hkey.
  eapply wp_mono;
    [|by apply (prepareDefaultVaultTLSSecrets_server_kept vr w s0 caKey)].
  intros r w1 [-> Hst]. split_and!; [done| |].
  - rewrite Hst, lookup_insert_ne; [done|]. intros [= ?]. by apply Hne.
  - eexists. split_and!.
    + by rewrite Hst, lookup_insert_eq.
    + apply certificates_vault_client.
    + intros n crt _ Hsigned. unfold CheckSignatureFrom.
      rewrite (bool_decide_eq_false_2 (SignedWith crt = _)); [|done].
      by rewrite andb_false_r.
Qed.

(** X11. newTLSSecret reads the three data keys off its field map, where a
    missing entry reads as the empty name.  The secret has three entries
    exactly when the three names differ; the CA certificate is always
    there under its name, the certificate only when its name is not that
    of the CA, and the key only when its name is neither; with an empty
    field map the secret holds the CA certificate alone, under the empty
    name. *)
Theorem X11_newTLSSecret_field_map `{Helpers} (vr : VaultService)
    (caKey : PrivateKey) (caCrt : Certificate) (commonName secretName : string)
    (addrs : list string) (fieldMap : gmap string string)
    (w w1 : World) (se : Secret) :
  let k := field fieldMap "key" in
  let c := field fieldMap "cert" in
  let a := field fieldMap "ca" in
  newTLSSecret vr caKey caCrt commonName secretName addrs fieldMap w
    = (inr se, w1) →
  (size (Data se) = 3%nat ↔ NoDup [k; c; a]) ∧
  Data se !! a = Some (EncodeCertificatePEM caCrt) ∧
  (c ≠ a → ∃ crt, Data se !! c = Some (EncodeCertificatePEM crt) ∧
                  CertDNSNames crt = addrs ∧ IsCA crt = false) ∧
  (k ≠ c → k ≠ a → ∃ key, nextKeyOf w = Some key ∧
                          Data se !! k = Some (EncodePrivateKeyPEM key)) ∧
  (fieldMap = ∅ → Data se = {[ "" := EncodeCertificatePEM caCrt ]}).
Proof.
  intros k c a Hrun. apply newTLSSecret_drawn in Hrun as [-> Hr].
  destruct (nextKeyOf w) as [key|]; [|done]. injection Hr as ->.
  split_and!.
  - apply size_tlsSecretFor.
  - unfold tlsSecretFor. cbn [Data]. by rewrite lookup_insert_eq.
  - intros Hca. eexists. unfold tlsSecretFor. cbn [Data]. fold k c a.
    rewrite lookup_insert_ne, lookup_insert_eq by done. done.
  - intros Hkc Hka. exists key. split; [done|].
    unfold tlsSecretFor. cbn [Data]. fold k c a.
    by rewrite !lookup_insert_ne, lookup_insert_eq by done.
  - intros ->. unfold tlsSecretFor. cbn [Data]. unfold field.
    rewrite !lookup_empty. cbn [default].
    by rewrite !insert_insert_eq.
Qed.

(** ** The properties at work on the example cluster *)

Ltac no_faults := unfold noFaults; vm_compute; repeat constructor.
Ltac keys_available :=
  split; [vm_compute; lia|vm_compute; repeat constructor; by eexists].
Ltac not_among :=
  let Hin := fresh in
  intros Hin; vm_compute in Hin;
  repeat (apply elem_of_cons in Hin as [?|Hin]; [discriminate|]);
  by apply elem_of_nil in Hin.

Lemma X1_prepareEtcdTLSSecrets_succeeds_iff_witness :
  (@prepareEtcdTLSSecrets specHelpers vr0 w0).1 = None ∧
  (¬ noFaults 4 wTimeout ∧
   (@prepareEtcdTLSSecrets specHelpers vr0 wTimeout).1 ≠ None) ∧
  (@prepareEtcdTLSSecrets specHelpers vr0 wPartial).1 = None.
Proof.
  pose proof (@X1_prepareEtcdTLSSecrets_succeeds_iff specHelpers vr0 w0) as H0.
  pose proof (@X1_prepareEtcdTLSSecrets_succeeds_iff specHelpers vr0 wTimeout) as H1.
  pose proof (@X1_prepareEtcdTLSSecrets_succeeds_iff specHelpers vr0 wPartial) as H2.
  unfold wp in H0, H1, H2.
  destruct (secrets w0 !! _) eqn:E0 in H0; [by vm_compute in E0|].
  destruct (secrets wTimeout !! _) eqn:E1 in H1; [by vm_compute in E1|].
  destruct (secrets wPartial !! _) eqn:E2 in H2; [|by vm_compute in E2].
  assert (¬ noFaults 4 wTimeout) as Hfault.
  { unfold noFaults. vm_compute. intros Hall.
    do 2 apply Forall_cons in Hall as [_ Hall].
    by apply Forall_cons in Hall as [? _]. }
  split_and!.
  - apply (proj1 H0). split; [no_faults|keys_available].
  - exact Hfault.
  - intros Hnone. apply (proj1 H1) in Hnone as [? _]. by apply Hfault.
  - apply (proj1 H2). split; [no_faults|keys_available].
Defined.

Lemma X2_prepareDefaultVaultTLSSecrets_succeeds_iff_witness :
  (@prepareDefaultVaultTLSSecrets specHelpers vr0 w0).1 = Returned None ∧
  (@prepareDefaultVaultTLSSecrets specHelpers vrStatic wStatic).1 = Returned None ∧
  (@prepareDefaultVaultTLSSecrets specHelpers vrStatic w0).1 = Returned None.
Proof.
  pose proof (@X2_prepareDefaultVaultTLSSecrets_succeeds_iff specHelpers vr0 w0)
    as (err0 & Hr0 & H0).
  pose proof (@X2_prepareDefaultVaultTLSSecrets_succeeds_iff specHelpers vrStatic
                wStatic) as (err1 & Hr1 & H1).
  pose proof (@X2_prepareDefaultVaultTLSSecrets_succeeds_iff specHelpers vrStatic w0)
    as (err2 & Hr2 & H2).
  destruct (secrets wStatic !! _) eqn:E1 in H1; [|by vm_compute in E1].
  destruct (secrets w0 !! _) eqn:E2 in H2; [by vm_compute in E2|].
  split_and!.
  - rewrite Hr0. f_equal. apply (proj1 H0). split; [no_faults|keys_available].
  - rewrite Hr1. f_equal. apply (proj1 H1). split; [no_faults|keys_available].
  - rewrite Hr2. f_equal. apply (proj1 H2). split; [no_faults|keys_available].
Defined.

Lemma X3_prepare_nil_is_complete_witness :
  (∀ name, name ∈ ["example-etcd-client-tls"; "example-etcd-server-tls";
                   "example-etcd-peer-tls"] →
           is_Some (secrets wEtcd !! nsName name)) ∧
  is_Some (secrets wVault !! nsName "example-default-vault-server-tls") ∧
  is_Some (secrets wVault !! nsName "example-default-vault-client-tls").
Proof.
  pose proof (proj1 (@X3_prepare_nil_is_complete specHelpers vr0 w0)) as He.
  pose proof (proj2 (@X3_prepare_nil_is_complete specHelpers vr0 w0)) as Hv.
  unfold wp in He, Hv.
  destruct He as [_ He]; [by_running|].
  destruct Hv as [_ Hv]; [by_running|].
  split.
  - apply He. intros [s Hs]. by vm_compute in Hs.
  - apply Hv. intros (Hconf & _). by vm_compute in Hconf.
Defined.

Lemma X4_operations_touch_their_group_only_witness :
  secrets (@prepareEtcdTLSSecrets specHelpers vr0 wStatic).2
    !! nsName "my-server-tls" = secrets wStatic !! nsName "my-server-tls" ∧
  secrets (@cleanupEtcdTLSSecrets specHelpers vr0 wBoth).2
    !! nsName "example-default-vault-server-tls"
  = secrets wBoth !! nsName "example-default-vault-server-tls".
Proof.
  pose proof (@X4_operations_touch_their_group_only specHelpers vr0 wStatic)
    as (Hp & _ & _ & _).
  pose proof (@X4_operations_touch_their_group_only specHelpers vr0 wBoth)
    as (_ & _ & Hc & _).
  split.
  - apply Hp. intros (name & Hin & [= <-]). revert Hin. not_among.
  - apply Hc. intros (name & Hin & [= <-]). revert Hin. not_among.
Defined.

Lemma X5_prepared_secret_metadata_witness :
  ∃ s, secrets wEtcd !! nsName "example-etcd-peer-tls" = Some s ∧
       Name (SecretMeta s) = "example-etcd-peer-tls" ∧
       Namespace (SecretMeta s) = "default" ∧
       Labels (SecretMeta s) = {[ "app" := "vault"; "vault_cluster" := "example" ]} ∧
       OwnerReferences (SecretMeta s) = [@AsOwner specHelpers vr0].
Proof.
  pose proof (proj1 (@X5_prepared_secret_metadata specHelpers vr0 w0)) as Hm.
  unfold wp in Hm.
  assert (is_Some (secrets wEtcd !! nsName "example-etcd-peer-tls")) as [s Hs].
  { eexists. by_running. }
  destruct (Hm (nsName "example-etcd-peer-tls") s)
    as (Hk & _ & Hns & Hlabels & Howner); [by_running|exact Hs|].
  exists s. split_and!; [exact Hs| |exact Hns|exact Hlabels|exact Howner].
  clear -Hk. by injection Hk.
Defined.

Lemma X6_cleanup_undoes_prepare_witness :
  secrets (@cleanupEtcdTLSSecrets specHelpers vr0 wEtcd).2 = secrets w0 ∧
  secrets (@cleanupDefaultVaultTLSSecrets specHelpers vr0 wBoth).2 = secrets wEtcd.
Proof.
  pose proof (proj1 (@X6_cleanup_undoes_prepare specHelpers vr0 w0)) as He.
  pose proof (proj2 (@X6_cleanup_undoes_prepare specHelpers vr0 wEtcd)) as Hv.
  unfold wp in He, Hv. split.
  - apply He; [by_running|]. intros name _. by_running.
  - apply Hv; [by_running|]. intros name Hin.
    repeat (apply elem_of_cons in Hin as [->|Hin]; [by_running|]).
    by apply elem_of_nil in Hin.
Defined.

Lemma X7_cleanup_stops_at_first_failure_witness :
  is_Some (secrets wForbidden !! nsName "example-etcd-client-tls") ∧
  secrets (@cleanupEtcdTLSSecrets specHelpers vr0 wForbidden).2
    !! nsName "example-etcd-client-tls" = None ∧
  is_Some (secrets (@cleanupEtcdTLSSecrets specHelpers vr0 wForbidden).2
             !! nsName "example-etcd-server-tls") ∧
  is_Some (secrets (@cleanupEtcdTLSSecrets specHelpers vr0 wForbidden).2
             !! nsName "example-etcd-peer-tls") ∧
  length (trace (@cleanupEtcdTLSSecrets specHelpers vr0 wForbidden).2) = 2%nat.
Proof.
  pose proof (proj1 (@X7_cleanup_stops_at_first_failure specHelpers vr0 wForbidden))
    as Hstop.
  unfold wp in Hstop.
  assert (is_Some (@cleanupEtcdTLSSecrets specHelpers vr0 wForbidden).1)
    as [err Herr].
  { eexists. by_running. }
  destruct (Hstop err Herr)
    as (i & name & f & Hname & Hno & Hf & _ & Hst & evs & Htr & Hlen).
  assert (i = 1%nat) as ->.
  { clear -Hf. change (faults wForbidden) with [None; Some FaultForbidden] in Hf.
    destruct i as [|[|i]]; [discriminate Hf|reflexivity|discriminate Hf]. }
  split_and!.
  - eexists. by_running.
  - rewrite Hst. by_running.
  - rewrite Hst. eexists. by_running.
  - rewrite Hst. eexists. by_running.
  - rewrite Htr, length_app, Hlen. reflexivity.
Defined.

Lemma X8_failed_prepare_is_not_repaired_witness :
  (@prepareEtcdTLSSecrets specHelpers vr0 wTimeout).1 =
    Some (errorString "prepare TLS secrets failed: request timed out") ∧
  is_Some (secrets wPartial !! nsName "example-etcd-client-tls") ∧
  secrets wPartial !! nsName "example-etcd-server-tls" = None ∧
  (@prepareEtcdTLSSecrets specHelpers vr0 wPartial).1 = None ∧
  secrets (@prepareEtcdTLSSecrets specHelpers vr0 wPartial).2 = secrets wPartial.
Proof.
  destruct (@X8_failed_prepare_is_not_repaired specHelpers vr0 wTimeout FaultTimeout)
    as (Hr & Hclient & Hserver & Hagain & Hsame);
    [by_running|by_running|done|no_faults|reflexivity|keys_available|].
  split_and!; [exact Hr|exact Hclient|exact Hserver| |exact Hsame].
  apply Hagain. reflexivity.
Defined.

Lemma X9_ca_key_is_not_stored_witness :
  ∃ s key crt,
    secrets wEtcd !! nsName "example-etcd-server-tls" = Some s ∧
    privateKeys s !! "server.key" = Some key ∧ key ≠ caKey0 ∧
    certificates s !! "server.crt" = Some crt ∧ SignedWith crt = Public caKey0.
Proof.
  destruct (@X9_ca_key_is_not_stored specHelpers vr0 w0 caKey0) as [He _];
    [reflexivity|not_among|].
  unfold wp in He.
  assert (is_Some (secrets wEtcd !! nsName "example-etcd-server-tls")) as [s Hs].
  { eexists. by_running. }
  destruct (He (nsName "example-etcd-server-tls") s) as [Hkeys Hcrts];
    [by_running|exact Hs|].
  assert (∃ key, privateKeys s !! "server.key" = Some key) as [key Hkey].
  { assert (Some s = secrets wEtcd !! nsName "example-etcd-server-tls") as Heq
      by done.
    vm_compute in Heq. injection Heq as ->. eexists. by_running. }
  assert (∃ crt, certificates s !! "server.crt" = Some crt) as [crt Hcrt].
  { assert (Some s = secrets wEtcd !! nsName "example-etcd-server-tls") as Heq
      by done.
    vm_compute in Heq. injection Heq as ->. eexists. by_running. }
  exists s, key, crt. split_and!; [done..|by eapply Hkeys|done|by eapply Hcrts].
Defined.

Lemma X10_kept_server_secret_gets_foreign_ca_witness :
  ∃ s0 s1 crt,
    secrets wServerOnly !! nsName "example-default-vault-server-tls" = Some s0 ∧
    secrets (@prepareDefaultVaultTLSSecrets specHelpers vr0 wServerOnly).2
      !! nsName "example-default-vault-server-tls" = Some s0 ∧
    secrets (@prepareDefaultVaultTLSSecrets specHelpers vr0 wServerOnly).2
      !! nsName "example-default-vault-client-tls" = Some s1 ∧
    certificates s1 = {[ "ca.crt" := caCertFor {| keyMaterial := 21 |} ]} ∧
    certificates s0 !! "server.crt" = Some crt ∧
    CheckSignatureFrom crt (caCertFor {| keyMaterial := 21 |}) = false.
Proof.
  assert (is_Some (secrets wServerOnly
                     !! nsName "example-default-vault-server-tls")) as [s0 Hs0].
  { eexists. by_running. }
  destruct (@X10_kept_server_secret_gets_foreign_ca specHelpers vr0 wServerOnly s0
              {| keyMaterial := 21 |})
    as (_ & Hkept & s1 & Hs1 & Hca & Hforeign);
    [reflexivity|done|exact Hs0|by_running|no_faults|keys_available
    |reflexivity|].
  assert (∃ crt, certificates s0 !! "server.crt" = Some crt ∧
                 SignedWith crt ≠ Public {| keyMaterial := 21 |})
    as (crt & Hcrt & Hsigned).
  { assert (Some s0 = secrets wServerOnly
                        !! nsName "example-default-vault-server-tls") as Heq
      by done.
    vm_compute in Heq. injection Heq as ->. eexists. split; [by_running|done]. }
  exists s0, s1, crt. split_and!; [done..|]. by eapply Hforeign.
Defined.

Lemma X11_newTLSSecret_field_map_witness :
  size (Data (secretOf exVaultServer)) = 3%nat ∧
  Data (secretOf (@newTLSSecret specHelpers vr0 caKey0 (caCertFor caKey0)
                    "vault server" "example" ["localhost"] ∅ w0))
  = {[ "" := EncodeCertificatePEM (caCertFor caKey0) ]}.
Proof.
  destruct (@X11_newTLSSecret_field_map specHelpers vr0 caKey0 (caCertFor caKey0)
              "vault server" "example-default-vault-server-tls"
              (vaultServerAddrs vr0)
              (fieldNames ServerTLSKeyName ServerTLSCertName "server-ca.crt")
              w0 (drawn w0) (secretOf exVaultServer))
    as (Hsize & _); [by_running|].
  destruct (@X11_newTLSSecret_field_map specHelpers vr0 caKey0 (caCertFor caKey0)
              "vault server" "example" ["localhost"] ∅ w0 (drawn w0)
              (secretOf (@newTLSSecret specHelpers vr0 caKey0 (caCertFor caKey0)
                           "vault server" "example" ["localhost"] ∅ w0)))
    as (_ & _ & _ & _ & Hempty); [by_running|].
  split.
  - apply Hsize. vm_compute.
    repeat (constructor; [not_among|]). constructor.
  - by apply Hempty.
Defined.

(** * The cluster utilities: properties *)

Module E2EUtilFacts.
Import E2EUtil.

Ltac run_call :=
  unfold call, lookupCR, storeCR, nextPending, observe, Logf, LogfWithTimestamp,
    mbind, T_bind, mret, T_ret, after, logged, due; simpl.

Lemma VaultServices_Get_run namespace name w :
  Get namespace name w =
    (getOutcome namespace name w,
     after w (vaultServices w)
       (Called VerbGet namespace name (errOf (getOutcome namespace name w)))).
Proof.
  unfold Get, getOutcome. run_call.
  destruct w as [st [|[f|] fs] obs]; simpl;
    try destruct (st !! (namespace, name)); reflexivity.
Qed.

Lemma VaultServices_Update_run namespace vs w :
  Update namespace vs w =
    (updateOutcome namespace vs w,
     after w
       (match updateOutcome namespace vs w with
        | inr v => <[(namespace, Name (VaultMeta vs)) := v]> (vaultServices w)
        | inl _ => vaultServices w
        end)
       (Called VerbUpdate namespace (Name (VaultMeta vs))
          (errOf (updateOutcome namespace vs w)))).
Proof.
  unfold Update, updateOutcome. run_call.
  destruct w as [st [|[f|] fs] obs]; simpl;
    try destruct (st !! (namespace, Name (VaultMeta vs))); reflexivity.
Qed.

Lemma VaultServices_Create_run namespace vs w :
  Create namespace vs w =
    match due w, vaultServices w !! (namespace, Name (VaultMeta vs)) with
    | Some f, _ =>
        (inl (faultError f),
         after w (vaultServices w)
           (Called VerbCreate namespace (Name (VaultMeta vs))
              (Some (faultError f))))
    | None, Some _ =>
        (inl (alreadyExists (Name (VaultMeta vs))),
         after w (vaultServices w)
           (Called VerbCreate namespace (Name (VaultMeta vs))
              (Some (alreadyExists (Name (VaultMeta vs))))))
    | None, None =>
        (inr vs,
         after w (<[(namespace, Name (VaultMeta vs)) := vs]> (vaultServices w))
           (Called VerbCreate namespace (Name (VaultMeta vs)) None))
    end.
Proof.
  unfold Create. run_call.
  destruct w as [st [|[f|] fs] obs]; simpl;
    try destruct (st !! (namespace, Name (VaultMeta vs))); reflexivity.
Qed.

Lemma VaultServices_Delete_run namespace name w :
  Delete namespace name w =
    match due w, vaultServices w !! (namespace, name) with
    | Some f, _ =>
        (inl (faultError f),
         after w (vaultServices w)
           (Called VerbDelete namespace name (Some (faultError f))))
    | None, None =>
        (inl (notFound name),
         after w (vaultServices w)
           (Called VerbDelete namespace name (Some (notFound name))))
    | None, Some _ =>
        (inr tt,
         after w (delete (namespace, name) (vaultServices w))
           (Called VerbDelete namespace name None))
    end.
Proof.
  unfold Delete. run_call.
  destruct w as [st [|[f|] fs] obs]; simpl;
    try destruct (st !! (namespace, name)); reflexivity.
Qed.

Lemma bind_run {A B} (m : T A) (k : A → T B) w :
  (m ≫= k) w = k (m w).1 (m w).2.
Proof. unfold mbind, T_bind. by destruct (m w). Qed.

Lemma calm_S n w : calm (S n) w ↔ due w = None ∧ ∀ st o, calm n (after w st o).
Proof.
  unfold calm, due, after. simpl.
  destruct (pending w) as [|[f|] fs]; simpl.
  - rewrite take_nil. split; [done|]. intros _. constructor.
  - rewrite Forall_cons. split; [by intros [[=] _]|by intros [[=] _]].
  - rewrite Forall_cons. split.
    + by intros [_ ?].
    + intros [_ Hn]. split; [done|]. apply (Hn ∅ (Logged false "" [])).
Qed.

Lemma calm_due n w : calm (S n) w → due w = None.
Proof. by intros [? _]%calm_S. Qed.

Lemma calm_after n w st o : calm (S n) w → calm n (after w st o).
Proof. intros [_ Hn]%calm_S. apply Hn. Qed.

Lemma calm_logged n w o : calm n w → calm n (logged w o).
Proof. done. Qed.

Lemma ResizeCluster_writeField vs size :
  ResizeCluster vs size =
    writeField vs (λ vault, setNodes vault (int32 size))
      (λ vault, Logged true "updated vault cluster(%v) to size(%v)"
                  [ArgString (Name (VaultMeta vault)); ArgInt size]).
Proof. reflexivity. Qed.

Lemma UpdateVersion_writeField vs version :
  UpdateVersion vs version =
    writeField vs (λ vault, setVersion vault version)
      (λ vault, Logged true "updated vault cluster(%v) to version(%v)"
                  [ArgString (Name (VaultMeta vault)); ArgString version]).
Proof. reflexivity. Qed.

Lemma writeField_ok vs change line w v :
  (∀ v, VaultMeta (change v) = VaultMeta v) →
  vaultServices w !! keyOf vs = Some v →
  keyOf v = keyOf vs →
  calm 2 w →
  ∃ w1,
    writeField vs change line w = (inr (change v), w1) ∧
    vaultServices w1 = <[keyOf vs := change v]> (vaultServices w) ∧
    pending w1 = tail (tail (pending w)) ∧
    observed w1 = observed w ++
      [Called VerbGet (Namespace (VaultMeta vs)) (Name (VaultMeta vs)) None;
       Called VerbUpdate (Namespace (VaultMeta vs)) (Name (VaultMeta vs)) None;
       line (change v)].
Proof.
  intros Hmeta Hv Hkey Hcalm. unfold writeField.
  rewrite bind_run, VaultServices_Get_run. cbn [fst snd]. unfold getOutcome.
  rewrite (calm_due _ _ Hcalm). unfold keyOf in Hv. rewrite Hv.
  set (w1 := after _ _ _).
  assert (calm 1 w1) as Hcalm1 by by apply calm_after.
  rewrite bind_run, VaultServices_Update_run. cbn [fst snd]. unfold updateOutcome.
  rewrite (calm_due _ _ Hcalm1), Hmeta.
  assert (Name (VaultMeta v) = Name (VaultMeta vs)) as -> by by injection Hkey.
  change (vaultServices w1) with (vaultServices w). rewrite Hv.
  eexists. split; [reflexivity|]. split_and!; [done..|].
  simpl. by rewrite <- !(assoc_L (++)).
Qed.

Lemma writeField_error vs change line w err w1 :
  writeField vs change line w = (inl err, w1) →
  vaultServices w1 = vaultServices w ∧
  linesOf (observed w1) = linesOf (observed w) ∧
  ((∃ cause,
      err = Errorf "failed to get CR: " cause ∧
      observed w1 = observed w ++
        [Called VerbGet (Namespace (VaultMeta vs)) (Name (VaultMeta vs))
           (Some cause)]) ∨
   (∃ cause name,
      err = Errorf "failed to update CR: " cause ∧
      observed w1 = observed w ++
        [Called VerbGet (Namespace (VaultMeta vs)) (Name (VaultMeta vs)) None;
         Called VerbUpdate (Namespace (VaultMeta vs)) name (Some cause)])).
Proof.
  unfold writeField. rewrite bind_run, VaultServices_Get_run. cbn [fst snd].
  destruct (getOutcome _ _ w) as [cause|v] eqn:Hget.
  { intros [= <- <-]. split_and!; [done| |left; by eexists].
    unfold linesOf. simpl. rewrite List.filter_app. simpl.
    by rewrite app_nil_r. }
  set (w' := after _ _ _).
  rewrite bind_run, VaultServices_Update_run. cbn [fst snd].
  destruct (updateOutcome _ _ w') as [cause|v'] eqn:Hupd; [|done].
  intros [= <- <-]. split_and!; [done| |right; eexists _, _; split; [done|]].
  - unfold linesOf. simpl. rewrite !List.filter_app. simpl.
    by rewrite !app_nil_r.
  - simpl. by rewrite <- !(assoc_L (++)).
Qed.

Ltac write_ok v w1 Hrun Hst Hp Hobs :=
  match goal with
  | |- context [writeField ?vs ?c ?l ?w] =>
      destruct (writeField_ok vs c l w v) as (w1 & Hrun & Hst & Hp & Hobs);
      [done..|]
  end.

Lemma calm_le (n m : nat) w : (n ≤ m)%nat → calm m w → calm n w.
Proof.
  intros Hle Hm. unfold calm in *. replace n with (n `min` m)%nat by lia.
  rewrite <- take_take. by apply Forall_take.
Qed.

Lemma int32_fits n : fitsInt32 (int32 n).
Proof.
  unfold fitsInt32, int32.
  pose proof (Z.mod_pos_bound (n + 2 ^ 31) (2 ^ 32)) as Hb. lia.
Qed.

Lemma int32_id n : int32 n = n ↔ fitsInt32 n.
Proof.
  split.
  - intros <-. apply int32_fits.
  - unfold fitsInt32, int32. intros Hn. rewrite Z.mod_small; lia.
Qed.

Lemma CreateCluster_run vs w :
  CreateCluster vs w =
    match due w, vaultServices w !! keyOf vs with
    | Some f, _ =>
        (inl (Errorf "failed to create CR: " (faultError f)),
         after w (vaultServices w)
           (Called VerbCreate (Namespace (VaultMeta vs)) (Name (VaultMeta vs))
              (Some (faultError f))))
    | None, Some _ =>
        (inl (Errorf "failed to create CR: " (alreadyExists (Name (VaultMeta vs)))),
         after w (vaultServices w)
           (Called VerbCreate (Namespace (VaultMeta vs)) (Name (VaultMeta vs))
              (Some (alreadyExists (Name (VaultMeta vs))))))
    | None, None =>
        (inr vs,
         logged
           (after w (<[keyOf vs := vs]> (vaultServices w))
              (Called VerbCreate (Namespace (VaultMeta vs)) (Name (VaultMeta vs))
                 None))
           (Logged true "created vault cluster: %s"
              [ArgString (Name (VaultMeta vs))]))
    end.
Proof.
  unfold CreateCluster. rewrite bind_run, VaultServices_Create_run. unfold keyOf.
  destruct (due w); [done|]. by destruct (vaultServices w !! _).
Qed.

Lemma DeleteCluster_run vs w :
  let line := Logged false "deleting vault cluster: %v"
                [ArgString (Name (VaultMeta vs))] in
  DeleteCluster vs w =
    match due w, vaultServices w !! keyOf vs with
    | Some f, _ =>
        (Some (Errorf "failed to delete CR: " (faultError f)),
         after (logged w line) (vaultServices w)
           (Called VerbDelete (Namespace (VaultMeta vs)) (Name (VaultMeta vs))
              (Some (faultError f))))
    | None, None =>
        (Some (Errorf "failed to delete CR: " (notFound (Name (VaultMeta vs)))),
         after (logged w line) (vaultServices w)
           (Called VerbDelete (Namespace (VaultMeta vs)) (Name (VaultMeta vs))
              (Some (notFound (Name (VaultMeta vs))))))
    | None, Some _ =>
        (None,
         after (logged w line) (delete (keyOf vs) (vaultServices w))
           (Called VerbDelete (Namespace (VaultMeta vs)) (Name (VaultMeta vs))
              None))
    end.
Proof.
  intros line. unfold DeleteCluster. rewrite bind_run.
  change ((Logf "deleting vault cluster: %v"
             [ArgString (Name (VaultMeta vs))] w).2) with (logged w line).
  rewrite bind_run, VaultServices_Delete_run. unfold keyOf.
  change (due (logged w line)) with (due w).
  change (vaultServices (logged w line)) with (vaultServices w).
  destruct (due w); [done|]. by destruct (vaultServices w !! _).
Qed.

(** X12. ResizeCluster and UpdateVersion write one field of the stored
    resource.  When the resource is stored under its own namespace and name
    and the two calls meet no fault, ResizeCluster returns the stored
    resource with [Nodes] set to [int32(size)] and UpdateVersion returns it
    with [Version] set; that is what is stored afterwards, all else of the
    resource and of the store being as before.  Of the resource passed in
    only the namespace and the name are used: what else it holds is not
    written back. *)
Theorem X12_write_one_field (vs v : VaultService) (size : Z) (version : string)
    (w : API) :
  vaultServices w !! keyOf vs = Some v →
  keyOf v = keyOf vs →
  calm 2 w →
  (∃ w1, ResizeCluster vs size w = (inr (setNodes v (int32 size)), w1) ∧
         vaultServices w1 = <[keyOf vs := setNodes v (int32 size)]> (vaultServices w)) ∧
  (∃ w1, UpdateVersion vs version w = (inr (setVersion v version), w1) ∧
         vaultServices w1 = <[keyOf vs := setVersion v version]> (vaultServices w)) ∧
  (VaultMeta (setNodes v (int32 size)) = VaultMeta v ∧
   Version (Spec (setNodes v (int32 size))) = Version (Spec v) ∧
   TLS (Spec (setNodes v (int32 size))) = TLS (Spec v)) ∧
  (VaultMeta (setVersion v version) = VaultMeta v ∧
   Nodes (Spec (setVersion v version)) = Nodes (Spec v) ∧
   TLS (Spec (setVersion v version)) = TLS (Spec v)).
Proof.
  intros Hv Hkey Hcalm. split_and!; try done.
  - rewrite ResizeCluster_writeField. write_ok v w1 Hrun Hst Hp Hobs.
    by exists w1.
  - rewrite UpdateVersion_writeField. write_ok v w1 Hrun Hst Hp Hobs.
    by exists w1.
Qed.

(** X13. Resizing and upgrading commute, whatever copy of the resource they
    are given: when four calls meet no fault, ResizeCluster followed by
    UpdateVersion and UpdateVersion followed by ResizeCluster, each called
    with any resource of the same namespace and name, leave the same store,
    in which the resource has both fields set. *)
Theorem X13_resize_and_upgrade_commute (vs vs' v : VaultService) (size : Z)
    (version : string) (w : API) :
  vaultServices w !! keyOf vs = Some v →
  keyOf v = keyOf vs → keyOf vs' = keyOf vs →
  calm 4 w →
  let w1 := (UpdateVersion vs' version (ResizeCluster vs size w).2).2 in
  let w2 := (ResizeCluster vs' size (UpdateVersion vs version w).2).2 in
  vaultServices w1 = vaultServices w2 ∧
  vaultServices w1 =
    <[keyOf vs := setVersion (setNodes v (int32 size)) version]> (vaultServices w).
Proof.
  intros Hv Hkey Hkey' Hcalm w1 w2.
  assert (calm 2 w) as Hcalm2 by (apply (calm_le 2 4); [lia|done]).
  assert (∀ wa, pending wa = tail (tail (pending w)) → calm 2 wa) as Hrest.
  { intros wa Hp. unfold calm in *. rewrite Hp.
    destruct (pending w) as [|f1 [|f2 fs]]; simpl; [constructor..|].
    simpl in Hcalm. by do 2 apply Forall_cons in Hcalm as [_ Hcalm]. }
  assert (vaultServices w1 =
    <[keyOf vs := setVersion (setNodes v (int32 size)) version]> (vaultServices w))
    as Hw1.
  { unfold w1. rewrite ResizeCluster_writeField.
    write_ok v wa Hrun Hst Hp Hobs. rewrite Hrun. cbn [snd].
    rewrite UpdateVersion_writeField.
    destruct (writeField_ok vs' (λ vault, setVersion vault version)
                (λ vault, Logged true "updated vault cluster(%v) to version(%v)"
                   [ArgString (Name (VaultMeta vault)); ArgString version])
                wa (setNodes v (int32 size)))
      as (wb & -> & Hstb & _); [done| | |by apply Hrest|].
    { rewrite Hkey', Hst. apply lookup_insert_eq. }
    { by rewrite Hkey'. }
    cbn [snd]. rewrite Hstb, Hst, Hkey'. apply insert_insert_eq. }
  split; [|exact Hw1]. rewrite Hw1. unfold w2.
  rewrite UpdateVersion_writeField.
  write_ok v wa Hrun Hst Hp Hobs. rewrite Hrun. cbn [snd].
  rewrite ResizeCluster_writeField.
  destruct (writeField_ok vs' (λ vault, setNodes vault (int32 size))
              (λ vault, Logged true "updated vault cluster(%v) to size(%v)"
                 [ArgString (Name (VaultMeta vault)); ArgInt size])
              wa (setVersion v version))
    as (wb & -> & Hstb & _); [done| | |by apply Hrest|].
  { rewrite Hkey', Hst. apply lookup_insert_eq. }
  { by rewrite Hkey'. }
  cbn [snd]. rewrite Hstb, Hst, Hkey'. by rewrite insert_insert_eq.
Qed.

(** X14. An error means that nothing was changed.  When CreateCluster,
    ResizeCluster, UpdateVersion or DeleteCluster return an error, the
    custom resources are what they were; the error says which call failed,
    and a failed get is not followed by an update.  The first three log
    nothing then; DeleteCluster has logged its line before the call. *)
Theorem X14_error_changes_nothing (vs : VaultService) (size : Z) (version : string)
    (w : API) :
  let failedWrite (err : error) (w1 : API) :=
    vaultServices w1 = vaultServices w ∧
    linesOf (observed w1) = linesOf (observed w) ∧
    ((∃ cause,
        err = errorString ("failed to get CR: " +:+ Error cause) ∧
        observed w1 = observed w ++
          [Called VerbGet (Namespace (VaultMeta vs)) (Name (VaultMeta vs))
             (Some cause)]) ∨
     (∃ cause name,
        err = errorString ("failed to update CR: " +:+ Error cause) ∧
        observed w1 = observed w ++
          [Called VerbGet (Namespace (VaultMeta vs)) (Name (VaultMeta vs)) None;
           Called VerbUpdate (Namespace (VaultMeta vs)) name (Some cause)])) in
  (∀ err w1, CreateCluster vs w = (inl err, w1) →
     vaultServices w1 = vaultServices w ∧
     linesOf (observed w1) = linesOf (observed w) ∧
     ∃ cause, err = errorString ("failed to create CR: " +:+ Error cause)) ∧
  (∀ err w1, ResizeCluster vs size w = (inl err, w1) → failedWrite err w1) ∧
  (∀ err w1, UpdateVersion vs version w = (inl err, w1) → failedWrite err w1) ∧
  (∀ err w1, DeleteCluster vs w = (Some err, w1) →
     vaultServices w1 = vaultServices w ∧
     linesOf (observed w1) =
       linesOf (observed w) ++
         [Logged false "deleting vault cluster: %v"
            [ArgString (Name (VaultMeta vs))]] ∧
     ∃ cause, err = errorString ("failed to delete CR: " +:+ Error cause)).
Proof.
  intros failedWrite. split_and!.
  - intros err w1. rewrite CreateCluster_run.
    destruct (due w); [|destruct (vaultServices w !! _)]; intros [= <- <-];
      (split_and!; [done| |by eexists]);
      unfold linesOf; simpl; rewrite List.filter_app; simpl;
      by rewrite app_nil_r.
  - intros err w1. rewrite ResizeCluster_writeField. apply writeField_error.
  - intros err w1. rewrite UpdateVersion_writeField. apply writeField_error.
  - intros err w1. rewrite DeleteCluster_run.
    destruct (due w); [|destruct (vaultServices w !! _)]; intros [= <- <-];
      (split_and!; [done| |by eexists]);
      unfold linesOf; simpl; rewrite !List.filter_app; simpl;
      by rewrite app_nil_r.
Qed.

(** X15. Creating a cluster and deleting it again leaves the custom resources
    as they were, when the name was free and the two calls meet no fault.
    Deleting a cluster that does not exist is an error: unlike the cleanup
    of the operator, DeleteCluster does not take a resource that is gone
    for deleted. *)
Theorem X15_create_then_delete (vs : VaultService) (w : API) :
  vaultServices w !! keyOf vs = None →
  calm 2 w →
  (∃ w1, CreateCluster vs w = (inr vs, w1) ∧
         vaultServices w1 !! keyOf vs = Some vs ∧
         ∃ w2, DeleteCluster vs w1 = (None, w2) ∧
               vaultServices w2 = vaultServices w) ∧
  (∃ w1, DeleteCluster vs w =
           (Some (errorString ("failed to delete CR: vaultservices '"
                                 +:+ Name (VaultMeta vs) +:+ "' not found")), w1) ∧
         vaultServices w1 = vaultServices w).
Proof.
  intros Hfree Hcalm. split.
  - rewrite CreateCluster_run, (calm_due _ _ Hcalm), Hfree.
    eexists. split; [done|]. set (w1 := logged _ _).
    assert (vaultServices w1 !! keyOf vs = Some vs) as Hvs
      by apply lookup_insert_eq.
    split; [done|].
    rewrite DeleteCluster_run.
    assert (due w1 = None) as ->.
    { apply (calm_due 0). unfold w1. by apply calm_logged, calm_after. }
    rewrite Hvs. eexists. split; [done|]. simpl.
    by rewrite delete_insert_eq, delete_id.
  - rewrite DeleteCluster_run, (calm_due _ _ Hcalm), Hfree. by eexists.
Qed.

(** X16. ResizeCluster stores a size of 32 bits.  What it stores is in the
    range of an int32, and is the size asked for exactly when that is in
    the range; the line it logs shows the size asked for, also when
    another was stored. *)
Theorem X16_ResizeCluster_stores_int32 (vs v : VaultService) (size : Z) (w : API) :
  vaultServices w !! keyOf vs = Some v →
  keyOf v = keyOf vs →
  calm 2 w →
  ∃ v1 w1,
    ResizeCluster vs size w = (inr v1, w1) ∧
    vaultServices w1 !! keyOf vs = Some v1 ∧
    fitsInt32 (Nodes (Spec v1)) ∧
    (Nodes (Spec v1) = size ↔ fitsInt32 size) ∧
    Nodes (Spec v1) = ((size + 2 ^ 31) mod 2 ^ 32 - 2 ^ 31)%Z ∧
    linesOf (observed w1) =
      linesOf (observed w) ++
        [Logged true "updated vault cluster(%v) to size(%v)"
           [ArgString (Name (VaultMeta vs)); ArgInt size]].
Proof.
  intros Hv Hkey Hcalm. rewrite ResizeCluster_writeField.
  write_ok v w1 Hrun Hst Hp Hobs. rewrite Hrun.
  eexists _, w1. split; [done|]. split_and!.
  - rewrite Hst. apply lookup_insert_eq.
  - apply int32_fits.
  - apply int32_id.
  - done.
  - rewrite Hobs. unfold linesOf. rewrite List.filter_app. simpl.
    assert (Name (VaultMeta v) = Name (VaultMeta vs)) as -> by by injection Hkey.
    done.
Qed.

(** ** The properties at work on a test cluster *)

Ltac is_calm := unfold calm; vm_compute; repeat constructor.

Lemma X12_write_one_field_witness :
  vaultServices (ResizeCluster (testVault 5 "stale") 2 oneCluster).2
    !! ("e2e", "test-vault") = Some (testVault 2 "0.9.1-0") ∧
  vaultServices (UpdateVersion (testVault 5 "stale") "0.9.1-1" oneCluster).2
    !! ("e2e", "test-vault") = Some (testVault 1 "0.9.1-1").
Proof.
  destruct (X12_write_one_field (testVault 5 "stale") (testVault 1 "0.9.1-0")
              2 "0.9.1-1" oneCluster)
    as ((w1 & Hrun1 & Hst1) & (w2 & Hrun2 & Hst2) & _);
    [vm_compute; reflexivity|reflexivity|is_calm|].
  rewrite Hrun1, Hrun2. cbn [snd]. rewrite Hst1, Hst2.
  split; apply lookup_insert_eq.
Defined.

Lemma X13_resize_and_upgrade_commute_witness :
  vaultServices
    (UpdateVersion (testVault 1 "0.9.1-0") "0.9.1-1"
       (ResizeCluster (testVault 1 "0.9.1-0") 2 oneCluster).2).2
  = vaultServices
      (ResizeCluster (testVault 1 "0.9.1-0") 2
         (UpdateVersion (testVault 1 "0.9.1-0") "0.9.1-1" oneCluster).2).2 ∧
  vaultServices
    (UpdateVersion (testVault 1 "0.9.1-0") "0.9.1-1"
       (ResizeCluster (testVault 1 "0.9.1-0") 2 oneCluster).2).2
    !! ("e2e", "test-vault") = Some (testVault 2 "0.9.1-1").
Proof.
  destruct (X13_resize_and_upgrade_commute (testVault 1 "0.9.1-0")
              (testVault 1 "0.9.1-0") (testVault 1 "0.9.1-0") 2 "0.9.1-1"
              oneCluster) as [Hsame Hboth];
    [vm_compute; reflexivity|reflexivity|reflexivity|is_calm|].
  split; [exact Hsame|]. rewrite Hboth. apply lookup_insert_eq.
Defined.

Lemma X14_error_changes_nothing_witness :
  ∃ w1,
    ResizeCluster (testVault 1 "0.9.1-0") 2 noCluster =
      (inl (errorString
              "failed to get CR: vaultservices 'test-vault' not found"), w1) ∧
    vaultServices w1 = vaultServices noCluster ∧
    linesOf (observed w1) = linesOf (observed noCluster).
Proof.
  eexists. split; [vm_compute; reflexivity|].
  destruct (X14_error_changes_nothing (testVault 1 "0.9.1-0") 2 "0.9.1-1" noCluster)
    as (_ & Hresize & _).
  edestruct Hresize as (Hst & Hlines & _); [vm_compute; reflexivity|].
  split; [exact Hst|exact Hlines].
Defined.

Lemma X15_create_then_delete_witness :
  vaultServices (DeleteCluster (testVault 1 "0.9.1-0") oneCluster).2
    = vaultServices noCluster ∧
  (DeleteCluster (testVault 1 "0.9.1-0") noCluster).1 =
    Some (errorString
            "failed to delete CR: vaultservices 'test-vault' not found").
Proof.
  destruct (X15_create_then_delete (testVault 1 "0.9.1-0") noCluster)
    as ((w1 & Hcreate & _ & w2 & Hdelete & Hst) & (w3 & Hmissing & _));
    [reflexivity|is_calm|].
  split.
  - unfold oneCluster. rewrite Hcreate. cbn [snd]. rewrite Hdelete. exact Hst.
  - rewrite Hmissing. reflexivity.
Defined.

Lemma X16_ResizeCluster_stores_int32_witness :
  (∃ v1, vaultServices (ResizeCluster (testVault 1 "0.9.1-0") 2 oneCluster).2
           !! ("e2e", "test-vault") = Some v1 ∧ Nodes (Spec v1) = 2%Z) ∧
  (∃ v1, vaultServices
           (ResizeCluster (testVault 1 "0.9.1-0") (2 ^ 31) oneCluster).2
           !! ("e2e", "test-vault") = Some v1 ∧
         Nodes (Spec v1) = (- 2 ^ 31)%Z).
Proof.
  destruct (X16_ResizeCluster_stores_int32 (testVault 1 "0.9.1-0")
              (testVault 1 "0.9.1-0") 2 oneCluster)
    as (v1 & w1 & Hrun1 & Hst1 & _ & Hid1 & _);
    [vm_compute; reflexivity|reflexivity|is_calm|].
  destruct (X16_ResizeCluster_stores_int32 (testVault 1 "0.9.1-0")
              (testVault 1 "0.9.1-0") (2 ^ 31) oneCluster)
    as (v2 & w2 & Hrun2 & Hst2 & _ & _ & Hlow2 & _);
    [vm_compute; reflexivity|reflexivity|is_calm|].
  rewrite Hrun1, Hrun2. cbn [snd]. split.
  - exists v1. split; [exact Hst1|]. apply Hid1. unfold fitsInt32. lia.
  - exists v2. split; [exact Hst2|]. rewrite Hlow2. reflexivity.
Defined.
End E2EUtilFacts.
